(** * MemeGenerator: a shallow embedding of the quote ingestors, the image
      compositor and the two entry points, with the properties the
      specification states about them.

    Sources embedded here:
      - [src/QuoteEngine/TextIngestor.py]  (ingestors, [QuoteModel])
      - [src/MemeEngine/MemeGenerator.py]  ([MemeGenerator])
      - [src/main.py]                      ([generate_meme])
      - [src/app.py]                       ([setup], [meme_rand], [meme_post])

    Python values are modelled as follows.  A [str] is a list of Unicode
    code points; an [int] is a [Z]; a [float] is a binary64 value of the
    standard library's [SpecFloat]; an exception is a value of [exn] carried
    by the [Raise] outcome of the effect monad [M]; attributes of objects
    and the files on disk live in an explicit [State]. *)

From Stdlib Require Import ZArith NArith List Bool String Ascii Lia.
From Stdlib Require Import SpecFloat.
Import ListNotations.

Local Open Scope Z_scope.

(* ================================================================== *)
(** * Python strings *)

(** A character is a Unicode code point. *)
Definition char := N.
Definition str := list char.

Definition chr (a : ascii) : char := N_of_ascii a.

(** [py "csv"] is the Python literal ['csv']. *)
Definition py (s : string) : str := map chr (list_ascii_of_string s).

Definition char_eqb (a b : char) : bool := N.eqb a b.

Fixpoint str_eqb (a b : str) : bool :=
  match a, b with
  | [], [] => true
  | x :: a', y :: b' => char_eqb x y && str_eqb a' b'
  | _, _ => false
  end.

(** [mem c l] is Python's [c in l] on a list of characters. *)
Definition mem (c : char) (l : list char) : bool := existsb (char_eqb c) l.

(** [s.split(sep)] for a one-character separator: every occurrence of
    [sep] cuts; the result always has at least one piece. *)
Fixpoint split (sep : char) (s : str) : list str :=
  match s with
  | [] => [[]]
  | c :: s' =>
      if char_eqb c sep then [] :: split sep s'
      else match split sep s' with
           | p :: ps => (c :: p) :: ps
           | [] => [[c]]
           end
  end.

(** [sep.join(parts)]. *)
Fixpoint join (sep : str) (parts : list str) : str :=
  match parts with
  | [] => []
  | [p] => p
  | p :: ps => p ++ sep ++ join sep ps
  end.

Fixpoint dropwhile (f : char -> bool) (s : str) : str :=
  match s with
  | [] => []
  | c :: s' => if f c then dropwhile f s' else s
  end.

(** [s.strip()] for a given whitespace test. *)
Definition strip_with (ws : char -> bool) (s : str) : str :=
  rev (dropwhile ws (rev (dropwhile ws s))).

(** [starts_ws ws s]: the first character of [s] is whitespace. *)
Definition starts_ws (ws : char -> bool) (s : str) : bool :=
  match s with
  | [] => false
  | c :: _ => ws c
  end.

(** [s.endswith(suffix)]. *)
Definition endswith (s suffix : str) : bool :=
  Nat.leb (List.length suffix) (List.length s)
  && str_eqb (skipn (List.length s - List.length suffix)%nat s) suffix.

Definition dot : char := chr "."%char.
Definition dash : char := chr "-"%char.
Definition slash : char := chr "/"%char.
Definition newline : char := 10%N.

(* ================================================================== *)
(** * Exceptions and outcomes *)

(** The exception classes the program raises or lets through.
    [PyException] is a plain [Exception(...)]. *)
Inductive exn :=
| FileNotFoundError
| FileExistsError
| OSError
| ValueError
| IndexError
| ZeroDivisionError
| OverflowError
| AttributeError
| UnicodeDecodeError
| CalledProcessError
| ConnectionError
| PyException.

Definition exn_eqb (a b : exn) : bool :=
  match a, b with
  | FileNotFoundError, FileNotFoundError
  | FileExistsError, FileExistsError
  | OSError, OSError
  | ValueError, ValueError
  | IndexError, IndexError
  | ZeroDivisionError, ZeroDivisionError
  | OverflowError, OverflowError
  | AttributeError, AttributeError
  | UnicodeDecodeError, UnicodeDecodeError
  | CalledProcessError, CalledProcessError
  | ConnectionError, ConnectionError
  | PyException, PyException => true
  | _, _ => false
  end.

(** [except OSError] also catches its subclass [FileNotFoundError]
    (and [FileExistsError]). *)
Definition is_OSError (e : exn) : bool :=
  match e with
  | OSError | FileNotFoundError | FileExistsError => true
  | _ => false
  end.

Inductive Result (A : Type) :=
| Ok (a : A)
| Raise (e : exn).
Arguments Ok {A} a.
Arguments Raise {A} e.

(* ================================================================== *)
(** * Domain data *)

(** [QuoteModel] (TextIngestor.py, 241-255): two attributes set once by
    [__init__].  The annotations give both as [str]. *)
Record QuoteModel := mkQuoteModel { quote : str; author : str }.

(** What [ImageDraw.text] leaves on the image. *)
Inductive Anchor := anchor_lb | anchor_lt.

Record Overlay := mkOverlay {
  ov_xy : Z * Z;
  ov_text : str;
  ov_font_size : Z;
  ov_anchor : Anchor;
  ov_fill : Z * Z * Z
}.

(** A decoded image: its [size] as (width, height) and the text drawn on
    it so far, oldest first. *)
Record Image := mkImage { size : Z * Z; overlays : list Overlay }.

Definition blob := list N.

(** A row of the data frame [pd.read_csv] yields, as the lambda of
    [IngestorCSV.parse] sees it: [x.body] and [x.author], [None] when the
    frame has no such column (the attribute access raises). *)
Record Row := mkRow { row_body : option str; row_author : option str }.

(** A file-system path as [pathlib] and the OS see it: whether it is
    anchored at the root, and its components.  Empty components and ['.']
    are dropped, ['..'] is kept. *)
Record path := mkPath { anchored : bool; parts : list str }.

Definition keep_part (p : str) : bool :=
  negb (str_eqb p []) && negb (str_eqb p [dot]).

(** [Path(s)]. *)
Definition Path (s : str) : path :=
  mkPath (match s with c :: _ => char_eqb c slash | [] => false end)
         (filter keep_part (split slash s)).

(** [str(p)]. *)
Definition path_str (p : path) : str :=
  if anchored p then slash :: join [slash] (parts p)
  else match parts p with
       | [] => [dot]
       | _ => join [slash] (parts p)
       end.

(** [p.name]: the final component, [''] when there is none. *)
Definition path_name (p : path) : str := last (parts p) [].

Fixpoint parts_eqb (a b : list str) : bool :=
  match a, b with
  | [], [] => true
  | x :: a', y :: b' => str_eqb x y && parts_eqb a' b'
  | _, _ => false
  end.

Definition path_eqb (a b : path) : bool :=
  Bool.eqb (anchored a) (anchored b) && parts_eqb (parts a) (parts b).

(** The prefixes of a component list, shortest first and without the empty
    one: the directories [mkdir(parents=True)] goes through. *)
Fixpoint prefixes (l : list str) : list (list str) :=
  match l with
  | [] => []
  | x :: l' => [x] :: map (cons x) (prefixes l')
  end.

(* ================================================================== *)
(** * Python floats (IEEE 754 binary64) *)

Definition prec : Z := 53.
Definition emax : Z := 1024.
Definition float := spec_float.

(** An [int] as an exact, not yet rounded, binary value. *)
Definition exact_of_int (z : Z) : float :=
  match z with
  | Z0 => S754_zero false
  | Zpos p => S754_finite false p 0
  | Zneg p => S754_finite true p 0
  end.

(** [float(z)]: the nearest binary64 value. *)
Definition float_of_int (z : Z) : Result float :=
  match binary_normalize prec emax z 0 false with
  | S754_infinity _ => Raise OverflowError
  | f => Ok f
  end.

(** [a / b] on two [int]s: the correctly rounded quotient. *)
Definition truediv (a b : Z) : Result float :=
  if b =? 0 then Raise ZeroDivisionError
  else match SFdiv prec emax (exact_of_int a) (exact_of_int b) with
       | S754_infinity _ => Raise OverflowError
       | f => Ok f
       end.

(** [a * f] for an [int] [a] and a [float] [f]: [a] is converted first. *)
Definition int_mul_float (a : Z) (f : float) : Result float :=
  match float_of_int a with
  | Ok fa => Ok (SFmul prec emax fa f)
  | Raise e => Raise e
  end.

(** [int(f)]: truncation toward zero. *)
Definition int_of_float (f : float) : Result Z :=
  match f with
  | S754_zero _ => Ok 0
  | S754_finite s m e => Ok (cond_Zopp s (Z.shiftl (Zpos m) e))
  | S754_infinity _ => Raise OverflowError
  | S754_nan => Raise ValueError
  end.

(* ================================================================== *)
(** * The libraries and the world the program runs in *)

(** The external collaborators, each as the function of its input that the
    program observes.  A decoder gets the content of the file it is
    pointed at. *)
Record Lib := mkLib {
  (** [str.isprintable] and [str.isspace] on one character. *)
  isprintable : char -> bool;
  isspace : char -> bool;
  (** [open(path, 'r').readlines()]. *)
  readlines : blob -> Result (list str);
  (** The [text] of each paragraph of [docx.Document(path)]. *)
  docx_paragraphs : blob -> Result (list str);
  (** The rows [pd.read_csv(path).apply(..., axis=1)] hands to the lambda,
      or the exception pandas raises before or after it does. *)
  read_csv : blob -> Result (list Row);
  (** [subprocess.run([pdftotext, "-layout", source, "-"], ...).stdout]. *)
  pdftotext : blob -> Result str;
  (** [Image.open(path).size]. *)
  Image_open : blob -> Result (Z * Z);
  (** [FreeTypeFont(self.font_path, size)]. *)
  FreeTypeFont : Z -> Result unit;
  (** [drawing.textbbox((0, 0), text, font=font)[2:]] for a font size. *)
  textbbox : Z -> str -> Z * Z;
  (** The JPEG bytes [Image.save] writes. *)
  jpeg_encode : Image -> Result blob;
  (** [requests.get(url)]: the status code and the content. *)
  requests_get : str -> Result (Z * blob);
  (** The part of a written buffer that is on disk before [close()]. *)
  flushed : blob -> blob;
  (** [os.walk(top)] as (root, files) pairs, and [os.listdir(dir)]. *)
  os_walk : str -> list (str * list str);
  os_listdir : str -> Result (list str);
  (** [tempfile.gettempdir()]. *)
  gettempdir : str
}.

(** [MemeGenerator]'s attributes (MemeGenerator.py, 41-47 and 85-90).  A
    font object is represented by the size it was loaded at. *)
Record MemeGenerator := mkMemeGenerator {
  output_dir : str;
  image : option Image;
  self_quote : str;
  self_author : str;
  font_size : option Z;
  font_quote : option Z;
  font_author : option Z
}.

Inductive Event :=
| EvParse (p : str)          (* [Ingestor.parse(p)] is entered *)
| EvPickImage                (* [random.choice] of an image *)
| EvPickQuote                (* [random.choice] of a quote record *)
| EvResize (wh : Z * Z)      (* [Image.resize(wh)] *)
| EvDraw (o : Overlay)       (* [ImageDraw.text] *)
| EvSave (p : path)          (* [Image.save] *)
| EvRaise (e : exn).         (* an exception is raised *)

(** Everything the program can change or consume. *)
Record State := mkState {
  files : path -> option blob;
  dirs : path -> bool;
  rand : nat -> Z;            (* the random source, draw by draw *)
  tmp_names : nat -> str;     (* the random part of temporary file names *)
  tick : nat;                 (* draws taken so far *)
  trace : list Event;         (* what happened, oldest first *)
  meme : MemeGenerator;       (* the one generator object of the program *)
  quotes : list QuoteModel;   (* app.py's module-level [quotes] *)
  imgs : list str             (* app.py's module-level [imgs] *)
}.

Definition set_files f (s : State) : State :=
  mkState f (dirs s) (rand s) (tmp_names s) (tick s) (trace s) (meme s)
          (quotes s) (imgs s).
Definition set_dirs d (s : State) : State :=
  mkState (files s) d (rand s) (tmp_names s) (tick s) (trace s) (meme s)
          (quotes s) (imgs s).
Definition set_tick n (s : State) : State :=
  mkState (files s) (dirs s) (rand s) (tmp_names s) n (trace s) (meme s)
          (quotes s) (imgs s).
Definition set_trace t (s : State) : State :=
  mkState (files s) (dirs s) (rand s) (tmp_names s) (tick s) t (meme s)
          (quotes s) (imgs s).
Definition set_meme g (s : State) : State :=
  mkState (files s) (dirs s) (rand s) (tmp_names s) (tick s) (trace s) g
          (quotes s) (imgs s).
Definition set_globals q i (s : State) : State :=
  mkState (files s) (dirs s) (rand s) (tmp_names s) (tick s) (trace s)
          (meme s) q i.

(* ================================================================== *)
(** * The effect monad: state, exceptions and a trace *)

Definition M (A : Type) : Type := State -> Result A * State.

Definition ret {A} (a : A) : M A := fun s => (Ok a, s).

Definition bind {A B} (m : M A) (f : A -> M B) : M B :=
  fun s => match m s with
           | (Ok a, s') => f a s'
           | (Raise e, s') => (Raise e, s')
           end.

Definition emit (ev : Event) : M unit :=
  fun s => (Ok tt, set_trace (trace s ++ [ev]) s).

(** [raise E]: the exception is recorded and becomes the outcome. *)
Definition raise {A} (e : exn) : M A :=
  fun s => (Raise e, set_trace (trace s ++ [EvRaise e]) s).

(** A bare [raise] inside a handler: the exception in flight goes on. *)
Definition reraise {A} (e : exn) : M A := fun s => (Raise e, s).

(** [try: m  except ...: h e]. *)
Definition try_catch {A} (m : M A) (h : exn -> M A) : M A :=
  fun s => match m s with
           | (Ok a, s') => (Ok a, s')
           | (Raise e, s') => h e s'
           end.

(** An outcome handed back by a library: a failure is an exception raised
    at the call. *)
Definition lift {A} (r : Result A) : M A :=
  match r with
  | Ok a => ret a
  | Raise e => raise e
  end.

Definition get : M State := fun s => (Ok s, s).
Definition modify (f : State -> State) : M unit := fun s => (Ok tt, f s).

Declare Scope py_scope.
Delimit Scope py_scope with py.
Notation "x <- m ;; k" := (bind m (fun x => k))
  (at level 100, m at next level, right associativity) : py_scope.
Notation "m ;; k" := (bind m (fun _ => k))
  (at level 100, right associativity) : py_scope.
Local Open Scope py_scope.

(** [l[i]]: [IndexError] when out of range. *)
Definition index {A} (l : list A) (i : nat) : M A :=
  match nth_error l i with
  | Some a => ret a
  | None => raise IndexError
  end.

(** The next draw of the random source. *)
Definition draw : M Z :=
  fun s => (Ok (rand s (tick s)), set_tick (S (tick s)) s).

(** [random.randint(a, b)] for [a <= b]: a value of [a..b]. *)
Definition randint (a b : Z) : M Z :=
  r <- draw ;; ret (a + r mod (b - a + 1)).

(** [random.choice(seq)]: [IndexError] on an empty sequence. *)
Definition choice {A} (l : list A) : M A :=
  match l with
  | [] => raise IndexError
  | _ => r <- draw ;; index l (Z.to_nat (r mod Z.of_nat (List.length l)))
  end.

(** Reading the content of the file at a path given as a string. *)
Definition read_file (p : str) : M blob :=
  s <- get ;;
  match files s (Path p) with
  | Some b => ret b
  | None => raise FileNotFoundError
  end.

(* ================================================================== *)
(** * QuoteEngine/TextIngestor.py *)

Section TextIngestor.
Context (L : Lib).

(** [IngestorInterface.input_extension] (47-58): [path.split('.')[-1]]. *)
Definition input_extension (path : str) : str := last (split dot path) [].

(** [IngestorInterface.can_ingest] (19-31), for a class whose
    [allowed_extensions] is [allowed]. *)
Definition can_ingest (allowed : list str) (path : str) : bool :=
  existsb (str_eqb (input_extension path)) allowed.

(** The character class of [unwanted_chars] (72), member by member.  The
    escaped double quote (code point 34) stands for the quote alone, so the
    backslash is not a member; the last seven are the non-ASCII members
    and the repeated [>]. *)
Definition unwanted_chars : list char :=
  map chr ["("; ")"]%char ++ [34%N]
  ++ map chr ["#"; "<"; ">"; "{"; "}"; "`"; "+"; "="; "~"; "|";
              "."; "!"; "?"; "/"; "@"; ";"; ","]%char
  ++ [191; 171; 187; 168; 62; 62; 239]%N.

Definition unwanted (c : char) : bool := mem c unwanted_chars.

(** [IngestorInterface.clean_data] (60-79). *)
Definition clean_data (text : str) : str :=
  let cleaned_text := filter (fun c => negb (unwanted c)) text in
  let cleaned_text := filter (isprintable L) cleaned_text in
  strip_with (isspace L) cleaned_text.

(** A [str] in a condition: true when it is not empty. *)
Definition truthy (s : str) : bool :=
  match s with [] => false | _ => true end.

(** The loop of [IngestorDOCX.parse] (97-103). *)
Fixpoint docx_loop (paragraphs : list str) (quotes : list QuoteModel)
  : list QuoteModel :=
  match paragraphs with
  | [] => quotes
  | text :: rest =>
      docx_loop rest
        (if truthy text then
           let parts := split dash text in
           if Nat.eqb (List.length parts) 2 then
             let quote_text := clean_data (nth 0 parts []) in
             let author_text := clean_data (nth 1 parts []) in
             quotes ++ [mkQuoteModel quote_text author_text]
           else quotes
         else quotes)
  end.

(** [IngestorDOCX.parse] (88-105). *)
Definition IngestorDOCX_parse (path : str) : M (list QuoteModel) :=
  if negb (can_ingest [py "docx"] path) then raise ValueError
  else
    content <- read_file path ;;
    paragraphs <- lift (docx_paragraphs L content) ;;
    ret (docx_loop paragraphs []).

(** The lambda of [IngestorCSV.parse] (120): the two cells go into the
    record as they are. *)
Definition csv_row (x : Row) : M QuoteModel :=
  match row_body x, row_author x with
  | Some b, Some a => ret (mkQuoteModel b a)
  | _, _ => raise AttributeError
  end.

Fixpoint csv_rows (rows : list Row) : M (list QuoteModel) :=
  match rows with
  | [] => ret []
  | x :: rest => q <- csv_row x ;; qs <- csv_rows rest ;; ret (q :: qs)
  end.

(** [IngestorCSV.parse] (114-122). *)
Definition IngestorCSV_parse (path : str) : M (list QuoteModel) :=
  if negb (can_ingest [py "csv"] path) then raise ValueError
  else
    content <- read_file path ;;
    rows <- lift (read_csv L content) ;;
    csv_rows rows.

(** One turn of the loop of [IngestorPDF.parse] (172-181): a line whose
    handling raises is skipped. *)
Definition pdf_line (extracted_quotes : list QuoteModel) (line : str)
  : M (list QuoteModel) :=
  let elements := split dash (strip_with (isspace L) line) in
  try_catch
    (e0 <- index elements 0 ;;
     let quote := clean_data e0 in
     e1 <- index elements 1 ;;
     let author := clean_data e1 in
     let quote_pdf := mkQuoteModel quote author in
     ret (extracted_quotes ++ [quote_pdf]))
    (fun _ => ret extracted_quotes).

Fixpoint pdf_loop (lines : list str) (extracted_quotes : list QuoteModel)
  : M (list QuoteModel) :=
  match lines with
  | [] => ret extracted_quotes
  | line :: rest =>
      acc <- pdf_line extracted_quotes line ;; pdf_loop rest acc
  end.

(** The [pdftotext] call (169-170); a source that cannot be read makes
    the tool exit with an error. *)
Definition run_pdftotext (source : str) : M str :=
  s <- get ;;
  match files s (Path source) with
  | Some content => lift (pdftotext L content)
  | None => raise CalledProcessError
  end.

(** [IngestorPDF.parse] (156-186). *)
Definition IngestorPDF_parse (source : str) : M (list QuoteModel) :=
  if negb (can_ingest [py "pdf"] source) then raise ValueError
  else
    try_catch
      (text <- run_pdftotext source ;;
       pdf_loop (split newline text) [])
      (fun error => raise ValueError).

(** The loop of [IngestorTXT.parse] (205-211). *)
Fixpoint txt_loop (lines : list str) (quote_models : list QuoteModel)
  : list QuoteModel :=
  match lines with
  | [] => quote_models
  | line :: rest =>
      txt_loop rest
        (if truthy (clean_data line) then
           let parts := split dash line in
           if Nat.ltb 1 (List.length parts) then
             let quote := clean_data (nth 0 parts []) in
             let author := clean_data (nth 1 parts []) in
             quote_models ++ [mkQuoteModel quote author]
           else quote_models
         else quote_models)
  end.

(** [IngestorTXT.parse] (195-213). *)
Definition IngestorTXT_parse (path : str) : M (list QuoteModel) :=
  if negb (can_ingest [py "txt"] path) then raise ValueError
  else
    content <- read_file path ;;
    lines <- lift (readlines L content) ;;
    ret (txt_loop lines []).

(** The four format-specific ingestor classes. *)
Inductive IngestorClass :=
| IngestorCSV | IngestorDOCX | IngestorTXT | IngestorPDF.

Definition ingestor_parse (c : IngestorClass) : str -> M (list QuoteModel) :=
  match c with
  | IngestorCSV => IngestorCSV_parse
  | IngestorDOCX => IngestorDOCX_parse
  | IngestorTXT => IngestorTXT_parse
  | IngestorPDF => IngestorPDF_parse
  end.

(** The selection of [Ingestor.parse] (224-235): [None] is the [else]
    branch. *)
Definition select_ingestor (extension : str) : option IngestorClass :=
  if str_eqb extension (py "csv") then Some IngestorCSV
  else if str_eqb extension (py "docx") then Some IngestorDOCX
  else if str_eqb extension (py "txt") then Some IngestorTXT
  else if str_eqb extension (py "pdf") then Some IngestorPDF
  else None.

(** [Ingestor.parse] (221-238). *)
Definition Ingestor_parse (path : str) : M (list QuoteModel) :=
  emit (EvParse path) ;;
  let extension := input_extension path in
  match select_ingestor extension with
  | Some ingestor => ingestor_parse ingestor path
  | None => raise PyException
  end.

End TextIngestor.

(* ================================================================== *)
(** * The file system and PIL primitives the generator calls *)

(** A directory exists when it was made; the working directory and the
    root always do. *)
Definition dir_exists (s : State) (p : path) : bool :=
  match parts p with
  | [] => true
  | _ => dirs s p
  end.

Definition child (d : path) (name : str) : path :=
  mkPath (anchored d) (parts d ++ [name]).

Definition parent (p : path) : path :=
  mkPath (anchored p) (removelast (parts p)).

Definition write_file (p : path) (b : blob) : M unit :=
  modify (fun s =>
    set_files (fun q => if path_eqb q p then Some b else files s q) s).

Definition remove_file (p : path) : M unit :=
  s <- get ;;
  match files s p with
  | None => raise FileNotFoundError
  | Some _ =>
      modify (fun s =>
        set_files (fun q => if path_eqb q p then None else files s q) s)
  end.

Definition mark_dir (p : path) : M unit :=
  s <- get ;;
  match files s p with
  | Some _ => raise FileExistsError
  | None =>
      modify (fun s =>
        set_dirs (fun q => if path_eqb q p then true else dirs s q) s)
  end.

Fixpoint mark_dirs (ps : list path) : M unit :=
  match ps with
  | [] => ret tt
  | p :: rest => mark_dir p ;; mark_dirs rest
  end.

(** [p.mkdir(parents=True, exist_ok=True)]. *)
Definition mkdir_parents (p : path) : M unit :=
  mark_dirs (map (mkPath (anchored p)) (prefixes (parts p))).

(** [tempfile]'s [TMP_MAX]. *)
Definition TMP_MAX : nat := 100 * 100.

(** The name search of [tempfile]: the first candidate name that is not
    taken in [d]. *)
Fixpoint fresh_name (fuel : nat) (d : path) (prefix suffix : str) : M path :=
  match fuel with
  | O => raise FileExistsError
  | S fuel' =>
      s <- get ;;
      let p := child d (prefix ++ tmp_names s (tick s) ++ suffix) in
      modify (fun s => set_tick (S (tick s)) s) ;;
      match files s p with
      | None => if dirs s p then fresh_name fuel' d prefix suffix else ret p
      | Some _ => fresh_name fuel' d prefix suffix
      end
  end.

(** [tempfile.NamedTemporaryFile(dir=dir, prefix=..., suffix=...).name]
    with the default [delete=True]: the file object is dropped as soon as
    its name is read, which closes and deletes the file, so only the name
    is left. *)
Definition NamedTemporaryFile_name (dir prefix suffix : str) : M path :=
  s <- get ;;
  let d := Path dir in
  if dir_exists s d then fresh_name TMP_MAX d prefix suffix
  else raise FileNotFoundError.

(** [Image.resize(size, ...)]: both sides must be at least 1. *)
Definition Image_resize (im : Image) (wh : Z * Z) : M Image :=
  if (fst wh <? 1) || (snd wh <? 1) then raise ValueError
  else emit (EvResize wh) ;; ret (mkImage wh (overlays im)).

(** The literal [0.8]. *)
Definition float_0_8 : float := S754_finite false 7205759403792794 (-53).

(* ================================================================== *)
(** * MemeEngine/MemeGenerator.py *)

Section MemeEngine.
Context (L : Lib).

(** [MemeGenerator.__init__] (34-47); [font_size] is not set yet. *)
Definition MemeGenerator_init (output_dir : str) : MemeGenerator :=
  mkMemeGenerator output_dir None [] [] None None None.

Definition self : M MemeGenerator := s <- get ;; ret (meme s).

Definition set_self (f : MemeGenerator -> MemeGenerator) : M unit :=
  modify (fun s => set_meme (f (meme s)) s).

Definition set_image (im : Image) (g : MemeGenerator) : MemeGenerator :=
  mkMemeGenerator (output_dir g) (Some im) (self_quote g) (self_author g)
                  (font_size g) (font_quote g) (font_author g).

(** Reading an attribute that may not have been set. *)
Definition attr {A} (a : option A) : M A :=
  match a with
  | Some x => ret x
  | None => raise AttributeError
  end.

(** The width actually used (60-61). *)
Definition clamp_width (width : Z) : Z :=
  if (500 <? width) || (width <? 1) then 500 else width.

(** [new_height] (63-65), in the arithmetic the interpreter performs. *)
Definition new_height_of (width original_width original_height : Z)
  : Result Z :=
  match truediv original_height original_width with
  | Raise e => Raise e
  | Ok aspect_ratio =>
      match int_mul_float width aspect_ratio with
      | Raise e => Raise e
      | Ok product => int_of_float product
      end
  end.

(** [MemeGenerator.load_and_resize_image] (49-74). *)
Definition load_and_resize_image (img_path : str) (width : Z) : M unit :=
  try_catch
    (content <- read_file img_path ;;
     sz <- lift (Image_open L content) ;;
     set_self (set_image (mkImage sz [])) ;;
     let width := clamp_width width in
     let '(original_width, original_height) := sz in
     new_height <- lift (new_height_of width original_width original_height) ;;
     resized <- Image_resize (mkImage sz []) (width, new_height) ;;
     set_self (set_image resized))
    (fun e =>
       if exn_eqb e FileNotFoundError then reraise e
       else if is_OSError e then reraise e
       else reraise e).

(** [MemeGenerator.prepare_fonts] (76-93). *)
Definition prepare_fonts (quote author : str) : M unit :=
  set_self (fun g =>
    mkMemeGenerator (output_dir g) (image g) quote author (Some 30)
                    (font_quote g) (font_author g)) ;;
  try_catch
    (lift (FreeTypeFont L 30) ;;
     set_self (fun g =>
       mkMemeGenerator (output_dir g) (image g) (self_quote g)
                       (self_author g) (font_size g) (Some 30)
                       (font_author g)) ;;
     scaled <- lift (int_mul_float 30 float_0_8) ;;
     author_size <- lift (int_of_float scaled) ;;
     lift (FreeTypeFont L author_size) ;;
     set_self (fun g =>
       mkMemeGenerator (output_dir g) (image g) (self_quote g)
                       (self_author g) (font_size g) (font_quote g)
                       (Some author_size)))
    (fun e => reraise e).

(** [drawing.text(xy, text, font=..., anchor=..., fill=...)] on
    [self.image]. *)
Definition draw_text (o : Overlay) : M unit :=
  g <- self ;;
  im <- attr (image g) ;;
  set_self (set_image (mkImage (size im) (overlays im ++ [o]))) ;;
  emit (EvDraw o).

(** [self.image.save(path)]. *)
Definition Image_save (p : path) : M unit :=
  g <- self ;;
  im <- attr (image g) ;;
  s <- get ;;
  if dir_exists s (parent p) then
    b <- lift (jpeg_encode L im) ;;
    write_file p b ;;
    emit (EvSave p)
  else raise FileNotFoundError.

Definition margin : Z := 10.

(** The horizontal choice (122, 125-128). *)
Definition choose_x (img_width max_text_width : Z) : M Z :=
  let max_x := Z.max margin (img_width - max_text_width) in
  if margin <? max_x then randint margin max_x else ret margin.

(** The vertical choice (123, 130-133). *)
Definition choose_y (img_height font_size : Z) : M Z :=
  let max_y := Z.max (margin + font_size) (img_height - 2 * font_size) in
  if margin + font_size <? max_y then randint (margin + font_size) max_y
  else ret (margin + font_size).

(** [MemeGenerator.make_meme] (95-150). *)
Definition make_meme (img_path text author : str) (width : Z) : M str :=
  try_catch
    (load_and_resize_image img_path width ;;
     prepare_fonts text author ;;
     g <- self ;;
     im <- attr (image g) ;;
     fq <- attr (font_quote g) ;;
     fa <- attr (font_author g) ;;
     fs <- attr (font_size g) ;;
     let '(img_width, img_height) := size im in
     let '(text_width, _) := textbbox L fq text in
     let '(author_width, _) := textbbox L fa (py "- " ++ author) in
     let max_text_width := Z.max text_width author_width in
     x <- choose_x img_width max_text_width ;;
     y <- choose_y img_height fs ;;
     draw_text (mkOverlay (x, y) text fq anchor_lb (250, 240, 255)) ;;
     r <- randint 0 255 ;;
     gr <- randint 0 255 ;;
     b <- randint 0 255 ;;
     draw_text (mkOverlay (x, y + 5) (py "- " ++ author) fa anchor_lt
                          (r, gr, b)) ;;
     g <- self ;;
     let output_folder := Path (output_dir g) in
     mkdir_parents output_folder ;;
     output_path_complete <-
       NamedTemporaryFile_name (path_name output_folder)
                               (py "meme_") (py ".jpg") ;;
     Image_save output_path_complete ;;
     ret (path_str output_folder ++ py "/" ++ path_name output_path_complete))
    (fun e => reraise e).

End MemeEngine.

(* ================================================================== *)
(** * main.py *)

Section Main.
Context (L : Lib).

(** [os.path.join(root, name)] for a relative [name]. *)
Definition os_path_join (root name : str) : str :=
  match rev root with
  | [] => name
  | c :: _ => if char_eqb c slash then root ++ name
              else root ++ [slash] ++ name
  end.

(** The loop over [os.walk] (14-15): each turn replaces [imgs]. *)
Fixpoint walk_loop (walked : list (str * list str)) (imgs : list str)
  : list str :=
  match walked with
  | [] => imgs
  | (root, files) :: rest => walk_loop rest (map (os_path_join root) files)
  end.

(** The loop over the quote files (30-31 here, 26-28 in app.py). *)
Fixpoint parse_all (quote_files : list str) (quotes : list QuoteModel)
  : M (list QuoteModel) :=
  match quote_files with
  | [] => ret quotes
  | f :: rest =>
      parsed <- Ingestor_parse L f ;; parse_all rest (quotes ++ parsed)
  end.

Definition main_quote_files : list str :=
  [py "./_data/DogQuotes/DogQuotesTXT.txt";
   py "./_data/DogQuotes/DogQuotesDOCX.docx";
   py "./_data/DogQuotes/DogQuotesCSV.csv"].

(** [generate_meme] (6-45), with the arguments the command line gives it:
    each is a string or [None].  [random.choice(path)] on a string picks
    one of its characters.  The local [quote] is [picked] here. *)
Definition generate_meme (path body author : option str) : M str :=
  img <-
    match path with
    | None =>
        let images := py "./_data/photos/dog/" in
        let imgs := walk_loop (os_walk L images) [] in
        match imgs with
        | [] => raise FileNotFoundError
        | _ => img <- choice imgs ;; emit EvPickImage ;; ret img
        end
    | Some path => c <- choice path ;; emit EvPickImage ;; ret [c]
    end ;;
  picked <-
    match body with
    | None =>
        quotes <- parse_all main_quote_files [] ;;
        match quotes with
        | [] => raise PyException
        | _ => q <- choice quotes ;; emit EvPickQuote ;; ret q
        end
    | Some body =>
        match author with
        | None => raise PyException
        | Some author_name => ret (mkQuoteModel body author_name)
        end
    end ;;
  modify (set_meme (MemeGenerator_init (py "./tmp"))) ;;
  let '(mkQuoteModel quote_text author_text) := picked in
  make_meme L img quote_text author_text 500.

End Main.

(* ================================================================== *)
(** * app.py *)

(** What a view returns: a rendered template (status 200) or a body with
    an explicit status. *)
Inductive Response :=
| Rendered (template : str) (path : option str)
| Plain (body : str) (status : Z).

Definition status_code (r : Response) : Z :=
  match r with
  | Rendered _ _ => 200
  | Plain _ st => st
  end.

(** [request.form]: [form.get(name)] is [None] for a missing field. *)
Definition Form := str -> option str.

(** [not v] for a form value. *)
Definition falsy (v : option str) : bool :=
  match v with
  | Some (_ :: _) => false
  | _ => true
  end.

(** [tempfile.NamedTemporaryFile(delete=False, suffix=...)]: an empty
    file is created under the default directory and stays. *)
Definition NamedTemporaryFile_keep (dir prefix suffix : str) : M path :=
  s <- get ;;
  let d := Path dir in
  if dir_exists s d then
    p <- fresh_name TMP_MAX d prefix suffix ;;
    write_file p [] ;;
    ret p
  else raise FileNotFoundError.

Section App.
Context (L : Lib).

Definition app_quote_files : list str :=
  [py "./_data/DogQuotes/DogQuotesTXT.txt";
   py "./_data/DogQuotes/DogQuotesDOCX.docx";
   py "./_data/DogQuotes/DogQuotesCSV.csv";
   py "./_data/DogQuotes/DogQuotesPDF.pdf"].

(** [setup] (14-36). *)
Definition setup : M (list QuoteModel * list str) :=
  let images_path := py "./_data/photos/dog/" in
  quotes <- parse_all L app_quote_files [] ;;
  listed <- lift (os_listdir L images_path) ;;
  let imgs :=
    map (fun f => images_path ++ py "/" ++ f)
        (filter (fun f => endswith f (py ".jpg")) listed) in
  ret (quotes, imgs).

(** The module level of app.py (11, 39). *)
Definition app_import : M unit :=
  modify (set_meme (MemeGenerator_init (py "./static"))) ;;
  qi <- setup ;;
  modify (set_globals (fst qi) (snd qi)).

(** [meme_rand] (43-49). *)
Definition meme_rand : M Response :=
  s <- get ;;
  img <- choice (imgs s) ;;
  emit EvPickImage ;;
  picked <- choice (quotes s) ;;
  emit EvPickQuote ;;
  path <- make_meme L img (quote picked) (author picked) 500 ;;
  ret (Rendered (py "meme.html") (Some path)).


Definition or_empty (v : option str) : str :=
  match v with Some x => x | None => [] end.

(** [meme_post] (58-81). *)
Definition meme_post (form : Form) : M Response :=
  let image_url := form (py "image_url") in
  let body := form (py "body") in
  let author_name := form (py "author") in
  if falsy image_url || falsy body || falsy author_name then
    ret (Plain (py "Missing info.") 400)
  else
    response <- lift (requests_get L (or_empty image_url)) ;;
    if negb (fst response =? 200) then
      ret (Plain (py "Error getting the image") 400)
    else
      temp_file <- NamedTemporaryFile_keep (gettempdir L) (py "tmp")
                                           (py ".jpg") ;;
      write_file temp_file (flushed L (snd response)) ;;
      path <- make_meme L (path_str temp_file) (or_empty body)
                        (or_empty author_name) 500 ;;
      write_file temp_file (snd response) ;;
      remove_file temp_file ;;
      ret (Rendered (py "meme.html") (Some path)).

End App.

(* ================================================================== *)
(** * A concrete world, to run the program on *)

Module Sample.

(** Printable and whitespace tests, exact on ASCII and Latin-1. *)
Definition isprintable (c : char) : bool :=
  ((32 <=? c) && (c <=? 126) || (161 <=? c) && negb (c =? 173))%N.

Definition isspace (c : char) : bool :=
  ((9 <=? c) && (c <=? 13) || (28 <=? c) && (c <=? 32)
   || (c =? 133) || (c =? 160))%N.

(** Lines with their line ends kept, as [readlines] gives them. *)
Fixpoint keepends (s : str) : list str :=
  match s with
  | [] => []
  | c :: s' =>
      if char_eqb c newline then [c] :: keepends s'
      else match keepends s' with
           | l :: ls => (c :: l) :: ls
           | [] => [[c]]
           end
  end.

(** One CSV line [body,author] as a row. *)
Definition row_of_line (line : str) : Row :=
  let cells := split (chr ","%char) line in
  mkRow (nth_error cells 0) (nth_error cells 1).

(** The first two bytes of an image file give its size. *)
Definition Image_open (b : blob) : Result (Z * Z) :=
  match b with
  | w :: h :: _ => Ok (Z.of_N w, Z.of_N h)
  | _ => Raise OSError
  end.

(** A fixed-pitch font: half the size per character, one line high. *)
Definition textbbox (font_size : Z) (text : str) : Z * Z :=
  (font_size * Z.of_nat (List.length text) / 2, font_size).

Definition jpeg_encode (im : Image) : Result blob :=
  Ok [Z.to_N (fst (size im)); Z.to_N (snd (size im));
      N.of_nat (List.length (overlays im))].

Definition lib : Lib :=
  mkLib isprintable isspace
        (fun b => Ok (keepends b))
        (fun b => Ok (split newline b))
        (fun b => Ok (map row_of_line (tl (split newline b))))
        (fun b => Ok b)
        Image_open
        (fun _ => Ok tt)
        textbbox
        jpeg_encode
        (fun _ => Ok (200, [640; 480]%N))
        (fun b => b)
        (fun top => [(top, [py "xander_1.jpg"])])
        (fun _ => Ok [py "xander_1.jpg"; py "notes.txt"])
        (py "/tmp").

(** A disk given as a list of (path, content) pairs. *)
Fixpoint lookup (disk : list (str * blob)) (p : path) : option blob :=
  match disk with
  | [] => None
  | (name, b) :: rest => if path_eqb (Path name) p then Some b
                         else lookup rest p
  end.

(** A state with the given disk and made directories; every random draw
    is [r], every temporary name [n]. *)
Definition state (disk : list (str * blob)) (made : list str) (r : Z)
                 (n : str) (g : MemeGenerator) : State :=
  mkState (lookup disk)
          (fun p => existsb (fun d => path_eqb (Path d) p) made)
          (fun _ => r) (fun _ => n) O [] g [] [].

(** A 500 x 300 picture, and one that is 100 x 30. *)
Definition photo : str * blob := (py "dog.jpg", [500; 300]%N).
Definition strip_photo : str * blob := (py "strip.jpg", [100; 30]%N).

Definition generator (out : str) : MemeGenerator :=
  mkMemeGenerator out None [] [] None None None.

End Sample.

(* ================================================================== *)
(** * Vocabulary of the properties *)

(** The rectangle (left, top, right, bottom) a drawn text covers.  Its
    extent is what [textbbox] measures for its font; anchor ['lb'] puts the
    drawing point at the bottom left of the text, ['lt'] at its top left. *)
Definition block (L : Lib) (o : Overlay) : Z * Z * Z * Z :=
  let '(x, y) := ov_xy o in
  let '(w, h) := textbbox L (ov_font_size o) (ov_text o) in
  match ov_anchor o with
  | anchor_lb => (x, y - h, x + w, y)
  | anchor_lt => (x, y, x + w, y + h)
  end.

(** A rectangle lies within an image of size [wh]. *)
Definition inside (wh : Z * Z) (r : Z * Z * Z * Z) : bool :=
  let '(x0, y0, x1, y1) := r in
  (0 <=? x0) && (0 <=? y0) && (x1 <=? fst wh) && (y1 <=? snd wh).

(** No text drawn on the image is clipped. *)
Definition no_clipping (L : Lib) (im : Image) : bool :=
  forallb (fun o => inside (size im) (block L o)) (overlays im).

(** The two overlays of a meme: the quote at [(x, y)] and the author line
    five pixels below, in the colour [fill]. *)
Definition quote_overlay (x y : Z) (text : str) : Overlay :=
  mkOverlay (x, y) text 30 anchor_lb (250, 240, 255).

Definition author_overlay (x y : Z) (author : str) (fill : Z * Z * Z)
  : Overlay :=
  mkOverlay (x, y + 5) (py "- " ++ author) 24 anchor_lt fill.

(** The steps of the pipeline an event belongs to. *)
Inductive Stage := Parsed | Picked | Resized | Drawn | Saved.

Definition Stage_eqb (a b : Stage) : bool :=
  match a, b with
  | Parsed, Parsed | Picked, Picked | Resized, Resized
  | Drawn, Drawn | Saved, Saved => true
  | _, _ => false
  end.

Definition stage (ev : Event) : option Stage :=
  match ev with
  | EvParse _ => Some Parsed
  | EvPickQuote => Some Picked
  | EvResize _ => Some Resized
  | EvDraw _ => Some Drawn
  | EvSave _ => Some Saved
  | EvPickImage | EvRaise _ => None
  end.

(** The pipeline steps of a trace, in the order they happened. *)
Fixpoint stages (tr : list Event) : list Stage :=
  match tr with
  | [] => []
  | ev :: rest =>
      match stage ev with
      | Some st => st :: stages rest
      | None => stages rest
      end
  end.

(** The exceptions raised in a trace, in the order they were raised. *)
Fixpoint raised (tr : list Event) : list exn :=
  match tr with
  | [] => []
  | EvRaise e :: rest => e :: raised rest
  | _ :: rest => raised rest
  end.

Fixpoint is_prefix (a l : list Stage) : bool :=
  match a, l with
  | [], _ => true
  | x :: a', y :: l' => Stage_eqb x y && is_prefix a' l'
  | _ :: _, [] => false
  end.

Definition no_exn (e : exn) : bool := false.
Definition any_exn (e : exn) : bool := true.
Definition only_IndexError (e : exn) : bool := exn_eqb e IndexError.

(** [tame l P Q m]: whatever the state, a run of [m] only adds events to
    the trace and leaves the stored quote records and image list as they
    are; when it returns, the steps it has gone through are exactly [l] and
    every exception raised on the way satisfies [P]; when it raises, the
    steps are a prefix of [l] and the exceptions raised satisfy [Q]. *)
Definition tame {A} (l : list Stage) (P Q : exn -> bool) (m : M A) : Prop :=
  forall s, exists tr,
    trace (snd (m s)) = trace s ++ tr
    /\ quotes (snd (m s)) = quotes s
    /\ imgs (snd (m s)) = imgs s
    /\ match fst (m s) with
       | Ok _ => stages tr = l /\ forallb P (raised tr) = true
       | Raise _ =>
           is_prefix (stages tr) l = true /\ forallb Q (raised tr) = true
       end.

(** The pipeline of [generate_meme]: the three quote files are parsed and
    a record is picked unless the quote is given; then the image is
    resized, the two texts are drawn and the file is saved. *)
Definition composition : list Stage := [Resized; Drawn; Drawn; Saved].

Definition pipeline (body : option str) : list Stage :=
  match body with
  | None => [Parsed; Parsed; Parsed; Picked]
  | Some _ => []
  end ++ composition.

(** [recovers_only P m]: when a run of [m] returns, every exception that
    was raised on the way, and so was caught and not passed on, satisfies
    [P]. *)
Definition recovers_only {A} (P : exn -> bool) (m : M A) : Prop :=
  forall s, exists tr,
    trace (snd (m s)) = trace s ++ tr
    /\ match fst (m s) with
       | Ok _ => forallb P (raised tr) = true
       | Raise _ => True
       end.

(** [propagates m]: a run of [m] in which an exception was raised, by the
    program or by a library it calls, ends in an exception. *)
Definition propagates {A} (m : M A) : Prop :=
  forall s, exists tr,
    trace (snd (m s)) = trace s ++ tr
    /\ match fst (m s) with
       | Ok _ => raised tr = []
       | Raise _ => True
       end.


(** [exact_width w]: [float(w)] is the integer [w] itself, with a 53-bit
    mantissa. *)
Definition exact_width (w : Z) : bool :=
  match float_of_int w with
  | Ok (S754_finite false m e) =>
      (0 <? - e) && (- e <=? 52) && (Zpos m =? w * 2 ^ (- e))
      && (2 ^ 52 <=? Zpos m) && (Zpos m <? 2 ^ 53)
  | _ => false
  end.

(** A component [pathlib] keeps: not empty, not ['.'], no ['/']. *)
Definition component (c : str) : Prop :=
  keep_part c = true /\ mem slash c = false.

(** A record whose two fields went through [clean_data]. *)
Definition cleaned (L : Lib) (q : QuoteModel) : Prop :=
  exists raw_quote raw_author,
    q = mkQuoteModel (clean_data L raw_quote) (clean_data L raw_author).

(** [frames R m]: every run of [m], whether it returns or raises, takes a
    state to one that [R] relates to it. *)
Definition frames {A} (R : State -> State -> Prop) (m : M A) : Prop :=
  forall s, R s (snd (m s)).

(** Nothing but the trace differs. *)
Definition only_trace (s s' : State) : Prop := s' = set_trace (trace s') s.

(** The files are the same (directories may have been made). *)
Definition same_files (s s' : State) : Prop := files s' = files s.

(** [spares m]: a run of [m] that raises has written no file. *)
Definition spares {A} (m : M A) : Prop :=
  forall s, match fst (m s) with
            | Raise _ => files (snd (m s)) = files s
            | Ok _ => True
            end.

(** A colour channel. *)
Definition channel (c : Z) : Prop := 0 <= c <= 255.


(** The record the TXT, DOCX and PDF parsers make of a line: its first
    two pieces around ['-'], each through [clean_data]. *)
Definition record_of (L : Lib) (line : str) : QuoteModel :=
  let parts := split dash line in
  mkQuoteModel (clean_data L (nth 0 parts [])) (clean_data L (nth 1 parts [])).

(** How many times a character occurs in a string. *)
Definition occurrences (c : char) (s : str) : nat :=
  List.length (filter (fun x => char_eqb x c) s).

(** [untouched s s']: the files, the directories and the generator of
    [s'] are those of [s]. *)
Definition untouched (s s' : State) : Prop :=
  files s' = files s /\ dirs s' = dirs s /\ meme s' = meme s.

(** The image directory both entry points read. *)
Definition images_dir : str := py "./_data/photos/dog/".

(** [Sample.lib] with another image directory: what [os.walk] and
    [os.listdir] report of it. *)
Definition sample_lib_with_photos (walked : list (str * list str))
                                  (listed : list str) : Lib :=
  mkLib Sample.isprintable Sample.isspace
        (readlines Sample.lib) (docx_paragraphs Sample.lib)
        (read_csv Sample.lib) (pdftotext Sample.lib)
        Sample.Image_open (FreeTypeFont Sample.lib)
        Sample.textbbox Sample.jpeg_encode
        (requests_get Sample.lib) (flushed Sample.lib)
        (fun _ => walked) (fun _ => Ok listed) (gettempdir Sample.lib).

(** A filled-in form of the [/create] page. *)
Definition sample_form : Form :=
  fun name =>
    if str_eqb name (py "image_url") then Some (py "http://x/dog.jpg")
    else if str_eqb name (py "body") then Some (py "Bark")
    else if str_eqb name (py "author") then Some (py "Rex")
    else None.

(** Three lines of a quote file: one quote, one line without an author,
    and one quote whose author line has a second ['-']. *)
Definition sample_lines : str :=
  py "Bark - Rex" ++ newline :: py "no author here"
  ++ newline :: py "Woof! - Fido - the 2nd".

(** [disk_function m]: whether [m] returns or raises, and what, depends
    on the files of the state only. *)
Definition disk_function {A} (m : M A) : Prop :=
  forall s1 s2, files s1 = files s2 -> fst (m s1) = fst (m s2).

(** Each file of a list parsed on its own from the state [s], the
    records put together in the order of the list; the first failure is
    the outcome. *)
Fixpoint parse_each (L : Lib) (s : State) (quote_files : list str)
  : Result (list QuoteModel) :=
  match quote_files with
  | [] => Ok []
  | f :: rest =>
      match fst (Ingestor_parse L f s) with
      | Raise e => Raise e
      | Ok parsed =>
          match parse_each L s rest with
          | Raise e => Raise e
          | Ok more => Ok (parsed ++ more)
          end
      end
  end.

(** A row with both cells. *)
Definition complete (x : Row) : bool :=
  match row_body x, row_author x with
  | Some _, Some _ => true
  | _, _ => false
  end.

(** A disk with the four quote files and one picture of the image
    directory, before the application is set up. *)
Definition sample_disk_state : State :=
  Sample.state
    [(py "./_data/DogQuotes/DogQuotesTXT.txt", py "Bark - Rex");
     (py "./_data/DogQuotes/DogQuotesDOCX.docx", py "Woof - Fido");
     (py "./_data/DogQuotes/DogQuotesCSV.csv", py "body,author");
     (py "./_data/DogQuotes/DogQuotesPDF.pdf", py "Grr - Max");
     (py "./_data/photos/dog//xander_1.jpg", [500; 300]%N)]
    [] 7 (py "abc") (Sample.generator (py "./static")).

(** The double quote character. *)
Definition dquote : char := 34%N.

(** [QuoteModel.__repr__] (TextIngestor.py, 257-264). *)
Definition QuoteModel_repr (q : QuoteModel) : str :=
  py "Quote Object: " ++ [dquote] ++ quote q ++ [dquote] ++ py " - "
  ++ author q.

(* ================================================================== *)
(** * Properties *)

(** ** Strings *)

Lemma char_eqb_eq (a b : char) : char_eqb a b = true <-> a = b.
Proof. apply N.eqb_eq. Qed.

Lemma str_eqb_eq (a b : str) : str_eqb a b = true <-> a = b.
Proof.
  revert b; induction a as [|x a IH]; intros [|y b]; simpl;
    try (split; [discriminate | congruence]); try tauto.
  rewrite andb_true_iff, char_eqb_eq, IH.
  split; [intros [-> ->]; reflexivity | intros E; injection E; auto].
Qed.

Lemma str_eqb_refl (a : str) : str_eqb a a = true.
Proof. apply str_eqb_eq; reflexivity. Qed.

Lemma split_nonempty sep s : split sep s <> [].
Proof.
  destruct s as [|c s]; simpl; [discriminate|].
  destruct (char_eqb c sep); [discriminate|].
  destruct (split sep s); discriminate.
Qed.

(** The last piece of a split has no separator in it. *)
Lemma last_split_no_sep sep s : mem sep (last (split sep s) []) = false.
Proof.
  induction s as [|c s IH]; simpl; [reflexivity|].
  destruct (char_eqb c sep) eqn:E.
  - destruct (split sep s) eqn:Es; [destruct (split_nonempty _ _ Es)|].
    exact IH.
  - destruct (split sep s) as [|p ps] eqn:Es;
      [destruct (split_nonempty _ _ Es)|].
    destruct ps as [|q qs]; [|exact IH].
    simpl in *. unfold char_eqb in *. rewrite N.eqb_sym, E. exact IH.
Qed.

(** Joining the pieces with the separator gives the string back. *)
Lemma join_split sep s : join [sep] (split sep s) = s.
Proof.
  induction s as [|c s IH]; simpl; [reflexivity|].
  destruct (char_eqb c sep) eqn:E.
  - apply char_eqb_eq in E; subst c.
    destruct (split sep s) as [|p ps] eqn:Es;
      [destruct (split_nonempty _ _ Es)|].
    simpl. f_equal. exact IH.
  - destruct (split sep s) as [|p ps] eqn:Es;
      [destruct (split_nonempty _ _ Es)|].
    destruct ps; simpl in *; f_equal; exact IH.
Qed.

Lemma join_last sep (l : list str) :
  l <> [] ->
  join [sep] l = last l [] \/
  exists stem, join [sep] l = stem ++ sep :: last l [].
Proof.
  induction l as [|p l IH]; [congruence|]. intros _.
  destruct l as [|q l]; [left; reflexivity|].
  right. destruct IH as [IH|[stem IH]]; [discriminate| |].
  - exists p. change (p ++ [sep] ++ join [sep] (q :: l)
                     = p ++ sep :: last (q :: l) []).
    rewrite IH. reflexivity.
  - exists (p ++ sep :: stem).
    change (p ++ [sep] ++ join [sep] (q :: l)
            = (p ++ sep :: stem) ++ sep :: last (q :: l) []).
    rewrite IH, <- app_assoc. reflexivity.
Qed.

(** The last piece is the whole string, or what follows a separator. *)
Lemma last_split_suffix sep s :
  s = last (split sep s) [] \/
  exists stem, s = stem ++ sep :: last (split sep s) [].
Proof.
  destruct (join_last sep (split sep s) (split_nonempty sep s)) as [H|[st H]];
    rewrite join_split in H; [left | right; exists st]; exact H.
Qed.

Lemma forallb_dropwhile (P f : char -> bool) s :
  forallb P s = true -> forallb P (dropwhile f s) = true.
Proof.
  induction s as [|c s IH]; simpl; [auto|].
  intros H. destruct (f c); [|exact H].
  apply andb_true_iff in H. apply IH, H.
Qed.

Lemma forallb_rev (P : char -> bool) s : forallb P (rev s) = forallb P s.
Proof.
  induction s as [|c s IH]; simpl; [reflexivity|].
  rewrite forallb_app, IH. simpl. rewrite andb_true_r. apply andb_comm.
Qed.

Lemma forallb_strip (P ws : char -> bool) s :
  forallb P s = true -> forallb P (strip_with ws s) = true.
Proof.
  intros H. unfold strip_with. rewrite forallb_rev.
  apply forallb_dropwhile. rewrite forallb_rev.
  apply forallb_dropwhile, H.
Qed.

Lemma filter_id (P : char -> bool) s :
  forallb P s = true -> filter P s = s.
Proof.
  induction s as [|c s IH]; simpl; [reflexivity|].
  intros H. apply andb_true_iff in H. destruct H as [Hc Hs].
  rewrite Hc, (IH Hs). reflexivity.
Qed.

Lemma forallb_filter_self (P : char -> bool) s :
  forallb P (filter P s) = true.
Proof.
  induction s as [|c s IH]; simpl; [reflexivity|].
  destruct (P c) eqn:E; simpl; [rewrite E|]; exact IH.
Qed.

Lemma forallb_filter_keep (P Q : char -> bool) s :
  forallb P s = true -> forallb P (filter Q s) = true.
Proof.
  induction s as [|c s IH]; simpl; [auto|].
  intros H. apply andb_true_iff in H. destruct H as [Hc Hs].
  destruct (Q c); simpl; [rewrite Hc|]; auto.
Qed.

Lemma dropwhile_head ws s : starts_ws ws (dropwhile ws s) = false.
Proof.
  induction s as [|c s IH]; simpl; [reflexivity|].
  destruct (ws c) eqn:E; [exact IH | simpl; exact E].
Qed.

Lemma dropwhile_fix ws s : starts_ws ws s = false -> dropwhile ws s = s.
Proof. destruct s as [|c s]; simpl; [reflexivity|]. intros ->. reflexivity. Qed.

Lemma dropwhile_suffix ws s : exists pre, s = pre ++ dropwhile ws s.
Proof.
  induction s as [|c s [pre IH]]; simpl; [exists []; reflexivity|].
  destruct (ws c); [|exists []; reflexivity].
  exists (c :: pre). simpl. f_equal. exact IH.
Qed.

Lemma strip_head ws s :
  starts_ws ws s = false ->
  starts_ws ws (rev (dropwhile ws (rev s))) = false.
Proof.
  intros H. destruct (dropwhile_suffix ws (rev s)) as [pre E].
  destruct (dropwhile ws (rev s)) as [|d u] eqn:Eu; [reflexivity|].
  assert (Es : s = rev (d :: u) ++ rev pre).
  { rewrite <- rev_app_distr, <- E, rev_involutive. reflexivity. }
  destruct (rev (d :: u)) as [|x xs] eqn:Er.
  - apply (f_equal (@List.length _)) in Er. rewrite length_rev in Er.
    discriminate.
  - rewrite Es in H. exact H.
Qed.

Lemma strip_leading ws s : starts_ws ws (strip_with ws s) = false.
Proof. apply strip_head, dropwhile_head. Qed.

Lemma strip_trailing ws s : starts_ws ws (rev (strip_with ws s)) = false.
Proof. unfold strip_with. rewrite rev_involutive. apply dropwhile_head. Qed.

Lemma strip_fix ws s :
  starts_ws ws s = false -> starts_ws ws (rev s) = false ->
  strip_with ws s = s.
Proof.
  intros H1 H2. unfold strip_with.
  rewrite (dropwhile_fix _ _ H1), (dropwhile_fix _ _ H2).
  apply rev_involutive.
Qed.

Lemma strip_idempotent ws s :
  strip_with ws (strip_with ws s) = strip_with ws s.
Proof. apply strip_fix; [apply strip_leading | apply strip_trailing]. Qed.

(** ** [clean_data] *)

Lemma clean_data_wanted (L : Lib) s :
  forallb (fun c => negb (unwanted c)) (clean_data L s) = true.
Proof.
  unfold clean_data. apply forallb_strip, forallb_filter_keep,
    forallb_filter_self.
Qed.

Lemma clean_data_printable (L : Lib) s :
  forallb (isprintable L) (clean_data L s) = true.
Proof. unfold clean_data. apply forallb_strip, forallb_filter_self. Qed.

(** C9: [clean_data] is idempotent, and for every string its result has no
    character of the unwanted set, no non-printable character, and no
    whitespace at its start or at its end. *)
Theorem clean_data_idempotent_and_clean (L : Lib) (s : str) :
  clean_data L (clean_data L s) = clean_data L s
  /\ forallb (fun c => negb (unwanted c)) (clean_data L s) = true
  /\ forallb (isprintable L) (clean_data L s) = true
  /\ starts_ws (isspace L) (clean_data L s) = false
  /\ starts_ws (isspace L) (rev (clean_data L s)) = false.
Proof.
  repeat split.
  - unfold clean_data at 1.
    rewrite (filter_id _ _ (clean_data_wanted L s)).
    rewrite (filter_id _ _ (clean_data_printable L s)).
    unfold clean_data. apply strip_idempotent.
  - apply clean_data_wanted.
  - apply clean_data_printable.
  - apply strip_leading.
  - apply strip_trailing.
Qed.

(** ** [Ingestor.parse] *)

Lemma input_extension_no_dot path : mem dot (input_extension path) = false.
Proof. apply last_split_no_sep. Qed.

Lemma select_ingestor_cases ext :
  (ext = py "csv" /\ select_ingestor ext = Some IngestorCSV)
  \/ (ext = py "docx" /\ select_ingestor ext = Some IngestorDOCX)
  \/ (ext = py "txt" /\ select_ingestor ext = Some IngestorTXT)
  \/ (ext = py "pdf" /\ select_ingestor ext = Some IngestorPDF)
  \/ (ext <> py "csv" /\ ext <> py "docx" /\ ext <> py "txt"
      /\ ext <> py "pdf" /\ select_ingestor ext = None).
Proof.
  unfold select_ingestor.
  destruct (str_eqb ext (py "csv")) eqn:E1;
    [apply str_eqb_eq in E1; subst; left; split; reflexivity|].
  destruct (str_eqb ext (py "docx")) eqn:E2;
    [apply str_eqb_eq in E2; subst; right; left; split; reflexivity|].
  destruct (str_eqb ext (py "txt")) eqn:E3;
    [apply str_eqb_eq in E3; subst; do 2 right; left; split; reflexivity|].
  destruct (str_eqb ext (py "pdf")) eqn:E4;
    [apply str_eqb_eq in E4; subst; do 3 right; left; split; reflexivity|].
  do 4 right.
  repeat split; try reflexivity; intros ->;
    rewrite str_eqb_refl in *; discriminate.
Qed.

(** The state in which an event has just been recorded. *)
Lemma emit_run ev s : emit ev s = (Ok tt, set_trace (trace s ++ [ev]) s).
Proof. reflexivity. Qed.

(** C2: [Ingestor.parse] dispatches on the extension of the path, which is
    what follows the last ['.'] (the whole path when it has none): ['csv'],
    ['docx'], ['txt'] and ['pdf'] go to the parser of that format, which
    accepts the path, and every other extension ends in an exception. *)
Theorem Ingestor_parse_dispatch (L : Lib) (path : str) (s : State) :
  let ext := input_extension path in
  let entered := set_trace (trace s ++ [EvParse path]) s in
  mem dot ext = false
  /\ (path = ext \/ exists stem, path = stem ++ dot :: ext)
  /\ ((ext = py "csv" /\ can_ingest [py "csv"] path = true
       /\ Ingestor_parse L path s = IngestorCSV_parse L path entered)
      \/ (ext = py "docx" /\ can_ingest [py "docx"] path = true
          /\ Ingestor_parse L path s = IngestorDOCX_parse L path entered)
      \/ (ext = py "txt" /\ can_ingest [py "txt"] path = true
          /\ Ingestor_parse L path s = IngestorTXT_parse L path entered)
      \/ (ext = py "pdf" /\ can_ingest [py "pdf"] path = true
          /\ Ingestor_parse L path s = IngestorPDF_parse L path entered)
      \/ (ext <> py "csv" /\ ext <> py "docx" /\ ext <> py "txt"
          /\ ext <> py "pdf"
          /\ fst (Ingestor_parse L path s) = Raise PyException)).
Proof.
  intros ext entered. split; [apply input_extension_no_dot|].
  split; [apply last_split_suffix|].
  assert (R : Ingestor_parse L path s =
              match select_ingestor ext with
              | Some ingestor => ingestor_parse L ingestor path entered
              | None => raise PyException entered
              end).
  { unfold Ingestor_parse, bind. rewrite emit_run. fold ext entered.
    destruct (select_ingestor ext); reflexivity. }
  assert (A : forall lit, ext = py lit -> can_ingest [py lit] path = true).
  { intros lit E. unfold can_ingest. fold ext. rewrite E. simpl.
    rewrite str_eqb_refl. reflexivity. }
  destruct (select_ingestor_cases ext)
    as [[E S]|[[E S]|[[E S]|[[E S]|(N1 & N2 & N3 & N4 & S)]]]];
    rewrite S in R.
  - left. auto.
  - right; left. auto.
  - do 2 right; left. auto.
  - do 3 right; left. auto.
  - do 4 right. repeat split; auto. rewrite R. reflexivity.
Qed.

(** ** Running the monad *)

Lemma bind_Ok {A B} (m : M A) (f : A -> M B) s b s' :
  bind m f s = (Ok b, s') ->
  exists a s1, m s = (Ok a, s1) /\ f a s1 = (Ok b, s').
Proof.
  unfold bind. destruct (m s) as [[a|e] s1]; [eauto | discriminate].
Qed.

Lemma try_reraise {A} (m : M A) s : try_catch m (fun e => reraise e) s = m s.
Proof. unfold try_catch. destruct (m s) as [[a|e] s1]; reflexivity. Qed.

Lemma lift_Ok {A} (r : Result A) s a s' :
  lift r s = (Ok a, s') -> r = Ok a /\ s' = s.
Proof. destruct r; simpl; [intros [= -> ->]; auto | discriminate]. Qed.

Lemma attr_Ok {A} (o : option A) s a s' :
  attr o s = (Ok a, s') -> o = Some a /\ s' = s.
Proof. destruct o; simpl; [intros [= -> ->]; auto | discriminate]. Qed.

Lemma randint_run a b s :
  randint a b s = (Ok (a + rand s (tick s) mod (b - a + 1)),
                   set_tick (S (tick s)) s).
Proof. reflexivity. Qed.

Lemma randint_range a b s :
  a <= b ->
  match fst (randint a b s) with
  | Ok v => a <= v <= b
  | Raise _ => False
  end.
Proof.
  intros H. rewrite randint_run. simpl.
  assert (0 <= rand s (tick s) mod (b - a + 1) < b - a + 1)
    by (apply Z.mod_pos_bound; lia).
  lia.
Qed.

(** Every value of the range is the outcome of some draw. *)
Lemma randint_onto a b v s :
  a <= v <= b ->
  fst (randint a b (mkState (files s) (dirs s) (fun _ => v - a)
                            (tmp_names s) (tick s) (trace s) (meme s)
                            (quotes s) (imgs s))) = Ok v.
Proof.
  intros H. rewrite randint_run. simpl.
  rewrite Z.mod_small by lia. f_equal. lia.
Qed.

(** ** The steps of [make_meme], when they succeed *)

Lemma parts_eqb_refl l : parts_eqb l l = true.
Proof.
  induction l as [|x l IH]; simpl; [reflexivity|].
  rewrite str_eqb_refl. exact IH.
Qed.

Lemma path_eqb_refl p : path_eqb p p = true.
Proof.
  unfold path_eqb. rewrite parts_eqb_refl. destruct (anchored p); reflexivity.
Qed.

Lemma author_font_size :
  match int_mul_float 30 float_0_8 with
  | Ok scaled => int_of_float scaled
  | Raise e => Raise e
  end = Ok 24.
Proof. vm_compute. reflexivity. Qed.

(** A handler that only re-raises does not turn a failure into a result. *)
Lemma try_catch_Ok {A} (m : M A) (h : exn -> M A) s a s1 :
  (forall e s0, exists s0', h e s0 = (Raise e, s0')) ->
  try_catch m h s = (Ok a, s1) -> m s = (Ok a, s1).
Proof.
  intros Hh. unfold try_catch. destruct (m s) as [[x|e] s0]; [auto|].
  destruct (Hh e s0) as [s0' ->]. discriminate.
Qed.

Lemma read_file_Ok p s b s1 :
  read_file p s = (Ok b, s1) -> files s (Path p) = Some b /\ s1 = s.
Proof.
  unfold read_file, bind, get.
  destruct (files s (Path p)); simpl; [intros [= -> ->]; auto | discriminate].
Qed.

Tactic Notation "inv_bind" hyp(H) "as" ident(a) ident(s) ident(H1) :=
  apply bind_Ok in H; destruct H as (a & s & H1 & H).

Lemma clamp_width_pos w : 1 <= clamp_width w <= 500.
Proof.
  unfold clamp_width. destruct ((500 <? w) || (w <? 1)) eqn:E; [lia|].
  apply orb_false_iff in E. destruct E as [E1 E2].
  apply Z.ltb_ge in E1, E2. lia.
Qed.

Lemma Image_resize_Ok im wh s r s1 :
  Image_resize im wh s = (Ok r, s1) ->
  1 <= fst wh /\ 1 <= snd wh /\ r = mkImage wh (overlays im)
  /\ s1 = set_trace (trace s ++ [EvResize wh]) s.
Proof.
  unfold Image_resize.
  destruct ((fst wh <? 1) || (snd wh <? 1)) eqn:E; [discriminate|].
  apply orb_false_iff in E. destruct E as [E1 E2].
  apply Z.ltb_ge in E1, E2.
  unfold bind, emit, ret. simpl. intros [= <- <-]. auto.
Qed.

Lemma load_and_resize_image_Ok (L : Lib) p w s u s1 :
  load_and_resize_image L p w s = (Ok u, s1) ->
  exists b ow oh h,
    files s (Path p) = Some b
    /\ Image_open L b = Ok (ow, oh)
    /\ new_height_of (clamp_width w) ow oh = Ok h
    /\ 1 <= h
    /\ s1 = set_meme (set_image (mkImage (clamp_width w, h) []) (meme s))
              (set_trace (trace s ++ [EvResize (clamp_width w, h)]) s).
Proof.
  intros H. unfold load_and_resize_image in H.
  apply try_catch_Ok in H.
  2:{ intros e s0. exists s0.
      destruct (exn_eqb e FileNotFoundError), (is_OSError e); reflexivity. }
  inv_bind H as b s2 Ef. apply read_file_Ok in Ef. destruct Ef as [Ef ->].
  inv_bind H as sz s2 Eo. apply lift_Ok in Eo. destruct Eo as [Eo ->].
  inv_bind H as u1 s2 E1. destruct sz as [ow oh].
  inv_bind H as h s3 Eh. apply lift_Ok in Eh. destruct Eh as [Eh ->].
  inv_bind H as im s3 Er. apply Image_resize_Ok in Er.
  destruct Er as (_ & Hh & -> & ->). simpl in Hh.
  unfold set_self, modify in E1, H. injection E1 as _ <-. injection H as _ <-.
  exists b, ow, oh, h. repeat split; auto.
Qed.

Lemma prepare_fonts_Ok (L : Lib) q a s u s1 :
  prepare_fonts L q a s = (Ok u, s1) ->
  s1 = set_meme (mkMemeGenerator (output_dir (meme s)) (image (meme s)) q a
                                 (Some 30) (Some 30) (Some 24)) s.
Proof.
  intros H. unfold prepare_fonts in H.
  inv_bind H as u1 s2 E1. unfold set_self, modify in E1.
  injection E1 as _ <-.
  rewrite try_reraise in H.
  inv_bind H as u2 s2 E2. apply lift_Ok in E2. destruct E2 as [_ ->].
  inv_bind H as u3 s2 E3. unfold set_self, modify in E3.
  injection E3 as _ <-.
  inv_bind H as scaled s2 E4. apply lift_Ok in E4. destruct E4 as [E4 ->].
  inv_bind H as asz s2 E5. apply lift_Ok in E5. destruct E5 as [E5 ->].
  assert (asz = 24).
  { pose proof author_font_size as F. rewrite E4, E5 in F. congruence. }
  subst asz.
  inv_bind H as u4 s2 E6. apply lift_Ok in E6. destruct E6 as [_ ->].
  unfold set_self, modify in H. injection H as _ <-. reflexivity.
Qed.

Lemma randint_Ok a b s v s1 :
  a <= b -> randint a b s = (Ok v, s1) ->
  a <= v <= b /\ s1 = set_tick (S (tick s)) s.
Proof.
  intros Hab. rewrite randint_run. intros H. injection H as Hv Hs.
  split; [|auto].
  assert (0 <= rand s (tick s) mod (b - a + 1) < b - a + 1)
    by (apply Z.mod_pos_bound; lia).
  lia.
Qed.

Lemma ret_Ok {A} (a b : A) s s1 : ret a s = (Ok b, s1) -> b = a /\ s1 = s.
Proof. unfold ret. intros H. injection H as <- <-. auto. Qed.

Lemma set_tick_same s : s = set_tick (tick s) s.
Proof. destruct s; reflexivity. Qed.

Lemma choose_x_Ok img_width max_text_width s x s1 :
  choose_x img_width max_text_width s = (Ok x, s1) ->
  margin <= x <= Z.max margin (img_width - max_text_width)
  /\ exists n, s1 = set_tick n s.
Proof.
  unfold choose_x.
  destruct (margin <? Z.max margin (img_width - max_text_width)) eqn:E.
  - apply Z.ltb_lt in E. intros H. apply randint_Ok in H; [|lia].
    destruct H as [H ->]. eauto.
  - apply Z.ltb_ge in E. intros H. apply ret_Ok in H. destruct H as [-> ->].
    split; [lia | exists (tick s); apply set_tick_same].
Qed.

Lemma choose_y_Ok img_height fs s y s1 :
  choose_y img_height fs s = (Ok y, s1) ->
  margin + fs <= y <= Z.max (margin + fs) (img_height - 2 * fs)
  /\ exists n, s1 = set_tick n s.
Proof.
  unfold choose_y.
  destruct (margin + fs <? Z.max (margin + fs) (img_height - 2 * fs)) eqn:E.
  - apply Z.ltb_lt in E. intros H. apply randint_Ok in H; [|lia].
    destruct H as [H ->]. eauto.
  - apply Z.ltb_ge in E. intros H. apply ret_Ok in H. destruct H as [-> ->].
    split; [lia | exists (tick s); apply set_tick_same].
Qed.

Lemma draw_text_Ok o s u s1 :
  draw_text o s = (Ok u, s1) ->
  exists im,
    image (meme s) = Some im
    /\ s1 = set_trace (trace s ++ [EvDraw o])
              (set_meme (set_image (mkImage (size im) (overlays im ++ [o]))
                                   (meme s)) s).
Proof.
  intros H. unfold draw_text in H.
  inv_bind H as g s2 E1. unfold self, bind, get, ret in E1.
  injection E1 as <- <-.
  inv_bind H as im s2 E2. apply attr_Ok in E2. destruct E2 as [E2 ->].
  inv_bind H as u1 s2 E3. unfold set_self, modify in E3.
  injection E3 as _ <-.
  unfold emit in H. injection H as _ <-.
  exists im. auto.
Qed.

Lemma mark_dirs_Ok ps s u s1 :
  mark_dirs ps s = (Ok u, s1) -> exists d, s1 = set_dirs d s.
Proof.
  revert s; induction ps as [|p ps IH]; intros s; simpl.
  - unfold ret. intros [= _ <-]. exists (dirs s). destruct s; reflexivity.
  - intros H. inv_bind H as u1 s2 E1.
    apply IH in H. destruct H as [d ->]. exists d.
    unfold mark_dir, bind, get in E1.
    destruct (files s p); [discriminate|].
    unfold modify in E1. injection E1 as _ <-. reflexivity.
Qed.

Lemma fresh_name_Ok fuel d prefix suffix s p s1 :
  fresh_name fuel d prefix suffix s = (Ok p, s1) ->
  (exists n, s1 = set_tick n s)
  /\ files s p = None
  /\ exists k, p = child d (prefix ++ tmp_names s k ++ suffix).
Proof.
  revert s; induction fuel as [|fuel IH]; intros s; simpl; [discriminate|].
  intros H. inv_bind H as s0 s2 E1. unfold get in E1. injection E1 as <- <-.
  inv_bind H as u1 s2 E2. unfold modify in E2. injection E2 as _ <-.
  destruct (files s (child d (prefix ++ tmp_names s (tick s) ++ suffix)))
    eqn:Ef.
  - apply IH in H. destruct H as ([n ->] & F & [k T]).
    split; [exists n; reflexivity | split; [exact F | exists k; exact T]].
  - destruct (dirs s (child d (prefix ++ tmp_names s (tick s) ++ suffix))).
    + apply IH in H. destruct H as ([n ->] & F & [k T]).
      split; [exists n; reflexivity | split; [exact F | exists k; exact T]].
    + unfold ret in H. injection H as <- <-.
      split; [exists (S (tick s)); reflexivity | eauto].
Qed.

Lemma NamedTemporaryFile_name_Ok dir prefix suffix s p s1 :
  NamedTemporaryFile_name dir prefix suffix s = (Ok p, s1) ->
  (exists n, s1 = set_tick n s)
  /\ dir_exists s (Path dir) = true
  /\ files s p = None
  /\ exists k, p = child (Path dir) (prefix ++ tmp_names s k ++ suffix).
Proof.
  intros H. unfold NamedTemporaryFile_name in H.
  inv_bind H as s0 s2 E1. unfold get in E1. injection E1 as <- <-.
  destruct (dir_exists s (Path dir)) eqn:Ed; [|discriminate].
  apply fresh_name_Ok in H. tauto.
Qed.

Lemma Image_save_Ok (L : Lib) p s u s1 :
  Image_save L p s = (Ok u, s1) ->
  exists im b,
    image (meme s) = Some im
    /\ jpeg_encode L im = Ok b
    /\ s1 = set_trace (trace s ++ [EvSave p])
              (set_files (fun q => if path_eqb q p then Some b
                                   else files s q) s).
Proof.
  intros H. unfold Image_save in H.
  inv_bind H as g s2 E1. unfold self, bind, get, ret in E1.
  injection E1 as <- <-.
  inv_bind H as im s2 E2. apply attr_Ok in E2. destruct E2 as [E2 ->].
  inv_bind H as s0 s2 E3. unfold get in E3. injection E3 as <- <-.
  destruct (dir_exists s (parent p)); [|discriminate].
  inv_bind H as b s2 E4. apply lift_Ok in E4. destruct E4 as [E4 ->].
  inv_bind H as u1 s2 E5. unfold write_file, modify in E5.
  injection E5 as _ <-.
  unfold emit in H. injection H as _ <-.
  exists im, b. auto.
Qed.

Lemma path_name_child d name : path_name (child d name) = name.
Proof. unfold path_name, child. simpl. apply last_last. Qed.

Lemma self_run s : self s = (Ok (meme s), s).
Proof. reflexivity. Qed.

(** What a successful [make_meme] has done. *)
Lemma make_meme_Ok (L : Lib) p text author w s out s' :
  make_meme L p text author w s = (Ok out, s') ->
  exists b ow oh h x y fill token encoded,
    let W := clamp_width w in
    let mtw := Z.max (fst (textbbox L 30 text))
                     (fst (textbbox L 24 (py "- " ++ author))) in
    let im := mkImage (W, h) [quote_overlay x y text;
                              author_overlay x y author fill] in
    let folder := Path (output_dir (meme s)) in
    let name := py "meme_" ++ token ++ py ".jpg" in
    let saved := child (Path (path_name folder)) name in
    files s (Path p) = Some b
    /\ Image_open L b = Ok (ow, oh)
    /\ new_height_of W ow oh = Ok h
    /\ 1 <= h
    /\ margin <= x <= Z.max margin (W - mtw)
    /\ margin + 30 <= y <= Z.max (margin + 30) (h - 2 * 30)
    /\ meme s' = mkMemeGenerator (output_dir (meme s)) (Some im) text author
                                 (Some 30) (Some 30) (Some 24)
    /\ trace s' = trace s ++ [EvResize (W, h);
                              EvDraw (quote_overlay x y text);
                              EvDraw (author_overlay x y author fill);
                              EvSave saved]
    /\ jpeg_encode L im = Ok encoded
    /\ files s' = (fun q => if path_eqb q saved then Some encoded
                            else files s q)
    /\ out = path_str folder ++ py "/" ++ name
    /\ quotes s' = quotes s
    /\ imgs s' = imgs s
    /\ exists k, token = tmp_names s k.
Proof.
  intros H. unfold make_meme in H. rewrite try_reraise in H.
  inv_bind H as u1 s1 E1. apply load_and_resize_image_Ok in E1.
  destruct E1 as (b & ow & oh & h & Ef & Eo & Eh & Hh & ->).
  inv_bind H as u2 s2 E2. apply prepare_fonts_Ok in E2. subst s2.
  inv_bind H as g s2 E3. rewrite self_run in E3. injection E3 as <- <-.
  inv_bind H as im0 s2 E4. apply attr_Ok in E4. destruct E4 as [E4 ->].
  inv_bind H as fq s2 E5. apply attr_Ok in E5. destruct E5 as [E5 ->].
  inv_bind H as fa s2 E6. apply attr_Ok in E6. destruct E6 as [E6 ->].
  inv_bind H as fs s2 E7. apply attr_Ok in E7. destruct E7 as [E7 ->].
  simpl in E4, E5, E6, E7.
  injection E4 as <-. injection E5 as <-. injection E6 as <-.
  injection E7 as <-.
  cbv beta iota delta [size] in H.
  destruct (textbbox L 30 text) as [tw th] eqn:Etw.
  destruct (textbbox L 24 (py "- " ++ author)) as [aw ah] eqn:Eaw.
  inv_bind H as x s2 Ex. apply choose_x_Ok in Ex.
  destruct Ex as [Hx [n1 ->]].
  inv_bind H as y s3 Ey. apply choose_y_Ok in Ey.
  destruct Ey as [Hy [n2 ->]].
  inv_bind H as u3 s4 Ed1. apply draw_text_Ok in Ed1.
  destruct Ed1 as (im1 & Ei1 & ->). simpl in Ei1. injection Ei1 as <-.
  inv_bind H as r s5 Er. rewrite randint_run in Er. injection Er as Er <-.
  inv_bind H as gr s6 Eg. rewrite randint_run in Eg. injection Eg as Eg <-.
  inv_bind H as bl s7 Eb. rewrite randint_run in Eb. injection Eb as Eb <-.
  inv_bind H as u4 s8 Ed2. apply draw_text_Ok in Ed2.
  destruct Ed2 as (im2 & Ei2 & ->). simpl in Ei2. injection Ei2 as <-.
  inv_bind H as g2 s9 Eg2. rewrite self_run in Eg2. injection Eg2 as <- <-.
  inv_bind H as u5 s10 Em. apply mark_dirs_Ok in Em. destruct Em as [d ->].
  inv_bind H as saved s11 Et. apply NamedTemporaryFile_name_Ok in Et.
  destruct Et as ([n3 ->] & _ & _ & k & ->).
  inv_bind H as u6 s12 Es. apply Image_save_Ok in Es.
  destruct Es as (im3 & encoded & Ei3 & Eenc & ->).
  simpl in Ei3. injection Ei3 as <-.
  apply ret_Ok in H. destruct H as [-> ->].
  rewrite path_name_child.
  exists b, ow, oh, h, x, y, (r, gr, bl), (tmp_names s k), encoded.
  unfold margin in *. simpl. repeat rewrite <- app_assoc. simpl.
  repeat split; eauto; try lia.
Qed.


(** ** Placement of the two text blocks *)


(** The height is not measured either: on an image 30 pixels high the
    quote is drawn with its bottom at y = 40, below the lower edge. *)
Lemma make_meme_clips_low_image :
  let s := Sample.state [Sample.strip_photo] [] 0 (py "x")
                        (Sample.generator (py "./output")) in
  let r := make_meme Sample.lib (py "strip.jpg") (py "Hi") (py "Rex") 100 s in
  fst r = Ok (py "output/meme_x.jpg")
  /\ option_map size (image (meme (snd r))) = Some (100, 30)
  /\ option_map (no_clipping Sample.lib) (image (meme (snd r))) = Some false.
Proof. vm_compute. auto. Qed.



(** ** Traces: the rules of [tame] *)

Lemma stages_app a b : stages (a ++ b) = stages a ++ stages b.
Proof.
  induction a as [|ev a IH]; simpl; [reflexivity|].
  destruct (stage ev); simpl; rewrite IH; reflexivity.
Qed.

Lemma raised_app a b : raised (a ++ b) = raised a ++ raised b.
Proof.
  induction a as [|ev a IH]; simpl; [reflexivity|].
  destruct ev; simpl; rewrite IH; reflexivity.
Qed.

Lemma Stage_eqb_refl a : Stage_eqb a a = true.
Proof. destruct a; reflexivity. Qed.

Lemma is_prefix_refl l : is_prefix l l = true.
Proof.
  induction l as [|x l IH]; simpl; [reflexivity|].
  rewrite Stage_eqb_refl. exact IH.
Qed.

Lemma is_prefix_app_r a l l' :
  is_prefix a l = true -> is_prefix a (l ++ l') = true.
Proof.
  revert l; induction a as [|x a IH]; intros [|y l]; simpl; auto;
    [discriminate|].
  intros H. apply andb_true_iff in H. destruct H as [-> H].
  simpl. auto.
Qed.

Lemma is_prefix_app l a b :
  is_prefix a b = true -> is_prefix (l ++ a) (l ++ b) = true.
Proof.
  intros H. induction l as [|x l IH]; simpl; [exact H|].
  rewrite Stage_eqb_refl. exact IH.
Qed.

Lemma forallb_weaken (P Q : exn -> bool) l :
  (forall e, P e = true -> Q e = true) ->
  forallb P l = true -> forallb Q l = true.
Proof.
  intros PQ. induction l as [|e l IH]; simpl; [auto|].
  intros H. apply andb_true_iff in H. destruct H as [He Hl].
  rewrite (PQ _ He), (IH Hl). reflexivity.
Qed.

Section TameRules.
Context {A B : Type}.
Implicit Types (P Q : exn -> bool) (l : list Stage).

Lemma tame_ret P Q (a : A) : tame [] P Q (ret a).
Proof. intros s. exists []. simpl. rewrite app_nil_r. repeat split; auto. Qed.

Lemma tame_raise l P Q e : Q e = true -> tame l P Q (@raise A e).
Proof.
  intros He s. exists [EvRaise e]. simpl. rewrite He. repeat split; auto.
Qed.

Lemma tame_reraise l P Q e : tame l P Q (@reraise A e).
Proof. intros s. exists []. simpl. rewrite app_nil_r. repeat split; auto. Qed.

Lemma tame_lift P (r : Result A) : tame [] P any_exn (lift r).
Proof.
  destruct r; simpl; [apply tame_ret | apply tame_raise; reflexivity].
Qed.

Lemma tame_attr P (o : option A) : tame [] P any_exn (attr o).
Proof.
  destruct o; simpl; [apply tame_ret | apply tame_raise; reflexivity].
Qed.

Lemma tame_bind l1 l2 P Q (m : M A) (f : A -> M B) :
  (forall e, P e = true -> Q e = true) ->
  tame l1 P Q m -> (forall a, tame l2 P Q (f a)) ->
  tame (l1 ++ l2) P Q (bind m f).
Proof.
  intros PQ Hm Hf s. unfold bind.
  destruct (Hm s) as (tr1 & T1 & K1 & I1 & R1).
  destruct (m s) as [[a|e] s1]; simpl in *.
  - destruct (Hf a s1) as (tr2 & T2 & K2 & I2 & R2).
    exists (tr1 ++ tr2).
    rewrite T2, T1, K2, K1, I2, I1, app_assoc, stages_app, raised_app.
    repeat split; auto.
    destruct R1 as [S1 F1].
    destruct (fst (f a s1)); destruct R2 as [S2 F2].
    + rewrite S1, S2, forallb_app, F1, F2. auto.
    + rewrite S1, forallb_app, (forallb_weaken P Q _ PQ F1), F2.
      split; [apply is_prefix_app, S2 | reflexivity].
  - exists tr1. destruct R1 as [S1 F1].
    repeat split; auto. apply is_prefix_app_r, S1.
Qed.

(** Weakening of what may have been raised. *)
Lemma tame_weaken l P Q P' Q' (m : M A) :
  (forall e, P e = true -> P' e = true) ->
  (forall e, Q e = true -> Q' e = true) ->
  tame l P Q m -> tame l P' Q' m.
Proof.
  intros PP QQ Hm s. destruct (Hm s) as (tr & T & K & I & R).
  exists tr. repeat split; auto.
  destruct (fst (m s)); destruct R as [S F]; split; auto;
    eapply forallb_weaken; eauto.
Qed.

(** A handler that lets the exception go on. *)
Lemma tame_try_reraise l P Q (m : M A) (h : exn -> M A) :
  (forall e s, h e s = (Raise e, s)) ->
  tame l P Q m -> tame l P Q (try_catch m h).
Proof.
  intros Hh Hm s. unfold try_catch.
  destruct (Hm s) as (tr1 & T1 & K1 & I1 & R1).
  destruct (m s) as [[a|e] s1]; simpl in *.
  - exists tr1. destruct R1. repeat split; auto.
  - rewrite Hh. exists tr1. destruct R1. repeat split; auto.
Qed.

(** A handler that raises another exception instead. *)
Lemma tame_try_raise l P Q (m : M A) (e' : exn) :
  Q e' = true ->
  tame l P Q m -> tame l P Q (try_catch m (fun _ => raise e')).
Proof.
  intros He Hm s. unfold try_catch.
  destruct (Hm s) as (tr1 & T1 & K1 & I1 & R1).
  destruct (m s) as [[a|e] s1]; simpl in *.
  - exists tr1. destruct R1. repeat split; auto.
  - exists (tr1 ++ [EvRaise e']).
    rewrite T1, app_assoc, stages_app, raised_app, forallb_app.
    simpl. rewrite app_nil_r, He. destruct R1 as [-> ->].
    repeat split; auto.
Qed.

(** A handler that gives up on the step and goes on. *)
Lemma tame_try_skip P Q P' Q' (m : M A) (a : A) :
  (forall e, P e = true -> P' e = true) ->
  (forall e, Q e = true -> P' e = true) ->
  tame [] P Q m -> tame [] P' Q' (try_catch m (fun _ => ret a)).
Proof.
  intros PP QP Hm s. unfold try_catch.
  destruct (Hm s) as (tr1 & T1 & K1 & I1 & R1).
  destruct (m s) as [[x|e] s1]; simpl in *.
  - exists tr1. destruct R1 as [S1 F1].
    repeat split; auto. apply (forallb_weaken P P' _ PP F1).
  - exists tr1. destruct R1 as [S1 F1].
    repeat split; auto.
    + destruct (stages tr1); [reflexivity | discriminate].
    + apply (forallb_weaken Q P' _ QP F1).
Qed.

End TameRules.

Lemma tame_emit P Q ev l :
  stages [ev] = l -> raised [ev] = [] -> tame l P Q (emit ev).
Proof.
  intros Hl Hr s. exists [ev]. simpl in *. rewrite Hl.
  destruct ev; try discriminate; simpl; repeat split; auto.
Qed.

Lemma tame_get P Q : tame [] P Q get.
Proof. intros s. exists []. simpl. rewrite app_nil_r. repeat split; auto. Qed.

Lemma tame_modify P Q (f : State -> State) :
  (forall s, trace (f s) = trace s /\ quotes (f s) = quotes s
             /\ imgs (f s) = imgs s) ->
  tame [] P Q (modify f).
Proof.
  intros Hf s. destruct (Hf s) as (T & K & I).
  exists []. simpl. rewrite app_nil_r, T, K, I. repeat split; auto.
Qed.

(** A step that emits nothing, followed by the rest. *)
Lemma tame_seq {A B} l P Q (m : M A) (f : A -> M B) :
  (forall e, P e = true -> Q e = true) ->
  tame [] P Q m -> (forall a, tame l P Q (f a)) -> tame l P Q (bind m f).
Proof. intros. change l with ([] ++ l). apply tame_bind; auto. Qed.

Lemma no_exn_any e : no_exn e = true -> any_exn e = true.
Proof. reflexivity. Qed.

Ltac tame_leaf :=
  first [ apply tame_ret | apply tame_get | apply tame_lift | apply tame_attr
        | apply tame_reraise
        | apply tame_raise; reflexivity
        | apply tame_modify; intros; repeat split; reflexivity ].

Ltac tame_then :=
  apply tame_seq; [intros; reflexivity | | intros].

(** ** Traces of the ingestors *)

Lemma tame_read_file P p : tame [] P any_exn (read_file p).
Proof.
  unfold read_file. tame_then; [tame_leaf|].
  destruct (files a (Path p)); tame_leaf.
Qed.

Lemma tame_index {A} P Q (l : list A) i :
  Q IndexError = true -> tame [] P Q (index l i).
Proof.
  intros HQ. unfold index.
  destruct (nth_error l i); [apply tame_ret | apply tame_raise, HQ].
Qed.

Lemma tame_draw P Q : tame [] P Q draw.
Proof. intros s. exists []. simpl. rewrite app_nil_r. repeat split; auto. Qed.

Lemma tame_randint P Q a b :
  (forall e, P e = true -> Q e = true) -> tame [] P Q (randint a b).
Proof.
  intros PQ. unfold randint.
  apply tame_seq; [exact PQ | apply tame_draw | intros; apply tame_ret].
Qed.

Lemma tame_choice {A} P (l : list A) : tame [] P any_exn (choice l).
Proof.
  unfold choice. destruct l; [tame_leaf|].
  tame_then; [apply tame_draw | apply tame_index; reflexivity].
Qed.

Section IngestorTraces.
Context (L : Lib).

Lemma tame_IngestorTXT_parse P p : tame [] P any_exn (IngestorTXT_parse L p).
Proof.
  unfold IngestorTXT_parse.
  destruct (negb (can_ingest [py "txt"] p)); [tame_leaf|].
  tame_then; [apply tame_read_file|].
  tame_then; tame_leaf.
Qed.

Lemma tame_IngestorDOCX_parse P p :
  tame [] P any_exn (IngestorDOCX_parse L p).
Proof.
  unfold IngestorDOCX_parse.
  destruct (negb (can_ingest [py "docx"] p)); [tame_leaf|].
  tame_then; [apply tame_read_file|].
  tame_then; tame_leaf.
Qed.

Lemma tame_csv_rows P rows : tame [] P any_exn (csv_rows rows).
Proof.
  induction rows as [|x rows IH]; simpl; [tame_leaf|].
  tame_then.
  - unfold csv_row. destruct (row_body x), (row_author x); tame_leaf.
  - tame_then; [exact IH | tame_leaf].
Qed.

Lemma tame_IngestorCSV_parse P p : tame [] P any_exn (IngestorCSV_parse L p).
Proof.
  unfold IngestorCSV_parse.
  destruct (negb (can_ingest [py "csv"] p)); [tame_leaf|].
  tame_then; [apply tame_read_file|].
  tame_then; [tame_leaf | apply tame_csv_rows].
Qed.

Lemma tame_pdf_line Q acc line :
  tame [] only_IndexError Q (pdf_line L acc line).
Proof.
  unfold pdf_line.
  apply (tame_try_skip no_exn only_IndexError); [discriminate | auto |].
  apply tame_seq; [discriminate | apply tame_index; reflexivity | intros].
  apply tame_seq; [discriminate | apply tame_index; reflexivity | intros].
  apply tame_ret.
Qed.

Lemma tame_pdf_loop lines acc :
  tame [] only_IndexError any_exn (pdf_loop L lines acc).
Proof.
  revert acc; induction lines as [|line lines IH]; intros acc; simpl;
    [tame_leaf|].
  tame_then; [apply tame_pdf_line | apply IH].
Qed.

Lemma tame_run_pdftotext P source :
  tame [] P any_exn (run_pdftotext L source).
Proof.
  unfold run_pdftotext. tame_then; [tame_leaf|].
  destruct (files a (Path source)); tame_leaf.
Qed.

Lemma tame_IngestorPDF_parse source :
  tame [] only_IndexError any_exn (IngestorPDF_parse L source).
Proof.
  unfold IngestorPDF_parse.
  destruct (negb (can_ingest [py "pdf"] source)); [tame_leaf|].
  apply tame_try_raise; [reflexivity|].
  tame_then; [apply tame_run_pdftotext | apply tame_pdf_loop].
Qed.

Lemma tame_ingestor_parse c p :
  tame [] only_IndexError any_exn (ingestor_parse L c p).
Proof.
  destruct c; simpl.
  - apply tame_IngestorCSV_parse.
  - apply tame_IngestorDOCX_parse.
  - apply tame_IngestorTXT_parse.
  - apply tame_IngestorPDF_parse.
Qed.

Lemma tame_Ingestor_parse p :
  tame [Parsed] only_IndexError any_exn (Ingestor_parse L p).
Proof.
  unfold Ingestor_parse. change [Parsed] with ([Parsed] ++ []).
  apply tame_bind; [reflexivity | apply tame_emit; reflexivity | intros _].
  destruct (select_ingestor (input_extension p));
    [apply tame_ingestor_parse | tame_leaf].
Qed.

(** Away from PDF files nothing raised is ever swallowed. *)
Lemma tame_Ingestor_parse_strict p :
  select_ingestor (input_extension p) <> Some IngestorPDF ->
  tame [Parsed] no_exn any_exn (Ingestor_parse L p).
Proof.
  intros Hp. unfold Ingestor_parse. change [Parsed] with ([Parsed] ++ []).
  apply tame_bind; [reflexivity | apply tame_emit; reflexivity | intros _].
  destruct (select_ingestor (input_extension p)) as [[]|];
    [apply tame_IngestorCSV_parse | apply tame_IngestorDOCX_parse
     | apply tame_IngestorTXT_parse | congruence | tame_leaf].
Qed.

Lemma tame_parse_all quote_files acc :
  tame (repeat Parsed (List.length quote_files)) only_IndexError any_exn
       (parse_all L quote_files acc).
Proof.
  revert acc; induction quote_files as [|f rest IH]; intros acc; simpl;
    [tame_leaf|].
  change (Parsed :: repeat Parsed (List.length rest))
    with ([Parsed] ++ repeat Parsed (List.length rest)).
  apply tame_bind; [reflexivity | apply tame_Ingestor_parse | intros; apply IH].
Qed.

Lemma tame_parse_all_main acc :
  tame [Parsed; Parsed; Parsed] no_exn any_exn
       (parse_all L main_quote_files acc).
Proof.
  unfold main_quote_files. cbn [parse_all].
  change [Parsed; Parsed; Parsed] with ([Parsed] ++ [Parsed] ++ [Parsed] ++ []).
  repeat (apply tame_bind;
          [reflexivity
          | apply tame_Ingestor_parse_strict; vm_compute; discriminate
          | intros]).
  tame_leaf.
Qed.

End IngestorTraces.

(** ** Traces of the generator *)

Lemma tame_set_self P Q f : tame [] P Q (set_self f).
Proof. unfold set_self. tame_leaf. Qed.

Lemma tame_self P : tame [] P any_exn self.
Proof. unfold self. tame_then; tame_leaf. Qed.

Lemma tame_Image_resize P im wh : tame [Resized] P any_exn (Image_resize im wh).
Proof.
  unfold Image_resize.
  destruct ((fst wh <? 1) || (snd wh <? 1)); [tame_leaf|].
  change [Resized] with ([Resized] ++ []).
  apply tame_bind; [reflexivity | apply tame_emit; reflexivity | intros].
  tame_leaf.
Qed.

Section GeneratorTraces.
Context (L : Lib).

Lemma tame_load_and_resize_image P p w :
  tame [Resized] P any_exn (load_and_resize_image L p w).
Proof.
  unfold load_and_resize_image.
  apply tame_try_reraise.
  { intros e s.
    destruct (exn_eqb e FileNotFoundError), (is_OSError e); reflexivity. }
  tame_then; [apply tame_read_file|].
  tame_then; [tame_leaf|].
  tame_then; [apply tame_set_self|].
  match goal with
  | |- tame _ _ _ (let (_, _) := ?e in _) => destruct e
  end.
  tame_then; [tame_leaf|].
  change [Resized] with ([Resized] ++ []).
  apply tame_bind; [reflexivity | apply tame_Image_resize | intros].
  apply tame_set_self.
Qed.

Lemma tame_prepare_fonts P q a : tame [] P any_exn (prepare_fonts L q a).
Proof.
  unfold prepare_fonts.
  tame_then; [apply tame_set_self|].
  apply tame_try_reraise; [reflexivity|].
  tame_then; [tame_leaf|].
  tame_then; [apply tame_set_self|].
  tame_then; [tame_leaf|].
  tame_then; [tame_leaf|].
  tame_then; [tame_leaf|].
  apply tame_set_self.
Qed.

Lemma tame_draw_text P o : tame [Drawn] P any_exn (draw_text o).
Proof.
  unfold draw_text.
  tame_then; [apply tame_self|].
  tame_then; [tame_leaf|].
  tame_then; [apply tame_set_self|].
  apply tame_emit; reflexivity.
Qed.

Lemma tame_choose_x P iw tw : tame [] P any_exn (choose_x iw tw).
Proof.
  unfold choose_x. destruct (margin <? Z.max margin (iw - tw));
    [apply tame_randint; reflexivity | tame_leaf].
Qed.

Lemma tame_choose_y P ih fs : tame [] P any_exn (choose_y ih fs).
Proof.
  unfold choose_y.
  destruct (margin + fs <? Z.max (margin + fs) (ih - 2 * fs));
    [apply tame_randint; reflexivity | tame_leaf].
Qed.

Lemma tame_mark_dirs P ps : tame [] P any_exn (mark_dirs ps).
Proof.
  induction ps as [|p ps IH]; simpl; [tame_leaf|].
  tame_then; [|exact IH].
  unfold mark_dir. tame_then; [tame_leaf|].
  destruct (files a p); tame_leaf.
Qed.

Lemma tame_fresh_name P fuel d prefix suffix :
  tame [] P any_exn (fresh_name fuel d prefix suffix).
Proof.
  induction fuel as [|fuel IH]; simpl; [tame_leaf|].
  tame_then; [tame_leaf|].
  tame_then; [tame_leaf|].
  destruct (files a _); [exact IH|].
  destruct (dirs a _); [exact IH | tame_leaf].
Qed.

Lemma tame_NamedTemporaryFile_name P dir prefix suffix :
  tame [] P any_exn (NamedTemporaryFile_name dir prefix suffix).
Proof.
  unfold NamedTemporaryFile_name. tame_then; [tame_leaf|].
  destruct (dir_exists a (Path dir)); [apply tame_fresh_name | tame_leaf].
Qed.

Lemma tame_write_file P Q p b : tame [] P Q (write_file p b).
Proof. unfold write_file. tame_leaf. Qed.

Lemma tame_Image_save P p : tame [Saved] P any_exn (Image_save L p).
Proof.
  unfold Image_save.
  tame_then; [apply tame_self|].
  tame_then; [tame_leaf|].
  tame_then; [tame_leaf|].
  destruct (dir_exists a1 (parent p)); [|tame_leaf].
  tame_then; [tame_leaf|].
  tame_then; [apply tame_write_file|].
  apply tame_emit; reflexivity.
Qed.

Lemma tame_make_meme P p text author w :
  tame composition P any_exn (make_meme L p text author w).
Proof.
  unfold make_meme, composition.
  apply tame_try_reraise; [reflexivity|].
  change [Resized; Drawn; Drawn; Saved]
    with ([Resized] ++ [Drawn] ++ [Drawn] ++ [Saved] ++ []).
  apply tame_bind;
    [reflexivity | apply tame_load_and_resize_image | intros].
  tame_then; [apply tame_prepare_fonts|].
  tame_then; [apply tame_self|].
  tame_then; [tame_leaf|].
  tame_then; [tame_leaf|].
  tame_then; [tame_leaf|].
  tame_then; [tame_leaf|].
  repeat match goal with
         | |- tame _ _ _ (let (_, _) := ?e in _) => destruct e
         end.
  tame_then; [apply tame_choose_x|].
  tame_then; [apply tame_choose_y|].
  apply tame_bind; [reflexivity | apply tame_draw_text | intros].
  tame_then; [apply tame_randint; reflexivity|].
  tame_then; [apply tame_randint; reflexivity|].
  tame_then; [apply tame_randint; reflexivity|].
  apply tame_bind; [reflexivity | apply tame_draw_text | intros].
  tame_then; [apply tame_self|].
  tame_then; [apply tame_mark_dirs|].
  tame_then; [apply tame_NamedTemporaryFile_name|].
  apply tame_bind; [reflexivity | apply tame_Image_save | intros].
  tame_leaf.
Qed.

Lemma tame_generate_meme path body author :
  tame (pipeline body) no_exn any_exn (generate_meme L path body author).
Proof.
  unfold generate_meme, pipeline.
  tame_then.
  { destruct path as [path|].
    - tame_then; [apply tame_choice|].
      tame_then; [apply tame_emit; reflexivity | tame_leaf].
    - destruct (walk_loop _ _) eqn:E; [tame_leaf|].
      tame_then; [apply tame_choice|].
      tame_then; [apply tame_emit; reflexivity | tame_leaf]. }
  apply tame_bind; [reflexivity | | intros].
  { destruct body as [body|].
    - destruct author; tame_leaf.
    - change [Parsed; Parsed; Parsed; Picked]
        with ([Parsed; Parsed; Parsed] ++ [Picked]).
      apply tame_bind; [reflexivity | apply tame_parse_all_main | intros].
      destruct a0; [tame_leaf|].
      tame_then; [apply tame_choice|].
      change [Picked] with ([Picked] ++ []).
      apply tame_bind; [reflexivity | apply tame_emit; reflexivity | intros].
      tame_leaf. }
  tame_then; [tame_leaf|].
  destruct a0. apply tame_make_meme.
Qed.

End GeneratorTraces.

(** ** Order of the pipeline *)



(** ** Propagation of exceptions *)

Lemma tame_propagates {A} l Q (m : M A) : tame l no_exn Q m -> propagates m.
Proof.
  intros H s. destruct (H s) as (tr & T & _ & _ & R). exists tr.
  split; [exact T|]. destruct (fst (m s)); [|exact I].
  destruct R as [_ R]. destruct (raised tr); [reflexivity | discriminate].
Qed.

Lemma tame_recovers_only {A} l P Q (m : M A) :
  tame l P Q m -> recovers_only P m.
Proof.
  intros H s. destruct (H s) as (tr & T & _ & _ & R). exists tr.
  split; [exact T|]. destruct (fst (m s)); [apply R | exact I].
Qed.

(** C5, as stated, fails: [IngestorPDF.parse] catches what the handling of
    a line raises and goes on to the next line.  A PDF whose text is one
    line without ['-'] raises [IndexError] at [elements[1]], and the
    parser returns the empty list. *)
Lemma IngestorPDF_parse_swallows_IndexError :
  ~ (forall (L : Lib) source, propagates (IngestorPDF_parse L source)).
Proof.
  intros H.
  destruct (H Sample.lib (py "quotes.pdf")
              (Sample.state [(py "quotes.pdf", py "no dash here")] [] 0 []
                            (Sample.generator (py "./tmp"))))
    as (tr & T & R).
  vm_compute in T. subst tr. vm_compute in R. discriminate.
Qed.

(** C5, amended: every exception raised during ingestion or meme
    composition, by the program or by a library it calls, reaches the
    caller as an exception, with one exception: [IngestorPDF.parse] skips
    a line whose handling raises [IndexError] (a line without ['-']) and
    goes on; nothing else is caught and dropped there either. *)
Theorem errors_propagate (L : Lib) :
  (forall p, propagates (IngestorTXT_parse L p))
  /\ (forall p, propagates (IngestorDOCX_parse L p))
  /\ (forall p, propagates (IngestorCSV_parse L p))
  /\ (forall p, recovers_only only_IndexError (IngestorPDF_parse L p))
  /\ (forall p, match select_ingestor (input_extension p) with
                | Some IngestorPDF =>
                    recovers_only only_IndexError (Ingestor_parse L p)
                | _ => propagates (Ingestor_parse L p)
                end)
  /\ (forall p w, propagates (load_and_resize_image L p w))
  /\ (forall q a, propagates (prepare_fonts L q a))
  /\ (forall p text name w, propagates (make_meme L p text name w))
  /\ (forall path body author,
         propagates (generate_meme L path body author)).
Proof.
  repeat split; intros.
  - eapply tame_propagates, tame_IngestorTXT_parse.
  - eapply tame_propagates, tame_IngestorDOCX_parse.
  - eapply tame_propagates, tame_IngestorCSV_parse.
  - eapply tame_recovers_only, tame_IngestorPDF_parse.
  - destruct (select_ingestor (input_extension p)) as [[]|] eqn:E;
      try (eapply tame_propagates, tame_Ingestor_parse_strict;
           rewrite E; discriminate).
    eapply tame_recovers_only, tame_Ingestor_parse.
  - eapply tame_propagates, tame_load_and_resize_image.
  - eapply tame_propagates, tame_prepare_fonts.
  - eapply tame_propagates, tame_make_meme.
  - eapply tame_propagates, tame_generate_meme.
Qed.

(** ** Failures reach the caller: three instances *)

(** A missing image file. *)
Lemma make_meme_missing_file (L : Lib) p text name w s :
  files s (Path p) = None ->
  fst (make_meme L p text name w s) = Raise FileNotFoundError.
Proof.
  intros Ef.
  cbv beta iota zeta
      delta [make_meme load_and_resize_image try_catch bind read_file get ret].
  rewrite Ef. reflexivity.
Qed.

(** An image file that cannot be decoded. *)
Lemma make_meme_unreadable_image (L : Lib) p text name w s b e :
  files s (Path p) = Some b -> Image_open L b = Raise e ->
  fst (make_meme L p text name w s) = Raise e.
Proof.
  intros Ef Eo.
  cbv beta iota zeta
      delta [make_meme load_and_resize_image try_catch bind read_file get ret].
  rewrite Ef. cbv beta iota zeta delta [lift ret]. rewrite Eo.
  cbv beta iota zeta delta [lift raise reraise].
  destruct (exn_eqb e FileNotFoundError), (is_OSError e); reflexivity.
Qed.

(** A failing [pdftotext]. *)
Lemma IngestorPDF_parse_subprocess_failure (L : Lib) source s b e :
  can_ingest [py "pdf"] source = true ->
  files s (Path source) = Some b -> pdftotext L b = Raise e ->
  fst (IngestorPDF_parse L source s) = Raise ValueError.
Proof.
  intros Hc Ef Ep. unfold IngestorPDF_parse. rewrite Hc.
  cbv beta iota zeta
      delta [negb try_catch bind run_pdftotext get ret].
  rewrite Ef. rewrite Ep. reflexivity.
Qed.

(** ** Quote records are read-only *)








Lemma choice_Ok {A} (l : list A) s a s' :
  choice l s = (Ok a, s') -> In a l /\ s' = set_tick (S (tick s)) s.
Proof.
  unfold choice. destruct l as [|x l]; [discriminate|].
  intros H. inv_bind H as r s1 E. unfold draw in E. injection E as <- <-.
  unfold index in H.
  destruct (nth_error (x :: l) _) as [y|] eqn:En; [|discriminate].
  apply ret_Ok in H. destruct H as [-> ->].
  split; [eapply nth_error_In; eauto | reflexivity].
Qed.

(** X25: what the compositor gets from [meme_rand] are the two fields of
    one of the stored records, which it keeps as its own attributes. *)
Lemma meme_rand_reads_a_record (L : Lib) s r s' :
  meme_rand L s = (Ok r, s') ->
  exists q,
    In q (quotes s)
    /\ self_quote (meme s') = quote q
    /\ self_author (meme s') = author q
    /\ quotes s' = quotes s.
Proof.
  intros H. unfold meme_rand in H.
  inv_bind H as s0 s1 E0. unfold get in E0. injection E0 as <- <-.
  inv_bind H as img s1 E1. apply choice_Ok in E1. destruct E1 as [_ ->].
  inv_bind H as u1 s1 E2. unfold emit in E2. injection E2 as _ <-.
  inv_bind H as q s1 E3. apply choice_Ok in E3. destruct E3 as [Hq ->].
  inv_bind H as u2 s1 E4. unfold emit in E4. injection E4 as _ <-.
  inv_bind H as path s1 E5. apply make_meme_Ok in E5.
  destruct E5 as (b & ow & oh & h & x & y & fill & token & enc & E5).
  cbv zeta in E5.
  destruct E5 as (_ & _ & _ & _ & _ & _ & Hm & _ & _ & _ & _ & Hk & _).
  apply ret_Ok in H. destruct H as [_ ->].
  exists q. rewrite Hm, Hk. simpl. auto.
Qed.

(** ** The [/create] view *)

Lemma falsy_false v : falsy v = false -> exists c x, v = Some (c :: x).
Proof. destruct v as [[|c x]|]; try discriminate. eauto. Qed.

(** C10: [meme_post] answers 400 when one of the fields [image_url],
    [body] and [author] is missing or empty, and also when the fetch of
    the image answers another status than 200; it renders the result page
    only when the three fields are there, the fetch answered 200 and
    [make_meme] returned the path it shows. *)
Theorem meme_post_status (L : Lib) (form : Form) (s : State) :
  let image_url := form (py "image_url") in
  let body := form (py "body") in
  let name := form (py "author") in
  (falsy image_url || falsy body || falsy name = true ->
   meme_post L form s = (Ok (Plain (py "Missing info.") 400), s))
  /\ (forall status content,
         falsy image_url || falsy body || falsy name = false ->
         requests_get L (or_empty image_url) = Ok (status, content) ->
         status <> 200 ->
         meme_post L form s = (Ok (Plain (py "Error getting the image") 400), s))
  /\ (forall response s',
         meme_post L form s = (Ok response, s') ->
         status_code response <> 400 ->
         falsy image_url = false /\ falsy body = false /\ falsy name = false
         /\ (exists content,
                requests_get L (or_empty image_url) = Ok (200, content))
         /\ (exists img_path path s0 s1,
                make_meme L img_path (or_empty body) (or_empty name) 500 s0
                = (Ok path, s1)
                /\ response = Rendered (py "meme.html") (Some path))).
Proof.
  intros image_url body name. unfold meme_post.
  fold image_url body name.
  split; [intros ->; reflexivity|].
  split.
  - intros status content -> Hget Hst.
    unfold bind. rewrite Hget. simpl.
    destruct (status =? 200) eqn:E; [apply Z.eqb_eq in E; contradiction|].
    reflexivity.
  - intros response s' H Hcode.
    destruct (falsy image_url || falsy body || falsy name) eqn:Ef.
    { apply ret_Ok in H. destruct H as [-> _]. simpl in Hcode. congruence. }
    apply orb_false_iff in Ef. destruct Ef as [Ef E3].
    apply orb_false_iff in Ef. destruct Ef as [E1 E2].
    inv_bind H as resp s1 Hget. apply lift_Ok in Hget.
    destruct Hget as [Hget ->]. destruct resp as [status content].
    simpl in H.
    destruct (status =? 200) eqn:E; simpl in H.
    2:{ apply ret_Ok in H. destruct H as [-> _]. simpl in Hcode. congruence. }
    apply Z.eqb_eq in E. subst status.
    inv_bind H as temp_file s1 Ht.
    inv_bind H as u1 s2 Hw.
    inv_bind H as path s3 Hm.
    inv_bind H as u2 s4 Hw2.
    inv_bind H as u3 s5 Hr.
    apply ret_Ok in H. destruct H as [-> ->].
    repeat split; auto; eauto 10.
Qed.

(** C10 at a form with the three fields filled in and at an empty form. *)
Lemma meme_post_status_witness :
  meme_post Sample.lib (fun _ => None)
            (Sample.state [] [] 0 [] (Sample.generator (py "./static")))
  = (Ok (Plain (py "Missing info.") 400),
     Sample.state [] [] 0 [] (Sample.generator (py "./static"))).
Proof.
  apply (proj1 (meme_post_status Sample.lib (fun _ => None)
                  (Sample.state [] [] 0 []
                                (Sample.generator (py "./static"))))).
  reflexivity.
Defined.

(** ** The parsers that clean *)

Section Cleaning.
Context (L : Lib).

Lemma txt_loop_cleaned lines acc :
  Forall (cleaned L) acc -> Forall (cleaned L) (txt_loop L lines acc).
Proof.
  revert acc; induction lines as [|line lines IH]; intros acc H; simpl;
    [exact H|].
  apply IH. destruct (truthy (clean_data L line)); [|exact H].
  destruct (Nat.ltb 1 (List.length (split dash line))); [|exact H].
  apply Forall_app. split; [exact H|].
  constructor; [|constructor]. unfold cleaned. eauto.
Qed.

Lemma docx_loop_cleaned paragraphs acc :
  Forall (cleaned L) acc -> Forall (cleaned L) (docx_loop L paragraphs acc).
Proof.
  revert acc; induction paragraphs as [|text rest IH]; intros acc H; simpl;
    [exact H|].
  apply IH. destruct (truthy text); [|exact H].
  destruct (Nat.eqb (List.length (split dash text)) 2); [|exact H].
  apply Forall_app. split; [exact H|].
  constructor; [|constructor]. unfold cleaned. eauto.
Qed.

Lemma pdf_line_cleaned acc line s qs s' :
  Forall (cleaned L) acc ->
  pdf_line L acc line s = (Ok qs, s') -> Forall (cleaned L) qs.
Proof.
  intros H. unfold pdf_line, try_catch.
  destruct (bind _ _ s) as [[x|e] s1] eqn:E.
  - intros R. injection R as <- <-.
    inv_bind E as e0 s2 E0. inv_bind E as e1 s3 E1.
    apply ret_Ok in E. destruct E as [-> _].
    apply Forall_app. split; [exact H|].
    constructor; [|constructor]. unfold cleaned. eauto.
  - intros R. apply ret_Ok in R. destruct R as [-> _]. exact H.
Qed.

Lemma pdf_loop_cleaned lines acc s qs s' :
  Forall (cleaned L) acc ->
  pdf_loop L lines acc s = (Ok qs, s') -> Forall (cleaned L) qs.
Proof.
  revert acc s; induction lines as [|line lines IH]; intros acc s H R;
    simpl in R.
  - apply ret_Ok in R. destruct R as [-> _]. exact H.
  - inv_bind R as acc1 s1 E. eapply IH; [|exact R].
    eapply pdf_line_cleaned; eauto.
Qed.

(** The TXT, DOCX and PDF parsers return cleaned records only. *)
Lemma sibling_parsers_clean p s qs s' :
  (IngestorTXT_parse L p s = (Ok qs, s') -> Forall (cleaned L) qs)
  /\ (IngestorDOCX_parse L p s = (Ok qs, s') -> Forall (cleaned L) qs)
  /\ (IngestorPDF_parse L p s = (Ok qs, s') -> Forall (cleaned L) qs).
Proof.
  repeat split; intros R.
  - unfold IngestorTXT_parse in R.
    destruct (negb (can_ingest [py "txt"] p)); [discriminate|].
    inv_bind R as content s1 E1. inv_bind R as lines s2 E2.
    apply ret_Ok in R. destruct R as [-> _].
    apply txt_loop_cleaned. constructor.
  - unfold IngestorDOCX_parse in R.
    destruct (negb (can_ingest [py "docx"] p)); [discriminate|].
    inv_bind R as content s1 E1. inv_bind R as paragraphs s2 E2.
    apply ret_Ok in R. destruct R as [-> _].
    apply docx_loop_cleaned. constructor.
  - unfold IngestorPDF_parse in R.
    destruct (negb (can_ingest [py "pdf"] p)); [discriminate|].
    unfold try_catch in R.
    destruct (bind _ _ s) as [[x|e] s1] eqn:E; [|discriminate].
    injection R as <- <-.
    inv_bind E as text s2 E1.
    eapply pdf_loop_cleaned; [|exact E]. constructor.
Qed.

End Cleaning.


(** ** The CSV ingestor *)

(** C3 fails on the code: [IngestorCSV.parse] puts the cells of a row into
    the record as they are, where the three other parsers pass each field
    through [clean_data].  A CSV file with the row [Bark!,Rex.] yields the
    record ("Bark!", "Rex."); cleaned, the fields would be "Bark" and
    "Rex". *)
Theorem IngestorCSV_parse_does_not_clean :
  let csv := py "body,author" ++ [newline] ++ py "Bark!,Rex." in
  let s := Sample.state [(py "quotes.csv", csv)] [] 0 []
                        (Sample.generator (py "./tmp")) in
  fst (IngestorCSV_parse Sample.lib (py "quotes.csv") s)
  = Ok [mkQuoteModel (py "Bark!") (py "Rex.")]
  /\ clean_data Sample.lib (py "Bark!") = py "Bark"
  /\ clean_data Sample.lib (py "Rex.") = py "Rex"
  /\ fst (IngestorTXT_parse Sample.lib (py "quotes.txt")
            (Sample.state [(py "quotes.txt", py "Bark! - Rex.")] [] 0 []
                          (Sample.generator (py "./tmp"))))
     = Ok [mkQuoteModel (py "Bark") (py "Rex")].
Proof. vm_compute. auto. Qed.

(** ** Where the meme is saved *)

(** C7 fails on the code: the temporary file is created in
    [output_folder.name], the last component of the output directory,
    taken relative to the working directory.  With the output directory
    [out/memes] and a directory [memes] in the working directory the call
    succeeds, returns [out/memes/meme_abc.jpg], and has written the image
    to [memes/meme_abc.jpg]: no file exists at the path it returns. *)
Theorem make_meme_saves_outside_output_dir :
  let s := Sample.state [Sample.photo] [py "memes"] 7 (py "abc")
                        (Sample.generator (py "out/memes")) in
  let r := make_meme Sample.lib (py "dog.jpg") (py "Bark") (py "Rex") 500 s in
  fst r = Ok (py "out/memes/meme_abc.jpg")
  /\ dirs (snd r) (Path (py "out/memes")) = true
  /\ files (snd r) (Path (py "out/memes/meme_abc.jpg")) = None
  /\ files (snd r) (Path (py "memes/meme_abc.jpg")) = Some [500; 300; 2]%N.
Proof. vm_compute. auto. Qed.

(** ** Paths *)

Lemma split_app sep a b :
  split sep (a ++ sep :: b) = split sep a ++ split sep b.
Proof.
  induction a as [|c a IH]; simpl.
  - unfold char_eqb. rewrite N.eqb_refl. reflexivity.
  - destruct (char_eqb c sep); rewrite IH; [reflexivity|].
    destruct (split sep a) as [|p ps] eqn:E;
      [destruct (split_nonempty _ _ E) | reflexivity].
Qed.

Lemma split_no_sep sep t : mem sep t = false -> split sep t = [t].
Proof.
  induction t as [|d t IH]; simpl; [reflexivity|].
  unfold mem in *. simpl. rewrite orb_false_iff. intros [Hd Ht].
  unfold char_eqb in *. rewrite N.eqb_sym in Hd. rewrite Hd, (IH Ht).
  reflexivity.
Qed.

(** No piece of a split contains the separator. *)
Lemma split_pieces sep s :
  Forall (fun p => mem sep p = false) (split sep s).
Proof.
  induction s as [|c s IH]; simpl; [repeat constructor|].
  destruct (char_eqb c sep) eqn:E; [constructor; [reflexivity | exact IH]|].
  destruct (split sep s) as [|p ps]; [repeat constructor|].
  - simpl. unfold char_eqb in *. rewrite N.eqb_sym, E. reflexivity.
  - inversion IH as [|? ? Hp Hps]; subst. constructor; [|exact Hps].
    simpl. unfold char_eqb in *. rewrite N.eqb_sym, E. exact Hp.
Qed.

Lemma Path_components s : Forall component (parts (Path s)).
Proof.
  unfold Path. simpl. induction (split_pieces slash s) as [|p ps Hp _ IH];
    simpl; [constructor|].
  destruct (keep_part p) eqn:K; [constructor; [split; assumption|]|];
    exact IH.
Qed.

Lemma split_join l :
  l <> [] -> Forall component l -> split slash (join [slash] l) = l.
Proof.
  induction l as [|p l IH]; [congruence|]. intros _ H.
  inversion H as [|? ? [_ Hp] Hl]; subst.
  destruct l as [|q l]; [apply split_no_sep, Hp|].
  change (join [slash] (p :: q :: l)) with (p ++ slash :: join [slash] (q :: l)).
  rewrite split_app, (split_no_sep _ _ Hp), IH by (congruence || assumption).
  reflexivity.
Qed.

Lemma filter_components l : Forall component l -> filter keep_part l = l.
Proof.
  induction 1 as [|p l [K _] _ IH]; simpl; [reflexivity|].
  rewrite K, IH. reflexivity.
Qed.

(** [Path(str(f) + "/" + name)] is [f / name]. *)
Lemma Path_child f name :
  Forall component (parts f) -> component name ->
  Path (path_str f ++ slash :: name) = child f name.
Proof.
  intros Hf [Kn Sn]. unfold Path, child.
  rewrite split_app, filter_app, (split_no_sep _ _ Sn).
  simpl (filter keep_part [name]). rewrite Kn.
  destruct f as [anch ps]. simpl in *. unfold path_str. simpl.
  destruct anch.
  - simpl. f_equal. f_equal.
    destruct ps as [|p ps]; [reflexivity|].
    rewrite split_join by (congruence || assumption).
    apply filter_components, Hf.
  - destruct ps as [|p ps]; [reflexivity|].
    rewrite split_join by (congruence || assumption).
    rewrite (filter_components _ Hf).
    inversion Hf as [|? ? [Kp Sp] _]; subst.
    destruct p as [|c p]; [discriminate|].
    assert (Hc : char_eqb c slash = false).
    { unfold mem in Sp. simpl in Sp. apply orb_false_iff in Sp.
      unfold char_eqb in *. rewrite N.eqb_sym. apply Sp. }
    destruct ps; simpl; rewrite Hc; reflexivity.
Qed.

Lemma meme_name_component token :
  mem slash token = false -> component (py "meme_" ++ token ++ py ".jpg").
Proof.
  intros H. split; [reflexivity|].
  unfold mem in *. rewrite !existsb_app, H. reflexivity.
Qed.

(** X20: when the output directory is a single component of the working
    directory (as ['./output'], ['./static'] and ['./tmp'] are), so that
    its name taken as a path is the directory itself, a successful
    [make_meme] has written the encoded image, resized and with its two
    overlays, to the very path it returns. *)
Lemma make_meme_file_exists (L : Lib) p text name w s out s' :
  Path (path_name (Path (output_dir (meme s)))) = Path (output_dir (meme s)) ->
  (forall n, mem slash (tmp_names s n) = false) ->
  make_meme L p text name w s = (Ok out, s') ->
  exists h x y fill encoded,
    let im := mkImage (clamp_width w, h)
                      [quote_overlay x y text; author_overlay x y name fill] in
    image (meme s') = Some im
    /\ jpeg_encode L im = Ok encoded
    /\ files s' (Path out) = Some encoded.
Proof.
  intros Hdir Htok H. apply make_meme_Ok in H.
  destruct H as (b & ow & oh & h & x & y & fill & token & enc & H).
  cbv zeta in H.
  destruct H as (_ & _ & _ & _ & _ & _ & Hm & _ & He & Hf & Ho & _ & _ & k & Hk).
  exists h, x, y, fill, enc. cbv zeta.
  split; [rewrite Hm; reflexivity|]. split; [exact He|].
  rewrite Hf, Ho, Hdir.
  change (py "/" ++ py "meme_" ++ token ++ py ".jpg")
    with (slash :: (py "meme_" ++ token ++ py ".jpg")).
  rewrite Path_child;
    [| apply Path_components
     | apply meme_name_component; rewrite Hk; apply Htok].
  rewrite path_eqb_refl. reflexivity.
Qed.

(** The three output directories the repository configures. *)
Lemma configured_output_dirs :
  Path (path_name (Path (py "./output"))) = Path (py "./output")
  /\ Path (path_name (Path (py "./static"))) = Path (py "./static")
  /\ Path (path_name (Path (py "./tmp"))) = Path (py "./tmp").
Proof. repeat split. Qed.

(** ** Rounding in binary64 *)

Lemma digits2_pos_bounds p :
  2 ^ (Zpos (digits2_pos p) - 1) <= Zpos p < 2 ^ Zpos (digits2_pos p).
Proof.
  induction p as [p IH|p IH|]; simpl digits2_pos.
  - rewrite Pos2Z.inj_succ.
    replace (Z.succ (Zpos (digits2_pos p)) - 1)
      with (Z.succ (Zpos (digits2_pos p) - 1)) by lia.
    rewrite !Z.pow_succ_r by lia. lia.
  - rewrite Pos2Z.inj_succ.
    replace (Z.succ (Zpos (digits2_pos p)) - 1)
      with (Z.succ (Zpos (digits2_pos p) - 1)) by lia.
    rewrite !Z.pow_succ_r by lia. lia.
  - simpl. lia.
Qed.

(** The number of binary digits is fixed by the power-of-two bracket. *)
Lemma digits2_pos_unique p d :
  2 ^ (d - 1) <= Zpos p < 2 ^ d -> Zpos (digits2_pos p) = d.
Proof.
  intros [Hl Hu]. pose proof (digits2_pos_bounds p) as [Bl Bu].
  assert (0 < d).
  { destruct (Z.leb_spec d 0); [|lia].
    assert (2 ^ d <= 2 ^ 0) by (destruct (Z.ltb_spec d 0);
      [rewrite Z.pow_neg_r by lia; simpl; lia
      | apply Z.pow_le_mono_r; lia]).
    simpl in *. lia. }
  destruct (Z.lt_trichotomy (Zpos (digits2_pos p)) d) as [C|[C|C]]; [|exact C|].
  - assert (2 ^ Zpos (digits2_pos p) <= 2 ^ (d - 1))
      by (apply Z.pow_le_mono_r; lia). lia.
  - assert (2 ^ d <= 2 ^ (Zpos (digits2_pos p) - 1))
      by (apply Z.pow_le_mono_r; lia). lia.
Qed.

Lemma shr_1_m mrs : 0 <= shr_m mrs -> shr_m (shr_1 mrs) = shr_m mrs / 2.
Proof.
  destruct mrs as [m r s]. simpl. intros Hm.
  destruct m as [|[p|p|]|p]; simpl; try lia; try reflexivity.
  - apply Z.div_unique with 1; lia.
  - apply Z.div_unique with 0; lia.
Qed.

Lemma iter_pos_shr_1 n mrs :
  0 <= shr_m mrs ->
  shr_m (iter_pos shr_1 n mrs) = shr_m mrs / 2 ^ Zpos n.
Proof.
  revert mrs. induction n as [n IH|n IH|]; intros mrs Hm; simpl iter_pos.
  - assert (H1 : 0 <= shr_m (shr_1 mrs))
      by (rewrite shr_1_m by exact Hm; apply Z.div_pos; lia).
    assert (H2 : 0 <= shr_m (iter_pos shr_1 n (shr_1 mrs)))
      by (rewrite IH by exact H1; apply Z.div_pos; lia).
    rewrite IH, IH, shr_1_m by assumption.
    rewrite !Z.div_div by lia.
    f_equal.
    assert (E : 2 ^ Zpos n~1 = 2 * 2 ^ Zpos n * 2 ^ Zpos n).
    { replace (Zpos n~1) with (1 + Zpos n + Zpos n) by lia.
      rewrite !Z.pow_add_r by lia. reflexivity. }
    rewrite E. lia.
  - assert (H2 : 0 <= shr_m (iter_pos shr_1 n mrs))
      by (rewrite IH by exact Hm; apply Z.div_pos; lia).
    rewrite IH, IH by assumption.
    rewrite !Z.div_div by lia.
    f_equal.
    assert (E : 2 ^ Zpos n~0 = 2 ^ Zpos n * 2 ^ Zpos n).
    { replace (Zpos n~0) with (Zpos n + Zpos n) by lia.
      rewrite !Z.pow_add_r by lia. reflexivity. }
    rewrite E. lia.
  - rewrite shr_1_m by exact Hm. reflexivity.
Qed.

Lemma Zdigits2_unique m d :
  0 < m -> 2 ^ (d - 1) <= m < 2 ^ d -> Zdigits2 m = d.
Proof.
  destruct m as [|p|p]; try lia. intros _. apply digits2_pos_unique.
Qed.

Lemma shr_spec mrs e n :
  0 <= n -> 0 <= shr_m mrs ->
  snd (shr mrs e n) = e + n
  /\ shr_m (fst (shr mrs e n)) = shr_m mrs / 2 ^ n
  /\ (n = 0 -> fst (shr mrs e n) = mrs).
Proof.
  intros Hn Hm. destruct n as [|p|p]; try lia; simpl.
  - rewrite Z.add_0_r, Z.div_1_r. auto.
  - split; [reflexivity|]. split; [apply iter_pos_shr_1, Hm | discriminate].
Qed.

Lemma shr_record_of_loc_m m l : shr_m (shr_record_of_loc m l) = m.
Proof. destruct l as [|[]]; reflexivity. Qed.

Lemma loc_of_shr_record_of_loc m l :
  loc_of_shr_record (shr_record_of_loc m l) = l.
Proof. destruct l as [|[]]; reflexivity. Qed.

(** [shr_fexp] on a value of [d >= 53] digits in the normal range drops
    the [d - 53] low bits. *)
Lemma shr_fexp_spec m e l d :
  0 < m -> 2 ^ (d - 1) <= m < 2 ^ d -> 53 <= d -> -1074 <= e + d - 53 ->
  snd (shr_fexp prec emax m e l) = e + (d - 53)
  /\ shr_m (fst (shr_fexp prec emax m e l)) = m / 2 ^ (d - 53)
  /\ (d = 53 ->
      loc_of_shr_record (fst (shr_fexp prec emax m e l)) = l).
Proof.
  intros Hm Hd H53 He. unfold shr_fexp.
  rewrite (Zdigits2_unique m d Hm Hd).
  assert (E : fexp prec emax (d + e) - e = d - 53).
  { unfold fexp, emin, prec, emax. lia. }
  rewrite E.
  destruct (shr_spec (shr_record_of_loc m l) e (d - 53)) as (S1 & S2 & S3);
    [lia | rewrite shr_record_of_loc_m; lia |].
  rewrite shr_record_of_loc_m in S2.
  repeat split; auto.
  intros ->. rewrite S3 by reflexivity. apply loc_of_shr_record_of_loc.
Qed.

Lemma round_nearest_even_cases m l :
  round_nearest_even m l = m \/ round_nearest_even m l = m + 1.
Proof.
  destruct l as [|[]]; simpl; auto. destruct (Z.even m); auto.
Qed.

(** Rounding a positive value of at least 53 digits in the normal range:
    the result has a 53-bit mantissa [m] and sits [t] binary places above
    the input, within one unit in the last place of it. *)
Lemma binary_round_aux_normal sx (mx : positive) ex lx d :
  2 ^ (d - 1) <= Zpos mx < 2 ^ d ->
  53 <= d -> -1074 <= ex + d - 53 -> ex + d - 52 <= 971 ->
  exists m t,
    binary_round_aux prec emax sx (Zpos mx) ex lx = S754_finite sx m (ex + t)
    /\ (t = d - 53 \/ t = d - 52)
    /\ 2 ^ 52 <= Zpos m < 2 ^ 53
    /\ (Zpos m - 1) * 2 ^ t <= Zpos mx
    /\ Zpos mx + 1 <= (Zpos m + 1) * 2 ^ t.
Proof.
  intros Hd H53 Hlo Hhi. unfold binary_round_aux.
  destruct (shr_fexp_spec (Zpos mx) ex lx d) as (E1 & M1 & _); try lia.
  destruct (shr_fexp prec emax (Zpos mx) ex lx) as [mrs1 e1].
  cbn [fst snd] in E1, M1. subst e1.
  set (n := d - 53) in *.
  assert (Hn : 0 <= n) by (unfold n; lia).
  assert (P2 : 0 < 2 ^ n) by (apply Z.pow_pos_nonneg; lia).
  (* the truncated mantissa *)
  assert (Hq : 2 ^ 52 <= shr_m mrs1 < 2 ^ 53
               /\ shr_m mrs1 * 2 ^ n <= Zpos mx
               /\ Zpos mx + 1 <= (shr_m mrs1 + 1) * 2 ^ n).
  { rewrite M1.
    assert (D1 : 2 ^ (d - 1) = 2 ^ 52 * 2 ^ n)
      by (rewrite <- Z.pow_add_r by lia; f_equal; unfold n; lia).
    assert (D2 : 2 ^ d = 2 ^ 53 * 2 ^ n)
      by (rewrite <- Z.pow_add_r by lia; f_equal; unfold n; lia).
    pose proof (Z.mul_div_le (Zpos mx) (2 ^ n) P2).
    pose proof (Z.mul_succ_div_gt (Zpos mx) (2 ^ n) P2).
    repeat split.
    - apply Z.div_le_lower_bound; lia.
    - apply Z.div_lt_upper_bound; lia.
    - lia.
    - lia. }
  destruct Hq as (Hq & Hl & Hu).
  set (q := shr_m mrs1) in *.
  set (m1 := round_nearest_even q (loc_of_shr_record mrs1)).
  assert (Hm1 : m1 = q \/ m1 = q + 1) by apply round_nearest_even_cases.
  destruct (Z.eq_dec m1 (2 ^ 53)) as [C|C].
  - (* the mantissa carried over to 2^53 *)
    destruct (shr_fexp_spec m1 (ex + n) loc_Exact 54) as (E2 & M2 & _);
      try (rewrite C; simpl; lia); try lia.
    destruct (shr_fexp prec emax m1 (ex + n) loc_Exact) as [mrs2 e2].
    cbn [fst snd] in E2, M2. subst e2. rewrite M2, C.
    change (2 ^ 53 / 2 ^ (54 - 53)) with (Zpos 4503599627370496).
    assert (L : (ex + n + (54 - 53) <=? emax - prec) = true)
      by (apply Z.leb_le; unfold emax, prec, n; lia).
    rewrite L. exists 4503599627370496%positive, (n + 1).
    replace (ex + n + (54 - 53)) with (ex + (n + 1)) by lia.
    split; [reflexivity|]. split; [right; unfold n; lia|].
    rewrite Z.pow_add_r by lia.
    assert (q = 2 ^ 53 - 1) by lia.
    change (2 ^ 1) with 2.
    repeat split; try lia; nia.
  - destruct (shr_fexp_spec m1 (ex + n) loc_Exact 53) as (E2 & M2 & _);
      try lia.
    destruct (shr_fexp prec emax m1 (ex + n) loc_Exact) as [mrs2 e2].
    cbn [fst snd] in E2, M2. subst e2. rewrite M2.
    change (2 ^ (53 - 53)) with 1. rewrite Z.div_1_r.
    destruct m1 as [|m|m] eqn:Em; try lia.
    assert (L : (ex + n + (53 - 53) <=? emax - prec) = true)
      by (apply Z.leb_le; unfold emax, prec, n; lia).
    rewrite L. exists m, n.
    replace (ex + n + (53 - 53)) with (ex + n) by lia.
    split; [reflexivity|]. split; [left; reflexivity|].
    repeat split; try lia; nia.
Qed.

(** The quotient of two positive [int]s below 2^31: a 53-bit mantissa [m]
    at [k] binary places, within one unit in the last place of the exact
    quotient. *)
Lemma truediv_spec (a b : positive) :
  Zpos a < 2 ^ 31 -> Zpos b < 2 ^ 31 ->
  exists m k,
    truediv (Zpos a) (Zpos b) = Ok (S754_finite false m (- k))
    /\ 0 < k <= 83
    /\ 2 ^ 52 <= Zpos m < 2 ^ 53
    /\ (Zpos m - 1) * Zpos b <= Zpos a * 2 ^ k
    /\ Zpos a * 2 ^ k < (Zpos m + 1) * Zpos b.
Proof.
  intros Ha Hb. unfold truediv. simpl (Zpos b =? 0).
  cbn [exact_of_int SFdiv xorb]. unfold SFdiv_core_binary.
  cbn [Zdigits2].
  pose proof (digits2_pos_bounds a) as [La Ua].
  pose proof (digits2_pos_bounds b) as [Lb Ub].
  set (d1 := Zpos (digits2_pos a)) in *.
  set (d2 := Zpos (digits2_pos b)) in *.
  assert (D1 : 1 <= d1 <= 31).
  { split; [unfold d1; lia|].
    destruct (Z.leb_spec d1 31); [assumption|].
    assert (2 ^ 31 <= 2 ^ (d1 - 1)) by (apply Z.pow_le_mono_r; lia). lia. }
  assert (D2 : 1 <= d2 <= 31).
  { split; [unfold d2; lia|].
    destruct (Z.leb_spec d2 31); [assumption|].
    assert (2 ^ 31 <= 2 ^ (d2 - 1)) by (apply Z.pow_le_mono_r; lia). lia. }
  assert (E' : Z.min (fexp prec emax (d1 + 0 - (d2 + 0))) (0 - 0)
               = d1 - d2 - 53)
    by (unfold fexp, emin, prec, emax; lia).
  rewrite E'.
  set (s := 53 + d2 - d1).
  replace (0 - 0 - (d1 - d2 - 53)) with s by (unfold s; lia).
  assert (Hs : 23 <= s <= 83) by (unfold s; lia).
  destruct s as [|ps|ps] eqn:Es; try lia. rewrite <- Es in *.
  rewrite Z.shiftl_mul_pow2 by lia.
  pose proof (Z_div_mod (Zpos a * 2 ^ s) (Zpos b) ltac:(lia)) as DM.
  destruct (Z.div_eucl (Zpos a * 2 ^ s) (Zpos b)) as [q r].
  destruct DM as [DM Hr].
  (* the quotient has 53 or 54 digits *)
  assert (P1 : 2 ^ (d1 - 1) * 2 ^ s = 2 ^ 52 * 2 ^ d2)
    by (rewrite <- !Z.pow_add_r by lia; f_equal; unfold s; lia).
  assert (P2 : 2 ^ d1 * 2 ^ s = 2 ^ 54 * 2 ^ (d2 - 1))
    by (rewrite <- !Z.pow_add_r by lia; f_equal; unfold s; lia).
  assert (S0 : 0 < 2 ^ s) by (apply Z.pow_pos_nonneg; lia).
  assert (Hq : 2 ^ 52 <= q < 2 ^ 54).
  { assert (A1 : 2 ^ 52 * Zpos b < (q + 1) * Zpos b).
    { apply Z.lt_le_trans with (2 ^ 52 * 2 ^ d2);
        [apply Z.mul_lt_mono_pos_l; lia|].
      rewrite <- P1.
      apply Z.le_trans with (Zpos a * 2 ^ s);
        [apply Z.mul_le_mono_nonneg_r; lia | lia]. }
    assert (A2 : q * Zpos b < 2 ^ 54 * Zpos b).
    { apply Z.le_lt_trans with (Zpos a * 2 ^ s); [lia|].
      apply Z.lt_le_trans with (2 ^ d1 * 2 ^ s);
        [apply Z.mul_lt_mono_pos_r; lia|].
      rewrite P2. apply Z.mul_le_mono_nonneg_l; lia. }
    apply Z.mul_lt_mono_pos_r in A1; [|lia].
    apply Z.mul_lt_mono_pos_r in A2; [|lia].
    lia. }
  assert (Hqp : 0 < q) by lia.
  destruct q as [|q|q]; try lia.
  set (d := if Zpos q <? 2 ^ 53 then 53 else 54).
  assert (Hd : 2 ^ (d - 1) <= Zpos q < 2 ^ d /\ (d = 53 \/ d = 54)).
  { unfold d. destruct (Z.ltb_spec (Zpos q) (2 ^ 53)); simpl; lia. }
  destruct Hd as [Hd Hd'].
  destruct (binary_round_aux_normal false q (d1 - d2 - 53)
              (new_location (Zpos b) r) d) as (m & t & R & Ht & Hm & Hl & Hu);
    try lia.
  rewrite R. exists m, (s - t).
  assert (T0 : 0 <= t <= 2) by lia.
  assert (T1 : 0 < 2 ^ t) by (apply Z.pow_pos_nonneg; lia).
  assert (K : 2 ^ s = 2 ^ (s - t) * 2 ^ t)
    by (rewrite <- Z.pow_add_r by lia; f_equal; lia).
  split; [do 2 f_equal; unfold s; lia|].
  split; [lia|]. split; [exact Hm|].
  remember (2 ^ (s - t)) as X. remember (2 ^ t) as T.
  remember (2 ^ s) as S2. clear HeqX HeqT HeqS2.
  split.
  - apply (Z.mul_le_mono_pos_r _ _ T); [lia|].
    apply Z.le_trans with (Zpos q * Zpos b).
    + replace ((Zpos m - 1) * Zpos b * T)
        with ((Zpos m - 1) * T * Zpos b) by ring.
      apply Z.mul_le_mono_nonneg_r; lia.
    + replace (Zpos a * X * T) with (Zpos a * S2) by (subst S2; ring). lia.
  - apply (Z.mul_lt_mono_pos_r T); [lia|].
    apply Z.lt_le_trans with ((Zpos q + 1) * Zpos b).
    + replace (Zpos a * X * T) with (Zpos a * S2) by (subst S2; ring). lia.
    + replace ((Zpos m + 1) * Zpos b * T)
        with ((Zpos m + 1) * T * Zpos b) by ring.
      apply Z.mul_le_mono_nonneg_r; lia.
Qed.

(** The arithmetic behind the height: a quotient [mq / X] one unit off
    [a / b] at most, a product [mp / Z] one unit off [w * mq / X] at most,
    and the truncation [h] of the product bracket the exact [w * a / b]. *)
Lemma height_bracket w a b mq mp X Y Zp h :
  1 <= w <= 500 -> 1 <= a < 2 ^ 31 -> 1 <= b < 2 ^ 31 ->
  2 ^ 52 <= mq < 2 ^ 53 -> 2 ^ 52 <= mp < 2 ^ 53 ->
  0 < Y -> 0 < Zp -> X = Y * Zp ->
  (mq - 1) * b <= a * X -> a * X < (mq + 1) * b ->
  (mp - 1) * Y <= w * mq -> w * mq < (mp + 1) * Y ->
  h = mp / Zp ->
  h * b <= w * a /\ w * a <= (h + 1) * b.
Proof.
  intros Hw Ha Hb Hmq Hmp HY HZ HX A1l A1r A2l A2r Hh.
  assert (F1 : h * Zp <= mp < (h + 1) * Zp).
  { subst h. split.
    - rewrite Z.mul_comm. apply Z.mul_div_le; lia.
    - rewrite Z.mul_comm. replace (mp / Zp + 1) with (Z.succ (mp / Zp)) by lia.
      apply Z.mul_succ_div_gt; lia. }
  assert (X0 : 0 < X) by (subst X; apply Z.mul_pos_pos; lia).
  assert (H0 : 0 <= h) by (subst h; apply Z.div_pos; lia).
  (* Y is at most 2 w *)
  assert (F2 : Y <= 2 * w).
  { assert ((2 ^ 52 - 1) * Y <= (mp - 1) * Y)
      by (apply Z.mul_le_mono_nonneg_r; lia).
    assert (w * mq <= w * (2 ^ 53 - 1))
      by (apply Z.mul_le_mono_nonneg_l; lia).
    lia. }
  (* X is far above w b *)
  assert (F3 : 3 * (w * b) < X).
  { assert ((2 ^ 52 - 1) * b <= (mq - 1) * b)
      by (apply Z.mul_le_mono_nonneg_r; lia).
    assert (a * X <= (2 ^ 31 - 1) * X)
      by (apply Z.mul_le_mono_nonneg_r; lia).
    assert (w * b <= 500 * b) by (apply Z.mul_le_mono_nonneg_r; lia).
    lia. }
  assert (Wb : 0 < w * b) by (apply Z.mul_pos_pos; lia).
  split.
  - destruct (Z.le_gt_cases (h * b) (w * a)) as [C|C]; [exact C|exfalso].
    assert (S1 : (w * a + 1) * X <= h * b * X)
      by (apply Z.mul_le_mono_nonneg_r; lia).
    assert (S2 : h * b * X <= mp * Y * b).
    { subst X. replace (h * b * (Y * Zp)) with (h * Zp * (Y * b)) by ring.
      replace (mp * Y * b) with (mp * (Y * b)) by ring.
      apply Z.mul_le_mono_nonneg_r; [|lia].
      apply Z.mul_nonneg_nonneg; lia. }
    assert (S3 : mp * Y * b <= (w * mq + Y) * b)
      by (apply Z.mul_le_mono_nonneg_r; lia).
    assert (S4 : w * (mq * b) <= w * (a * X + b))
      by (apply Z.mul_le_mono_nonneg_l; lia).
    assert (S5 : Y * b <= 2 * w * b)
      by (apply Z.mul_le_mono_nonneg_r; lia).
    replace ((w * a + 1) * X) with (w * (a * X) + X) in S1 by ring.
    replace ((w * mq + Y) * b) with (w * (mq * b) + Y * b) in S3 by ring.
    replace (w * (a * X + b)) with (w * (a * X) + w * b) in S4 by ring.
    replace (2 * w * b) with (2 * (w * b)) in S5 by ring.
    lia.
  - destruct (Z.le_gt_cases (w * a) ((h + 1) * b)) as [C|C]; [exact C|exfalso].
    assert (S1 : ((h + 1) * b + 1) * X <= w * a * X)
      by (apply Z.mul_le_mono_nonneg_r; lia).
    assert (S2 : w * (a * X) < w * ((mq + 1) * b))
      by (apply Z.mul_lt_mono_pos_l; lia).
    assert (S3 : w * mq * b < (mp + 1) * Y * b)
      by (apply Z.mul_lt_mono_pos_r; lia).
    assert (S4 : (mp + 1) * (Y * b) <= (h + 1) * Zp * (Y * b)).
    { apply Z.mul_le_mono_nonneg_r; [|lia].
      apply Z.mul_nonneg_nonneg; lia. }
    replace (((h + 1) * b + 1) * X) with ((h + 1) * b * X + X) in S1 by ring.
    replace (w * a * X) with (w * (a * X)) in S1 by ring.
    replace (w * ((mq + 1) * b)) with (w * mq * b + w * b) in S2 by ring.
    replace ((mp + 1) * Y * b) with ((mp + 1) * (Y * b)) in S3 by ring.
    replace ((h + 1) * Zp * (Y * b)) with ((h + 1) * b * X) in S4
      by (subst X; ring).
    lia.
Qed.

(** Every width the generator uses is a binary64 value. *)
Lemma widths_exact : forallb exact_width (map Z.of_nat (seq 1 500)) = true.
Proof. vm_compute. reflexivity. Qed.

Lemma float_of_int_width w :
  1 <= w <= 500 ->
  exists m k,
    float_of_int w = Ok (S754_finite false m (- k))
    /\ 0 < k <= 52
    /\ Zpos m = w * 2 ^ k
    /\ 2 ^ 52 <= Zpos m < 2 ^ 53.
Proof.
  intros Hw.
  assert (I : In w (map Z.of_nat (seq 1 500))).
  { apply in_map_iff. exists (Z.to_nat w). split; [lia|].
    apply in_seq. lia. }
  pose proof (proj1 (forallb_forall _ _) widths_exact w I) as E.
  unfold exact_width in E.
  destruct (float_of_int w) as [[| | |[] m e]|]; try discriminate.
  repeat (apply andb_true_iff in E; destruct E as [E ?]).
  exists m, (- e). rewrite Z.opp_involutive.
  split; [reflexivity|]. lia.
Qed.

(** The height [load_and_resize_image] computes brackets the exact
    quotient from below: it is its floor, or one less when the quotient
    is an integer. *)
Lemma new_height_of_spec w (ow oh : positive) :
  1 <= w <= 500 -> Zpos ow < 2 ^ 31 -> Zpos oh < 2 ^ 31 ->
  exists h,
    new_height_of w (Zpos ow) (Zpos oh) = Ok h
    /\ h * Zpos ow <= w * Zpos oh <= (h + 1) * Zpos ow.
Proof.
  intros Hw Ho Hh. unfold new_height_of.
  destruct (truediv_spec oh ow Hh Ho) as (mq & kq & -> & Hkq & Hmq & A1l & A1r).
  unfold int_mul_float.
  destruct (float_of_int_width w Hw) as (mw & kw & -> & Hkw & Emw & Hmw).
  cbn [SFmul xorb].
  assert (Pq : 0 < 2 ^ kq) by (apply Z.pow_pos_nonneg; lia).
  assert (Pw : 0 < 2 ^ kw) by (apply Z.pow_pos_nonneg; lia).
  assert (HP : 2 ^ 104 <= Zpos (mw * mq) < 2 ^ 106).
  { rewrite Pos2Z.inj_mul.
    change (2 ^ 104) with (2 ^ 52 * 2 ^ 52).
    change (2 ^ 106) with (2 ^ 53 * 2 ^ 53).
    split; [apply Z.mul_le_mono_nonneg; lia | apply Z.mul_lt_mono_nonneg; lia]. }
  set (d := if Zpos (mw * mq) <? 2 ^ 105 then 105 else 106).
  assert (Hd : 2 ^ (d - 1) <= Zpos (mw * mq) < 2 ^ d /\ (d = 105 \/ d = 106)).
  { unfold d. destruct (Z.ltb_spec (Zpos (mw * mq)) (2 ^ 105)); simpl; lia. }
  destruct Hd as [Hd Hd'].
  destruct (binary_round_aux_normal false (mw * mq) (- kw + - kq) loc_Exact d)
    as (mp & t & -> & Ht & Hmp & Bl & Bu); try lia.
  cbn [int_of_float cond_Zopp].
  rewrite Pos2Z.inj_mul in Bl, Bu.
  assert (T0 : 52 <= t <= 54) by lia.
  assert (Pt : 0 < 2 ^ t) by (apply Z.pow_pos_nonneg; lia).
  set (sg := t - kw).
  assert (Hsg : 0 <= sg) by (unfold sg; lia).
  assert (Psg : 0 < 2 ^ sg) by (apply Z.pow_pos_nonneg; lia).
  assert (Kt : 2 ^ t = 2 ^ sg * 2 ^ kw)
    by (rewrite <- Z.pow_add_r by lia; f_equal; unfold sg; lia).
  (* the product against w * mq *)
  assert (A2l : (Zpos mp - 1) * 2 ^ sg <= w * Zpos mq).
  { apply (Z.mul_le_mono_pos_r _ _ (2 ^ kw)); [lia|].
    replace ((Zpos mp - 1) * 2 ^ sg * 2 ^ kw) with ((Zpos mp - 1) * 2 ^ t)
      by (rewrite Kt; ring).
    replace (w * Zpos mq * 2 ^ kw) with (Zpos mw * Zpos mq)
      by (rewrite Emw; ring).
    exact Bl. }
  assert (A2r : w * Zpos mq < (Zpos mp + 1) * 2 ^ sg).
  { apply (Z.mul_lt_mono_pos_r (2 ^ kw)); [lia|].
    replace ((Zpos mp + 1) * 2 ^ sg * 2 ^ kw) with ((Zpos mp + 1) * 2 ^ t)
      by (rewrite Kt; ring).
    replace (w * Zpos mq * 2 ^ kw) with (Zpos mw * Zpos mq)
      by (rewrite Emw; ring).
    lia. }
  (* the product is below 2^52, so its exponent is negative *)
  assert (Hkp : sg < kq).
  { destruct (Z.lt_ge_cases sg kq) as [C|C]; [exact C|exfalso].
    assert (Q1 : 2 ^ kq <= 2 ^ sg) by (apply Z.pow_le_mono_r; lia).
    assert (Q2 : (2 ^ 52 - 1) * 2 ^ kq <= (Zpos mp - 1) * 2 ^ sg)
      by (apply Z.mul_le_mono_nonneg; lia).
    assert (Q3 : Zpos mq - 1 <= (Zpos mq - 1) * Zpos ow)
      by (rewrite <- (Z.mul_1_r (Zpos mq - 1)) at 1;
          apply Z.mul_le_mono_nonneg_l; lia).
    assert (Q4 : Zpos oh * 2 ^ kq <= (2 ^ 31 - 1) * 2 ^ kq)
      by (apply Z.mul_le_mono_nonneg_r; lia).
    assert (Q5 : w * Zpos mq <= 500 * Zpos mq)
      by (apply Z.mul_le_mono_nonneg_r; lia).
    lia. }
  exists (Zpos mp / 2 ^ (kq - sg)).
  split.
  - f_equal. rewrite Z.shiftl_div_pow2 by (unfold sg in *; lia).
    do 2 f_equal. unfold sg. lia.
  - apply (height_bracket w (Zpos oh) (Zpos ow) (Zpos mq) (Zpos mp)
             (2 ^ kq) (2 ^ sg) (2 ^ (kq - sg))); try lia;
      try reflexivity;
      first [ apply Z.pow_pos_nonneg; lia
            | rewrite <- Z.pow_add_r by lia; f_equal; lia ].
Qed.

(** ** The resized image *)

Lemma clamp_width_spec w :
  ((500 <? w) || (w <? 1) = true /\ clamp_width w = 500)
  \/ ((500 <? w) || (w <? 1) = false /\ clamp_width w = w).
Proof.
  unfold clamp_width. destruct ((500 <? w) || (w <? 1)); auto.
Qed.

(** C8, as stated, fails: the new height is computed in binary
    floating point, as [int(width * (original_height / original_width))],
    and the rounded product can fall just below an integer that the exact
    quotient reaches.  A 5 x 23 image resized to width 100 gets height 459,
    where floor(100 * 23 / 5) = 460. *)
Lemma new_height_below_floor :
  let s := Sample.state [(py "tall.jpg", [5; 23]%N)] [] 0 []
                        (Sample.generator (py "./tmp")) in
  let r := load_and_resize_image Sample.lib (py "tall.jpg") 100 s in
  fst r = Ok tt
  /\ option_map size (image (meme (snd r))) = Some (100, 459)
  /\ new_height_of (clamp_width 100) 5 23 = Ok 459
  /\ clamp_width 100 * 23 / 5 = 460.
Proof. vm_compute. auto. Qed.

(** [load_and_resize_image] once the file, its size and the new height
    are known. *)
Lemma load_and_resize_image_run (L : Lib) p w s b ow oh h :
  files s (Path p) = Some b -> Image_open L b = Ok (ow, oh) ->
  new_height_of (clamp_width w) ow oh = Ok h ->
  load_and_resize_image L p w s =
  if h <? 1 then
    (Raise ValueError,
     set_trace (trace s ++ [EvRaise ValueError])
       (set_meme (set_image (mkImage (ow, oh) []) (meme s)) s))
  else
    (Ok tt,
     set_meme (set_image (mkImage (clamp_width w, h) []) (meme s))
       (set_trace (trace s ++ [EvResize (clamp_width w, h)]) s)).
Proof.
  intros Ef Eo Eh.
  assert (Ew : (clamp_width w <? 1) = false).
  { apply Z.ltb_ge. pose proof (clamp_width_pos w). lia. }
  cbv beta iota zeta
      delta [load_and_resize_image try_catch bind read_file get ret].
  rewrite Ef.
  cbv beta iota zeta delta [lift ret]. rewrite Eo.
  cbv beta iota zeta delta [lift ret set_self modify bind]. rewrite Eh.
  cbv beta iota zeta delta [lift ret Image_resize fst snd bind emit].
  rewrite Ew. cbn [orb].
  destruct (h <? 1); reflexivity.
Qed.

(** C8, amended: the image is resized to width 500 when the requested
    width is above 500 or below 1, and to the requested width otherwise.
    The new height is the truncated double-precision product of that width
    and the quotient of the original sides; for sides below 2^31 it is
    floor(new_width * original_height / original_width), except that it
    may be one less when original_width divides new_width *
    original_height.  When the height so computed is 0 the resize raises
    [ValueError] instead. *)
Theorem load_and_resize_image_size (L : Lib) p w s b ow oh :
  files s (Path p) = Some b ->
  Image_open L b = Ok (ow, oh) ->
  1 <= ow < 2 ^ 31 ->
  1 <= oh < 2 ^ 31 ->
  let W := clamp_width w in
  (((500 <? w) || (w <? 1) = true /\ W = 500)
   \/ ((500 <? w) || (w <? 1) = false /\ W = w))
  /\ exists h,
       new_height_of W ow oh = Ok h
       /\ (h = W * oh / ow
           \/ (h = W * oh / ow - 1 /\ (W * oh) mod ow = 0))
       /\ load_and_resize_image L p w s =
          if h <? 1 then
            (Raise ValueError,
             set_trace (trace s ++ [EvRaise ValueError])
               (set_meme (set_image (mkImage (ow, oh) []) (meme s)) s))
          else
            (Ok tt,
             set_meme (set_image (mkImage (W, h) []) (meme s))
               (set_trace (trace s ++ [EvResize (W, h)]) s)).
Proof.
  intros Ef Eo How Hoh W. split; [apply clamp_width_spec|].
  destruct ow as [|ow|ow]; try lia. destruct oh as [|oh|oh]; try lia.
  destruct (new_height_of_spec W ow oh) as (h & Eh & Hl & Hu);
    [apply clamp_width_pos | lia | lia |].
  exists h. split; [exact Eh|].
  split; [|apply (load_and_resize_image_run L p w s b _ _ h Ef Eo Eh)].
  pose proof (Z.div_mod (W * Zpos oh) (Zpos ow) ltac:(lia)) as DM.
  pose proof (Z.mod_pos_bound (W * Zpos oh) (Zpos ow) ltac:(lia)) as MB.
  set (N := W * Zpos oh) in *. set (q := N / Zpos ow) in *.
  set (r := N mod Zpos ow) in *.
  assert (h = q \/ h = q - 1) as [C|C] by nia.
  - left. exact C.
  - right. split; [exact C|]. nia.
Qed.

(** The amended C8 at a 500 x 300 picture. *)
Lemma load_and_resize_image_size_witness :
  exists h,
    new_height_of (clamp_width 500) 500 300 = Ok h
    /\ (h = clamp_width 500 * 300 / 500
        \/ (h = clamp_width 500 * 300 / 500 - 1
            /\ (clamp_width 500 * 300) mod 500 = 0)).
Proof.
  destruct (load_and_resize_image_size Sample.lib (py "dog.jpg") 500
              (Sample.state [Sample.photo] [] 0 []
                            (Sample.generator (py "./tmp")))
              [500; 300]%N 500 300) as (_ & h & Eh & Hh & _).
  - reflexivity.
  - reflexivity.
  - lia.
  - lia.
  - exists h. split; assumption.
Defined.

(* ================================================================== *)
(** * Further properties of the code *)

(** ** What a run leaves untouched *)

Section Frames.
Variable R : State -> State -> Prop.
Hypothesis R_refl : forall s, R s s.
Hypothesis R_trans : forall a b c, R a b -> R b c -> R a c.
Hypothesis R_trace : forall s t, R s (set_trace t s).

Lemma frames_ret {A} (a : A) : frames R (ret a).
Proof. intros s. apply R_refl. Qed.

Lemma frames_raise {A} e : frames R (@raise A e).
Proof. intros s. apply R_trace. Qed.

Lemma frames_reraise {A} e : frames R (@reraise A e).
Proof. intros s. apply R_refl. Qed.

Lemma frames_get : frames R get.
Proof. intros s. apply R_refl. Qed.

Lemma frames_emit ev : frames R (emit ev).
Proof. intros s. apply R_trace. Qed.

Lemma frames_lift {A} (r : Result A) : frames R (lift r).
Proof. destruct r; [apply frames_ret | apply frames_raise]. Qed.

Lemma frames_attr {A} (o : option A) : frames R (attr o).
Proof. destruct o; [apply frames_ret | apply frames_raise]. Qed.

Lemma frames_bind {A B} (m : M A) (f : A -> M B) :
  frames R m -> (forall a, frames R (f a)) -> frames R (bind m f).
Proof.
  intros Hm Hf s. unfold bind. specialize (Hm s).
  destruct (m s) as [[a|e] s1]; simpl in *; [|exact Hm].
  eapply R_trans; [exact Hm | apply Hf].
Qed.

Lemma frames_try_catch {A} (m : M A) (h : exn -> M A) :
  frames R m -> (forall e, frames R (h e)) -> frames R (try_catch m h).
Proof.
  intros Hm Hh s. unfold try_catch. specialize (Hm s).
  destruct (m s) as [[a|e] s1]; simpl in *; [exact Hm|].
  eapply R_trans; [exact Hm | apply Hh].
Qed.

Lemma frames_index {A} (l : list A) i : frames R (index l i).
Proof.
  unfold index. destruct (nth_error l i);
    [apply frames_ret | apply frames_raise].
Qed.

Lemma frames_read_file p : frames R (read_file p).
Proof.
  unfold read_file. apply frames_bind; [apply frames_get | intros s].
  destruct (files s (Path p)); [apply frames_ret | apply frames_raise].
Qed.

Ltac frames_leaf :=
  first [ apply frames_ret | apply frames_raise | apply frames_reraise
        | apply frames_get | apply frames_lift | apply frames_attr
        | apply frames_emit | apply frames_index | apply frames_read_file ].

Ltac frames_auto :=
  repeat first
    [ frames_leaf
    | apply frames_bind; [| intros ?]
    | apply frames_try_catch; [| intros ?]
    | match goal with
      | |- frames _ (if ?c then _ else _) => destruct c
      | |- frames _ (match ?x with _ => _ end) => destruct x
      end ].

Section Ingestors.
Context (L : Lib).

Lemma frames_csv_rows rows : frames R (csv_rows rows).
Proof.
  induction rows as [|x rows IH]; simpl; [frames_leaf|].
  apply frames_bind; [unfold csv_row; frames_auto | intros q].
  apply frames_bind; [exact IH | intros qs; frames_leaf].
Qed.

Lemma frames_pdf_loop lines acc : frames R (pdf_loop L lines acc).
Proof.
  revert acc; induction lines as [|line lines IH]; intros acc; simpl;
    [frames_leaf|].
  apply frames_bind; [unfold pdf_line; frames_auto | intros a; apply IH].
Qed.

Lemma frames_ingestor_parse c p : frames R (ingestor_parse L c p).
Proof.
  destruct c; simpl.
  - unfold IngestorCSV_parse.
    destruct (negb _); [frames_leaf|].
    apply frames_bind; [frames_leaf | intros b].
    apply frames_bind; [frames_leaf | intros rows; apply frames_csv_rows].
  - unfold IngestorDOCX_parse. frames_auto.
  - unfold IngestorTXT_parse. frames_auto.
  - unfold IngestorPDF_parse.
    destruct (negb _); [frames_leaf|].
    apply frames_try_catch; [|intros e; frames_leaf].
    apply frames_bind; [|intros text; apply frames_pdf_loop].
    unfold run_pdftotext. frames_auto.
Qed.

Lemma frames_Ingestor_parse p : frames R (Ingestor_parse L p).
Proof.
  unfold Ingestor_parse. apply frames_bind; [frames_leaf | intros _].
  destruct (select_ingestor _); [apply frames_ingestor_parse | frames_leaf].
Qed.

Lemma frames_parse_all quote_files acc :
  frames R (parse_all L quote_files acc).
Proof.
  revert acc; induction quote_files as [|f rest IH]; intros acc; simpl;
    [frames_leaf|].
  apply frames_bind; [apply frames_Ingestor_parse | intros a; apply IH].
Qed.

End Ingestors.

(** The steps of the generator also draw random numbers, set attributes
    of the generator and make directories. *)
Hypothesis R_tick : forall s n, R s (set_tick n s).
Hypothesis R_meme : forall s g, R s (set_meme g s).
Hypothesis R_dirs : forall s d, R s (set_dirs d s).

Lemma frames_draw : frames R draw.
Proof. intros s. apply R_tick. Qed.

Lemma frames_randint a b : frames R (randint a b).
Proof.
  unfold randint. apply frames_bind; [apply frames_draw | intros r].
  apply frames_ret.
Qed.

Lemma frames_choice {A} (l : list A) : frames R (choice l).
Proof.
  unfold choice. destruct l; [apply frames_raise|].
  apply frames_bind; [apply frames_draw | intros r; apply frames_index].
Qed.

Lemma frames_set_self f : frames R (set_self f).
Proof. intros s. apply R_meme. Qed.

Lemma frames_self : frames R self.
Proof. unfold self. frames_auto. Qed.

Lemma frames_tick_step : frames R (modify (fun s => set_tick (S (tick s)) s)).
Proof. intros s. apply R_tick. Qed.

Section Generator.
Context (L : Lib).

Lemma frames_load_and_resize_image p w :
  frames R (load_and_resize_image L p w).
Proof.
  unfold load_and_resize_image.
  apply frames_try_catch; [|intros e; frames_auto].
  apply frames_bind; [frames_leaf | intros b].
  apply frames_bind; [frames_leaf | intros sz].
  apply frames_bind; [apply frames_set_self | intros _].
  destruct sz as [ow oh].
  apply frames_bind; [frames_leaf | intros h].
  apply frames_bind; [unfold Image_resize; frames_auto | intros im].
  apply frames_set_self.
Qed.

Lemma frames_prepare_fonts q a : frames R (prepare_fonts L q a).
Proof.
  unfold prepare_fonts.
  apply frames_bind; [apply frames_set_self | intros _].
  apply frames_try_catch; [|intros e; frames_leaf].
  repeat (apply frames_bind;
          [first [apply frames_set_self | frames_leaf] | intros ?]).
  apply frames_set_self.
Qed.

Lemma frames_draw_text o : frames R (draw_text o).
Proof.
  unfold draw_text.
  apply frames_bind; [apply frames_self | intros g].
  apply frames_bind; [frames_leaf | intros im].
  apply frames_bind; [apply frames_set_self | intros _]. frames_leaf.
Qed.

Lemma frames_choose_x iw tw : frames R (choose_x iw tw).
Proof.
  unfold choose_x. destruct (_ <? _); [apply frames_randint | frames_leaf].
Qed.

Lemma frames_choose_y ih fs : frames R (choose_y ih fs).
Proof.
  unfold choose_y. destruct (_ <? _); [apply frames_randint | frames_leaf].
Qed.

Lemma frames_mark_dirs ps : frames R (mark_dirs ps).
Proof.
  induction ps as [|p ps IH]; simpl; [frames_leaf|].
  apply frames_bind; [|intros _; exact IH].
  unfold mark_dir. apply frames_bind; [frames_leaf | intros s0].
  destruct (files s0 p); [frames_leaf|]. intros s. apply R_dirs.
Qed.

Lemma frames_fresh_name fuel d prefix suffix :
  frames R (fresh_name fuel d prefix suffix).
Proof.
  induction fuel as [|fuel IH]; simpl; [frames_leaf|].
  apply frames_bind; [frames_leaf | intros s0].
  apply frames_bind; [apply frames_tick_step | intros _].
  destruct (files s0 _); [exact IH|].
  destruct (dirs s0 _); [exact IH | frames_leaf].
Qed.

Lemma frames_NamedTemporaryFile_name dir prefix suffix :
  frames R (NamedTemporaryFile_name dir prefix suffix).
Proof.
  unfold NamedTemporaryFile_name.
  apply frames_bind; [frames_leaf | intros s0].
  destruct (dir_exists s0 _); [apply frames_fresh_name | frames_leaf].
Qed.

End Generator.
End Frames.

Lemma only_trace_refl s : only_trace s s.
Proof. unfold only_trace. destruct s; reflexivity. Qed.

Lemma only_trace_trans a b c :
  only_trace a b -> only_trace b c -> only_trace a c.
Proof. unfold only_trace. intros H1 H2. rewrite H2, H1. reflexivity. Qed.

Lemma only_trace_set s t : only_trace s (set_trace t s).
Proof. reflexivity. Qed.

(** ** [make_meme]: layout, files and the path it returns *)

Lemma same_files_refl s : same_files s s.
Proof. reflexivity. Qed.

Lemma same_files_trans a b c :
  same_files a b -> same_files b c -> same_files a c.
Proof. unfold same_files. congruence. Qed.

Lemma NamedTemporaryFile_name_fresh dir prefix suffix s p s1 :
  NamedTemporaryFile_name dir prefix suffix s = (Ok p, s1) ->
  files s p = None /\ dirs s p = false.
Proof.
  intros H. unfold NamedTemporaryFile_name in H.
  inv_bind H as s0 s2 E1. unfold get in E1. injection E1 as <- <-.
  destruct (dir_exists s (Path dir)); [|discriminate].
  revert s H. generalize TMP_MAX. intros fuel.
  induction fuel as [|fuel IH]; intros s H; simpl in H; [discriminate|].
  inv_bind H as s0 s2 E1. unfold get in E1. injection E1 as <- <-.
  inv_bind H as u1 s2 E2. unfold modify in E2. injection E2 as _ <-.
  destruct (files s _) eqn:Ef; [apply IH in H; exact H|].
  destruct (dirs s _) eqn:Ed; [apply IH in H; exact H|].
  apply ret_Ok in H. destruct H as [-> _]. auto.
Qed.

(** What a successful [make_meme] has done, with the ranges of the random
    choices and the state of the disk. *)
Lemma make_meme_Ok_full (L : Lib) p text author w s out s' :
  make_meme L p text author w s = (Ok out, s') ->
  exists h x y r g b k encoded,
    let W := clamp_width w in
    let im := mkImage (W, h) [quote_overlay x y text;
                              author_overlay x y author (r, g, b)] in
    let folder := Path (output_dir (meme s)) in
    let name := py "meme_" ++ tmp_names s k ++ py ".jpg" in
    let saved := child (Path (path_name folder)) name in
    1 <= h
    /\ 10 <= x /\ 40 <= y
    /\ channel r /\ channel g /\ channel b
    /\ image (meme s') = Some im
    /\ jpeg_encode L im = Ok encoded
    /\ files s saved = None
    /\ files s' = (fun q => if path_eqb q saved then Some encoded
                            else files s q)
    /\ out = path_str folder ++ py "/" ++ name.
Proof.
  intros H. unfold make_meme in H. rewrite try_reraise in H.
  inv_bind H as u1 s1 E1.
  apply load_and_resize_image_Ok in E1.
  destruct E1 as (b0 & ow & oh & h & Ef & Eo & Eh & Hh & ->).
  inv_bind H as u2 s2 E2. apply prepare_fonts_Ok in E2. subst s2.
  inv_bind H as g0 s2 E3. rewrite self_run in E3. injection E3 as <- <-.
  inv_bind H as im0 s2 E4. apply attr_Ok in E4. destruct E4 as [E4 ->].
  inv_bind H as fq s2 E5. apply attr_Ok in E5. destruct E5 as [E5 ->].
  inv_bind H as fa s2 E6. apply attr_Ok in E6. destruct E6 as [E6 ->].
  inv_bind H as fs s2 E7. apply attr_Ok in E7. destruct E7 as [E7 ->].
  simpl in E4, E5, E6, E7.
  injection E4 as <-. injection E5 as <-. injection E6 as <-.
  injection E7 as <-.
  cbv beta iota delta [size] in H.
  destruct (textbbox L 30 text) as [tw th] eqn:Etw.
  destruct (textbbox L 24 (py "- " ++ author)) as [aw ah] eqn:Eaw.
  inv_bind H as x s2 Ex. apply choose_x_Ok in Ex.
  destruct Ex as [Hx [n1 ->]].
  inv_bind H as y s3 Ey. apply choose_y_Ok in Ey.
  destruct Ey as [Hy [n2 ->]].
  inv_bind H as u3 s4 Ed1. apply draw_text_Ok in Ed1.
  destruct Ed1 as (im1 & Ei1 & ->). simpl in Ei1. injection Ei1 as <-.
  inv_bind H as r s5 Er. apply randint_Ok in Er; [|lia].
  destruct Er as [Hr ->].
  inv_bind H as gr s6 Eg. apply randint_Ok in Eg; [|lia].
  destruct Eg as [Hg ->].
  inv_bind H as bl s7 Eb. apply randint_Ok in Eb; [|lia].
  destruct Eb as [Hb ->].
  inv_bind H as u4 s8 Ed2. apply draw_text_Ok in Ed2.
  destruct Ed2 as (im2 & Ei2 & ->). simpl in Ei2. injection Ei2 as <-.
  inv_bind H as g2 s9 Eg2. rewrite self_run in Eg2. injection Eg2 as <- <-.
  inv_bind H as u5 s10 Em. apply mark_dirs_Ok in Em. destruct Em as [d ->].
  inv_bind H as saved s11 Et.
  pose proof (NamedTemporaryFile_name_fresh _ _ _ _ _ _ Et) as [Ff _].
  apply NamedTemporaryFile_name_Ok in Et.
  destruct Et as ([n3 ->] & _ & _ & k & ->).
  inv_bind H as u6 s12 Es. apply Image_save_Ok in Es.
  destruct Es as (im3 & encoded & Ei3 & Eenc & ->).
  simpl in Ei3. injection Ei3 as <-.
  apply ret_Ok in H. destruct H as [-> ->].
  rewrite path_name_child.
  exists h, x, y, r, gr, bl, k, encoded.
  unfold margin, channel in *. simpl in Ff |- *.
  repeat split; auto; try lia.
Qed.

Ltac same_files_side :=
  first [ exact same_files_refl | exact same_files_trans
        | intros; reflexivity ].

Lemma spares_bind {A B} (m : M A) (f : A -> M B) :
  frames same_files m -> (forall a, spares (f a)) -> spares (bind m f).
Proof.
  intros Hm Hf s. unfold bind. specialize (Hm s).
  destruct (m s) as [[a|e] s1]; simpl in *; [|exact Hm].
  specialize (Hf a s1). destruct (f a s1) as [[b|e] s2]; simpl in *;
    [exact I | congruence].
Qed.

Lemma spares_try_reraise {A} (m : M A) :
  spares m -> spares (try_catch m (fun e => reraise e)).
Proof. intros Hm s. unfold spares in Hm. rewrite try_reraise. apply Hm. Qed.

Lemma spares_Image_save {A} (L : Lib) p (x : A) :
  spares (Image_save L p ;; ret x).
Proof.
  intros s. unfold Image_save.
  cbv beta iota delta [bind self get ret attr lift raise emit modify fst snd].
  destruct (image (meme s)) as [im|]; simpl; [|reflexivity].
  destruct (dir_exists s (parent p)); simpl; [|reflexivity].
  destruct (jpeg_encode L im); simpl; [exact I | reflexivity].
Qed.

Lemma spares_make_meme (L : Lib) p text author w :
  spares (make_meme L p text author w).
Proof.
  unfold make_meme. apply spares_try_reraise.
  apply spares_bind;
    [apply frames_load_and_resize_image; same_files_side | intros _].
  apply spares_bind; [apply frames_prepare_fonts; same_files_side | intros _].
  apply spares_bind; [apply frames_self; same_files_side | intros g].
  apply spares_bind; [apply frames_attr; same_files_side | intros im].
  apply spares_bind; [apply frames_attr; same_files_side | intros fq].
  apply spares_bind; [apply frames_attr; same_files_side | intros fa].
  apply spares_bind; [apply frames_attr; same_files_side | intros fs].
  destruct (size im) as [img_width img_height].
  destruct (textbbox L fq text) as [tw th].
  destruct (textbbox L fa (py "- " ++ author)) as [aw ah].
  apply spares_bind; [apply frames_choose_x; same_files_side | intros x].
  apply spares_bind; [apply frames_choose_y; same_files_side | intros y].
  apply spares_bind; [apply frames_draw_text; same_files_side | intros _].
  apply spares_bind; [apply frames_randint; same_files_side | intros r].
  apply spares_bind; [apply frames_randint; same_files_side | intros g1].
  apply spares_bind; [apply frames_randint; same_files_side | intros b].
  apply spares_bind; [apply frames_draw_text; same_files_side | intros _].
  apply spares_bind; [apply frames_self; same_files_side | intros g2].
  apply spares_bind; [apply frames_mark_dirs; same_files_side | intros _].
  apply spares_bind;
    [apply frames_NamedTemporaryFile_name; same_files_side | intros saved].
  apply spares_Image_save.
Qed.

(** X1: a successful [make_meme] leaves on the generator the image resized
    to a width of 1 to 500 and a height of at least 1, with exactly two
    overlays: the quote at (x, y) in font 30, anchored at its bottom left
    and filled (250, 240, 255), and the author line ["- " + author] at
    (x, y + 5) in font 24, anchored at its top left, in a colour whose
    channels lie in 0..255; x is at least 10 and y at least 40. *)
Theorem make_meme_layout (L : Lib) p text author w s out s' :
  make_meme L p text author w s = (Ok out, s') ->
  exists h x y r g b,
    image (meme s') =
      Some (mkImage (clamp_width w, h)
              [mkOverlay (x, y) text 30 anchor_lb (250, 240, 255);
               mkOverlay (x, y + 5) (py "- " ++ author) 24 anchor_lt
                         (r, g, b)])
    /\ 1 <= clamp_width w <= 500 /\ 1 <= h
    /\ 10 <= x /\ 40 <= y
    /\ channel r /\ channel g /\ channel b.
Proof.
  intros H. apply make_meme_Ok_full in H.
  destruct H as (h & x & y & r & g & b & k & enc & H). cbv zeta in H.
  destruct H as (Hh & Hx & Hy & Hr & Hg & Hb & Hi & _).
  exists h, x, y, r, g, b. pose proof (clamp_width_pos w).
  split; [exact Hi|]. unfold channel in *. lia.
Qed.

Lemma make_meme_layout_witness :
  exists h x y r g b,
    image (meme (snd (make_meme Sample.lib (py "dog.jpg") (py "Bark")
                        (py "Rex") 500
                        (Sample.state [Sample.photo] [] 7 (py "abc")
                           (Sample.generator (py "./output")))))) =
      Some (mkImage (clamp_width 500, h)
              [mkOverlay (x, y) (py "Bark") 30 anchor_lb (250, 240, 255);
               mkOverlay (x, y + 5) (py "- " ++ py "Rex") 24 anchor_lt
                         (r, g, b)])
    /\ 1 <= clamp_width 500 <= 500 /\ 1 <= h
    /\ 10 <= x /\ 40 <= y
    /\ channel r /\ channel g /\ channel b.
Proof.
  apply (make_meme_layout Sample.lib (py "dog.jpg") (py "Bark") (py "Rex")
           500
           (Sample.state [Sample.photo] [] 7 (py "abc")
                         (Sample.generator (py "./output")))
           (py "output/meme_abc.jpg")).
  vm_compute. reflexivity.
Defined.

(** X2: [make_meme] changes one file at most.  When it returns it has
    written a file at a path where there was none, and every other path
    holds what it held before; when it raises, no file was written,
    changed or removed. *)
Theorem make_meme_touches_one_file (L : Lib) p text author w s :
  match make_meme L p text author w s with
  | (Raise _, s') => files s' = files s
  | (Ok _, s') =>
      exists saved encoded,
        files s saved = None
        /\ files s' saved = Some encoded
        /\ forall q, path_eqb q saved = false -> files s' q = files s q
  end.
Proof.
  destruct (make_meme L p text author w s) as [[out|e] s'] eqn:E.
  - apply make_meme_Ok_full in E.
    destruct E as (h & x & y & r & g & b & k & enc & E). cbv zeta in E.
    destruct E as (_ & _ & _ & _ & _ & _ & _ & _ & Hfree & Hf & _).
    eexists. exists enc. split; [exact Hfree|]. rewrite Hf.
    split; [rewrite path_eqb_refl; reflexivity|].
    intros q Hq. rewrite Hq. reflexivity.
  - pose proof (spares_make_meme L p text author w s) as S.
    rewrite E in S. exact S.
Qed.

(** X3: the path a successful [make_meme] returns is, read as a path,
    directly inside the configured output directory, and its last
    component is [meme_], a temporary-name token and [.jpg] (for tokens
    without ['/'], as [tempfile] makes them). *)
Theorem make_meme_returns_path_in_output_dir
  (L : Lib) p text author w s out s' :
  (forall n, mem slash (tmp_names s n) = false) ->
  make_meme L p text author w s = (Ok out, s') ->
  exists k,
    Path out = child (Path (output_dir (meme s)))
                     (py "meme_" ++ tmp_names s k ++ py ".jpg").
Proof.
  intros Htok H. apply make_meme_Ok_full in H.
  destruct H as (h & x & y & r & g & b & k & enc & H). cbv zeta in H.
  destruct H as (_ & _ & _ & _ & _ & _ & _ & _ & _ & _ & ->).
  exists k.
  change (py "/" ++ py "meme_" ++ tmp_names s k ++ py ".jpg")
    with (slash :: (py "meme_" ++ tmp_names s k ++ py ".jpg")).
  apply Path_child; [apply Path_components|].
  apply meme_name_component, Htok.
Qed.

Lemma make_meme_returns_path_in_output_dir_witness :
  exists k,
    Path (py "out/memes/meme_abc.jpg")
    = child (Path (py "out/memes"))
            (py "meme_"
             ++ tmp_names (Sample.state [Sample.photo] [py "memes"] 7
                             (py "abc") (Sample.generator (py "out/memes"))) k
             ++ py ".jpg").
Proof.
  apply (make_meme_returns_path_in_output_dir Sample.lib (py "dog.jpg")
           (py "Bark") (py "Rex") 500
           (Sample.state [Sample.photo] [py "memes"] 7 (py "abc")
                         (Sample.generator (py "out/memes")))
           (py "out/memes/meme_abc.jpg")
           (snd (make_meme Sample.lib (py "dog.jpg") (py "Bark")
                   (py "Rex") 500
                   (Sample.state [Sample.photo] [py "memes"] 7 (py "abc")
                      (Sample.generator (py "out/memes")))))).
  - intros n. reflexivity.
  - vm_compute. reflexivity.
Defined.

(** ** The ingestors *)

(** X4: ingestion only reads.  Whatever the path and whether it returns
    or raises, [Ingestor.parse] leaves every file and directory, the
    generator, the stored records and the random source as they were;
    so does [setup], which parses the four quote files and lists the
    image directory. *)
Theorem ingestion_only_reads (L : Lib) (p : str) (s : State) :
  only_trace s (snd (Ingestor_parse L p s))
  /\ only_trace s (snd (setup L s)).
Proof.
  split.
  - apply (frames_Ingestor_parse only_trace only_trace_refl only_trace_trans
             only_trace_set).
  - unfold setup.
    apply (frames_bind only_trace only_trace_trans).
    + apply (frames_parse_all only_trace only_trace_refl only_trace_trans
               only_trace_set).
    + intros qs. apply (frames_bind only_trace only_trace_trans).
      * apply (frames_lift only_trace only_trace_refl only_trace_set).
      * intros listed. apply (frames_ret only_trace only_trace_refl).
Qed.

Lemma can_ingest_one ext p :
  can_ingest [ext] p = str_eqb (input_extension p) ext.
Proof. unfold can_ingest. simpl. apply orb_false_r. Qed.

Lemma raise_run {A} e s :
  @raise A e s = (Raise e, set_trace (trace s ++ [EvRaise e]) s).
Proof. reflexivity. Qed.

(** X5: a format parser called with a path that [Ingestor.parse] would
    not hand to it raises [ValueError] at once: nothing is read, and the
    state changes only by the record of the exception. *)
Theorem parser_rejects_foreign_extension
  (L : Lib) (c : IngestorClass) (p : str) (s : State) :
  select_ingestor (input_extension p) <> Some c ->
  ingestor_parse L c p s
  = (Raise ValueError, set_trace (trace s ++ [EvRaise ValueError]) s).
Proof.
  intros H.
  assert (forall ext, select_ingestor ext <> Some c ->
            str_eqb ext (match c with
                         | IngestorCSV => py "csv"
                         | IngestorDOCX => py "docx"
                         | IngestorTXT => py "txt"
                         | IngestorPDF => py "pdf"
                         end) = false) as K.
  { intros ext Hs.
    destruct (str_eqb ext _) eqn:E; [|reflexivity].
    apply str_eqb_eq in E. subst ext. exfalso. apply Hs.
    destruct c; reflexivity. }
  specialize (K _ H).
  destruct c; simpl;
    unfold IngestorCSV_parse, IngestorDOCX_parse, IngestorTXT_parse,
           IngestorPDF_parse;
    rewrite can_ingest_one, K; reflexivity.
Qed.

Lemma parser_rejects_foreign_extension_witness :
  ingestor_parse Sample.lib IngestorCSV (py "quotes.txt")
                 (Sample.state [] [] 0 (py "abc") (Sample.generator (py "./tmp")))
  = (Raise ValueError,
     set_trace (trace (Sample.state [] [] 0 (py "abc")
                         (Sample.generator (py "./tmp")))
                ++ [EvRaise ValueError])
               (Sample.state [] [] 0 (py "abc")
                  (Sample.generator (py "./tmp")))).
Proof.
  apply (parser_rejects_foreign_extension Sample.lib IngestorCSV
           (py "quotes.txt")).
  vm_compute. discriminate.
Defined.

(** *** Lines and their pieces *)

Lemma split_cons_shape sep s : exists a rest, split sep s = a :: rest.
Proof.
  destruct (split sep s) as [|a rest] eqn:E;
    [exfalso; exact (split_nonempty sep s E) | eauto].
Qed.

Lemma length_split sep s :
  List.length (split sep s) = S (occurrences sep s).
Proof.
  unfold occurrences. induction s as [|c s IH]; simpl; [reflexivity|].
  destruct (char_eqb c sep); simpl; [rewrite IH; reflexivity|].
  destruct (split_cons_shape sep s) as (a & rest & E).
  rewrite E in *. simpl in *. exact IH.
Qed.

Lemma occurrences_mem sep s :
  Nat.ltb 0 (occurrences sep s) = mem sep s.
Proof.
  unfold occurrences, mem. induction s as [|c s IH]; simpl; [reflexivity|].
  replace (char_eqb sep c) with (char_eqb c sep)
    by (unfold char_eqb; apply N.eqb_sym).
  destruct (char_eqb c sep); simpl; [reflexivity | exact IH].
Qed.

Lemma split_two_pieces sep s :
  Nat.ltb 1 (List.length (split sep s)) = mem sep s.
Proof. rewrite length_split. apply occurrences_mem. Qed.

Section Lines.
Context (L : Lib).

Lemma txt_loop_spec lines acc :
  txt_loop L lines acc
  = acc ++ map (record_of L)
               (filter (fun line => truthy (clean_data L line)
                                    && mem dash line) lines).
Proof.
  revert acc; induction lines as [|line lines IH]; intros acc; simpl;
    [rewrite app_nil_r; reflexivity|].
  rewrite IH. rewrite split_two_pieces.
  destruct (truthy (clean_data L line)); simpl; [|reflexivity].
  destruct (mem dash line); simpl; [|reflexivity].
  rewrite <- app_assoc. reflexivity.
Qed.

Lemma docx_loop_spec paragraphs acc :
  docx_loop L paragraphs acc
  = acc ++ map (record_of L)
               (filter (fun text => truthy text
                                    && Nat.eqb (occurrences dash text) 1)
                       paragraphs).
Proof.
  revert acc; induction paragraphs as [|text ps IH]; intros acc; simpl;
    [rewrite app_nil_r; reflexivity|].
  rewrite IH. rewrite length_split.
  destruct (truthy text); simpl; [|reflexivity].
  change (Nat.eqb (S (occurrences dash text)) 2)
    with (Nat.eqb (occurrences dash text) 1).
  destruct (Nat.eqb (occurrences dash text) 1); simpl; [|reflexivity].
  rewrite <- app_assoc. reflexivity.
Qed.

Lemma pdf_line_spec acc line s :
  fst (pdf_line L acc line s)
  = Ok (if mem dash (strip_with (isspace L) line)
        then acc ++ [record_of L (strip_with (isspace L) line)]
        else acc).
Proof.
  unfold pdf_line, record_of.
  rewrite <- split_two_pieces.
  destruct (split dash (strip_with (isspace L) line)) as [|a [|b rest]];
    reflexivity.
Qed.

Lemma pdf_loop_spec lines acc s :
  fst (pdf_loop L lines acc s)
  = Ok (acc ++ map (record_of L)
                   (filter (mem dash)
                           (map (strip_with (isspace L)) lines))).
Proof.
  revert acc s; induction lines as [|line lines IH]; intros acc s; simpl;
    [rewrite app_nil_r; reflexivity|].
  unfold bind. pose proof (pdf_line_spec acc line s) as H.
  destruct (pdf_line L acc line s) as [[a|e] s1]; simpl in H;
    [|discriminate].
  injection H as ->. rewrite IH.
  destruct (mem dash (strip_with (isspace L) line)); simpl;
    [rewrite <- app_assoc|]; reflexivity.
Qed.

End Lines.

(** X6: [IngestorPDF.parse] raises nothing but [ValueError]: the guard
    raises it, and every exception of the extraction is turned into
    one. *)
Theorem IngestorPDF_parse_raises_only_ValueError
  (L : Lib) (source : str) (s : State) :
  match fst (IngestorPDF_parse L source s) with
  | Ok _ => True
  | Raise e => e = ValueError
  end.
Proof.
  unfold IngestorPDF_parse.
  destruct (negb _); [reflexivity|].
  unfold try_catch.
  destruct (bind _ _ s) as [[qs|e] s1]; [exact I | reflexivity].
Qed.

(** X7: for a [.pdf] source that [pdftotext] converts, [IngestorPDF.parse]
    returns, whatever the text: it makes one record, in order, of every
    line that still has a ['-'] once stripped, from its first two pieces,
    and passes over every other line. *)
Theorem IngestorPDF_parse_lines
  (L : Lib) (source : str) (s : State) (content : blob) (text : str) :
  can_ingest [py "pdf"] source = true ->
  files s (Path source) = Some content ->
  pdftotext L content = Ok text ->
  fst (IngestorPDF_parse L source s)
  = Ok (map (record_of L)
            (filter (mem dash)
                    (map (strip_with (isspace L)) (split newline text)))).
Proof.
  intros Hc Hf Hp. unfold IngestorPDF_parse. rewrite Hc. change (negb true) with false. cbv beta iota.
  assert (run_pdftotext L source s = (Ok text, s)) as Hr.
  { unfold run_pdftotext, bind, get. rewrite Hf, Hp. reflexivity. }
  pose proof (pdf_loop_spec L (split newline text) [] s) as H.
  unfold try_catch, bind. rewrite Hr.
  destruct (pdf_loop L (split newline text) [] s) as [[qs|e] s1];
    simpl in H |- *; [exact H | discriminate].
Qed.

Lemma IngestorPDF_parse_lines_witness :
  fst (IngestorPDF_parse Sample.lib (py "q.pdf")
         (Sample.state [(py "q.pdf", sample_lines)] [] 0 (py "abc")
            (Sample.generator (py "./tmp"))))
  = Ok [mkQuoteModel (py "Bark") (py "Rex");
        mkQuoteModel (py "Woof") (py "Fido")].
Proof.
  rewrite (IngestorPDF_parse_lines Sample.lib (py "q.pdf") _
             sample_lines sample_lines).
  - vm_compute. reflexivity.
  - vm_compute. reflexivity.
  - vm_compute. reflexivity.
  - vm_compute. reflexivity.
Defined.

(** X8: for a [.txt] file that can be read, [IngestorTXT.parse] returns
    one record, in order, of every line that has a ['-'] and is not empty
    once cleaned, made of its first two pieces: what follows a second
    ['-'] is dropped.  The state is left as it was. *)
Theorem IngestorTXT_parse_lines
  (L : Lib) (path : str) (s : State) (content : blob) (lines : list str) :
  can_ingest [py "txt"] path = true ->
  files s (Path path) = Some content ->
  readlines L content = Ok lines ->
  IngestorTXT_parse L path s
  = (Ok (map (record_of L)
             (filter (fun line => truthy (clean_data L line)
                                  && mem dash line) lines)), s).
Proof.
  intros Hc Hf Hr. unfold IngestorTXT_parse. rewrite Hc. change (negb true) with false. cbv beta iota.
  cbv beta iota delta [bind read_file get ret]. rewrite Hf.
  cbv beta iota. rewrite Hr. cbv beta iota delta [lift ret].
  rewrite txt_loop_spec. reflexivity.
Qed.

Lemma IngestorTXT_parse_lines_witness :
  fst (IngestorTXT_parse Sample.lib (py "q.txt")
         (Sample.state [(py "q.txt", sample_lines)] [] 0 (py "abc")
            (Sample.generator (py "./tmp"))))
  = Ok [mkQuoteModel (py "Bark") (py "Rex");
        mkQuoteModel (py "Woof") (py "Fido")].
Proof.
  rewrite (IngestorTXT_parse_lines Sample.lib (py "q.txt") _
             sample_lines (Sample.keepends sample_lines)).
  - vm_compute. reflexivity.
  - vm_compute. reflexivity.
  - vm_compute. reflexivity.
  - vm_compute. reflexivity.
Defined.

(** X9: for a [.docx] file that can be read, [IngestorDOCX.parse] returns
    one record, in order, of every paragraph that is not empty and has
    exactly one ['-']; a paragraph with two or more is passed over.  The
    state is left as it was. *)
Theorem IngestorDOCX_parse_paragraphs
  (L : Lib) (path : str) (s : State) (content : blob)
  (paragraphs : list str) :
  can_ingest [py "docx"] path = true ->
  files s (Path path) = Some content ->
  docx_paragraphs L content = Ok paragraphs ->
  IngestorDOCX_parse L path s
  = (Ok (map (record_of L)
             (filter (fun text => truthy text
                                  && Nat.eqb (occurrences dash text) 1)
                     paragraphs)), s).
Proof.
  intros Hc Hf Hr. unfold IngestorDOCX_parse. rewrite Hc. change (negb true) with false. cbv beta iota.
  cbv beta iota delta [bind read_file get ret]. rewrite Hf.
  cbv beta iota. rewrite Hr. cbv beta iota delta [lift ret].
  rewrite docx_loop_spec. reflexivity.
Qed.

Lemma IngestorDOCX_parse_paragraphs_witness :
  fst (IngestorDOCX_parse Sample.lib (py "q.docx")
         (Sample.state [(py "q.docx", sample_lines)] [] 0 (py "abc")
            (Sample.generator (py "./tmp"))))
  = Ok [mkQuoteModel (py "Bark") (py "Rex")].
Proof.
  rewrite (IngestorDOCX_parse_paragraphs Sample.lib (py "q.docx") _
             sample_lines (split newline sample_lines)).
  - vm_compute. reflexivity.
  - vm_compute. reflexivity.
  - vm_compute. reflexivity.
  - vm_compute. reflexivity.
Defined.

(** ** [clean_data], once more *)

(** X10: [clean_data] returns a string unchanged exactly when the string
    has no character of the unwanted set, no non-printable character and
    no whitespace at either end: it removes nothing else. *)
Theorem clean_data_fixed_points (L : Lib) (s : str) :
  clean_data L s = s
  <-> forallb (fun c => negb (unwanted c)) s = true
      /\ forallb (isprintable L) s = true
      /\ starts_ws (isspace L) s = false
      /\ starts_ws (isspace L) (rev s) = false.
Proof.
  split.
  - intros H. rewrite <- H. repeat split.
    + apply clean_data_wanted.
    + apply clean_data_printable.
    + apply strip_leading.
    + apply strip_trailing.
  - intros (Hw & Hp & Hl & Ht). unfold clean_data.
    rewrite (filter_id _ _ Hw), (filter_id _ _ Hp).
    apply strip_fix; assumption.
Qed.

(** ** The command line: [generate_meme] *)

Lemma untouched_refl s : untouched s s.
Proof. repeat split. Qed.

Lemma untouched_trans a b c : untouched a b -> untouched b c -> untouched a c.
Proof.
  unfold untouched. intros (F1 & D1 & M1) (F2 & D2 & M2).
  repeat split; congruence.
Qed.

Lemma same_files_parse_all (L : Lib) quote_files acc :
  frames same_files (parse_all L quote_files acc).
Proof. apply frames_parse_all; same_files_side. Qed.

Lemma same_files_choice {A} (l : list A) : frames same_files (choice l).
Proof. apply frames_choice; same_files_side. Qed.

Lemma frames_state {A} R (m : M A) s r s' : frames R m -> m s = (r, s') -> R s s'.
Proof. intros H E. specialize (H s). rewrite E in H. exact H. Qed.

(** The loop over [os.walk] keeps the files of the directory walked
    last. *)
Lemma walk_loop_last walked root names imgs :
  walk_loop (walked ++ [(root, names)]) imgs = map (os_path_join root) names.
Proof.
  revert imgs; induction walked as [|[r fs] walked IH]; intros imgs; simpl;
    [reflexivity | apply IH].
Qed.

(** What a successful [generate_meme] went through: an image, a record
    and the call of [make_meme] on a new generator. *)
Lemma generate_meme_inv (L : Lib) path body name s out s' :
  generate_meme L path body name s = (Ok out, s') ->
  exists img picked s1 s2,
    files s1 = files s /\ files s2 = files s
    /\ match path with
       | None => In img (walk_loop (os_walk L images_dir) [])
       | Some p => exists c, In c p /\ img = [c]
       end
    /\ match body with
       | None =>
           exists parsed,
             fst (parse_all L main_quote_files [] s1) = Ok parsed
             /\ In picked parsed
       | Some b => exists a, name = Some a /\ picked = mkQuoteModel b a
       end
    /\ make_meme L img (quote picked) (author picked) 500
                 (set_meme (MemeGenerator_init (py "./tmp")) s2)
       = (Ok out, s').
Proof.
  intros H. unfold generate_meme in H.
  inv_bind H as img s1 E1.
  assert (files s1 = files s
          /\ match path with
             | None => In img (walk_loop (os_walk L images_dir) [])
             | Some p => exists c, In c p /\ img = [c]
             end) as [F1 Hin].
  { destruct path as [p|].
    - inv_bind E1 as c s2 Ec. apply choice_Ok in Ec. destruct Ec as [Hc ->].
      inv_bind E1 as u s2 Ee. unfold emit in Ee. injection Ee as _ <-.
      apply ret_Ok in E1. destruct E1 as [-> ->].
      split; [reflexivity | exists c; auto].
    - change (py "./_data/photos/dog/") with images_dir in E1.
      destruct (walk_loop (os_walk L images_dir) []) as [|i0 imgs0] eqn:Ew;
        [discriminate|].
      inv_bind E1 as c s2 Ec. apply choice_Ok in Ec. destruct Ec as [Hc ->].
      inv_bind E1 as u s2 Ee. unfold emit in Ee. injection Ee as _ <-.
      apply ret_Ok in E1. destruct E1 as [-> ->].
      split; [reflexivity | exact Hc]. }
  inv_bind H as picked s2 E2.
  assert (files s2 = files s1
          /\ match body with
             | None =>
                 exists parsed,
                   fst (parse_all L main_quote_files [] s1) = Ok parsed
                   /\ In picked parsed
             | Some b => exists a, name = Some a /\ picked = mkQuoteModel b a
             end) as [F2 Hq].
  { destruct body as [bd|].
    - destruct name as [a|]; [|discriminate].
      apply ret_Ok in E2. destruct E2 as [-> ->].
      split; [reflexivity | exists a; auto].
    - inv_bind E2 as qs s3 Ep.
      pose proof (frames_state same_files _ _ _ _
                    (same_files_parse_all L _ _) Ep) as F.
      destruct qs as [|q0 qs]; [discriminate|].
      inv_bind E2 as q s4 Ec. apply choice_Ok in Ec. destruct Ec as [Hc ->].
      inv_bind E2 as u s4 Ee. unfold emit in Ee. injection Ee as _ <-.
      apply ret_Ok in E2. destruct E2 as [-> ->].
      split; [exact F|]. exists (q0 :: qs). rewrite Ep. auto. }
  inv_bind H as u s3 E3. unfold modify in E3. injection E3 as _ <-.
  exists img, picked, s1, s2.
  split; [exact F1|]. split; [congruence|]. split; [exact Hin|].
  split; [exact Hq|]. destruct picked as [qt at_]. exact H.
Qed.

(** The texts a successful [make_meme] leaves on the generator. *)
Lemma make_meme_texts (L : Lib) p text name w s out s' :
  make_meme L p text name w s = (Ok out, s') ->
  self_quote (meme s') = text /\ self_author (meme s') = name.
Proof.
  intros H. apply make_meme_Ok in H.
  destruct H as (b & ow & oh & h & x & y & fill & token & enc & H).
  cbv zeta in H.
  destruct H as (_ & _ & _ & _ & _ & _ & Hm & _).
  rewrite Hm. split; reflexivity.
Qed.

(** The image a successful [generate_meme] worked on. *)
Lemma generate_meme_Ok (L : Lib) path body name s out s' :
  generate_meme L path body name s = (Ok out, s') ->
  exists img b,
    files s (Path img) = Some b
    /\ match path with
       | None => In img (walk_loop (os_walk L images_dir) [])
       | Some p => exists c, In c p /\ img = [c]
       end.
Proof.
  intros H. apply generate_meme_inv in H.
  destruct H as (img & picked & s1 & s2 & _ & F2 & Hin & _ & Hm).
  apply make_meme_Ok in Hm.
  destruct Hm as (b & ow & oh & h & x & y & fill & token & enc & Hm).
  cbv zeta in Hm. destruct Hm as (Hf & _).
  exists img, b. split; [|exact Hin].
  cbn [files set_meme] in Hf. rewrite F2 in Hf. exact Hf.
Qed.

(** X11: without [--path], [generate_meme] takes its image from the
    directory [os.walk] reports last, and from no other: when it returns,
    the image was a file of that directory, and when that directory has
    no files it raises [FileNotFoundError], whatever the directories
    walked before hold. *)
Theorem generate_meme_uses_last_directory
  (L : Lib) walked root names body author s :
  os_walk L images_dir = walked ++ [(root, names)] ->
  match generate_meme L None body author s with
  | (Ok _, _) =>
      exists name b,
        In name names /\ files s (Path (os_path_join root name)) = Some b
  | (Raise e, _) => names = [] -> e = FileNotFoundError
  end.
Proof.
  intros Hw.
  destruct (generate_meme L None body author s) as [[out|e] s'] eqn:E.
  - apply generate_meme_Ok in E. destruct E as (img & b & Hf & Hin).
    rewrite Hw, walk_loop_last in Hin. apply in_map_iff in Hin.
    destruct Hin as (name & <- & Hn). exists name, b. auto.
  - intros ->. unfold generate_meme in E.
    change (py "./_data/photos/dog/") with images_dir in E.
    rewrite Hw, walk_loop_last in E. simpl in E.
    unfold bind, raise in E. simpl in E. injection E as <- _. reflexivity.
Qed.

Lemma generate_meme_uses_last_directory_witness :
  match generate_meme
          (sample_lib_with_photos
             [(py "dogs", [py "a.jpg"]); (py "dogs/old", [])] [])
          None (Some (py "Bark")) (Some (py "Rex"))
          (Sample.state [(py "dogs/a.jpg", [500; 300]%N)] [] 7 (py "abc")
             (Sample.generator (py "./tmp"))) with
  | (Ok _, _) =>
      exists name b,
        In name [] /\
        files (Sample.state [(py "dogs/a.jpg", [500; 300]%N)] [] 7 (py "abc")
                 (Sample.generator (py "./tmp")))
              (Path (os_path_join (py "dogs/old") name)) = Some b
  | (Raise e, _) => @nil str = [] -> e = FileNotFoundError
  end.
Proof.
  apply (generate_meme_uses_last_directory
           (sample_lib_with_photos
              [(py "dogs", [py "a.jpg"]); (py "dogs/old", [])] [])
           [(py "dogs", [py "a.jpg"])] (py "dogs/old") []).
  reflexivity.
Defined.

(** X12: with [--path], [generate_meme] does not open the path it is
    given: [random.choice] takes one character of the string, and the
    run returns only if a file named by that single character exists. *)
Theorem generate_meme_path_picks_one_character
  (L : Lib) (p : str) body author s out s' :
  generate_meme L (Some p) body author s = (Ok out, s') ->
  exists c b, In c p /\ files s (Path [c]) = Some b.
Proof.
  intros H. apply generate_meme_Ok in H.
  destruct H as (img & b & Hf & c & Hc & ->). exists c, b. auto.
Qed.

Lemma generate_meme_path_picks_one_character_witness :
  exists c b,
    In c (py "d")
    /\ files (Sample.state [(py "d", [500; 300]%N)] [] 7 (py "abc")
                (Sample.generator (py "./tmp"))) (Path [c]) = Some b.
Proof.
  apply (generate_meme_path_picks_one_character Sample.lib (py "d")
           (Some (py "Bark")) (Some (py "Rex"))
           (Sample.state [(py "d", [500; 300]%N)] [] 7 (py "abc")
              (Sample.generator (py "./tmp")))
           (py "tmp/meme_abc.jpg")
           (snd (generate_meme Sample.lib (Some (py "d"))
                   (Some (py "Bark")) (Some (py "Rex"))
                   (Sample.state [(py "d", [500; 300]%N)] [] 7 (py "abc")
                      (Sample.generator (py "./tmp")))))).
  vm_compute. reflexivity.
Defined.

Lemma raises_untouched {A B} (m : M A) (f : A -> M B) s :
  frames untouched m ->
  (forall a s1, (exists e, fst (f a s1) = Raise e)
                /\ untouched s1 (snd (f a s1))) ->
  (exists e, fst (bind m f s) = Raise e) /\ untouched s (snd (bind m f s)).
Proof.
  intros Hm Hf. specialize (Hm s). unfold bind.
  destruct (m s) as [[a|e] s1]; simpl in *; [|eauto].
  destruct (Hf a s1) as [He Hu].
  split; [exact He | eapply untouched_trans; eauto].
Qed.

Ltac untouched_side :=
  first [ exact untouched_refl | exact untouched_trans
        | intros; repeat split ].

(** X13: a quote body without an author never makes a meme.
    [generate_meme] raises, whatever the image argument, and the files,
    the directories and the generator are as they were. *)
Theorem generate_meme_body_needs_author (L : Lib) path (body : str) s :
  (exists e, fst (generate_meme L path (Some body) None s) = Raise e)
  /\ untouched s (snd (generate_meme L path (Some body) None s)).
Proof.
  unfold generate_meme. apply raises_untouched.
  - destruct path as [p|].
    + apply frames_bind; [untouched_side | | intros c].
      * apply frames_choice; untouched_side.
      * apply frames_bind; [untouched_side | | intros _].
        -- apply frames_emit; untouched_side.
        -- apply frames_ret; untouched_side.
    + destruct (walk_loop _ _).
      * apply frames_raise; untouched_side.
      * apply frames_bind; [untouched_side | | intros c].
        -- apply frames_choice; untouched_side.
        -- apply frames_bind; [untouched_side | | intros _].
           ++ apply frames_emit; untouched_side.
           ++ apply frames_ret; untouched_side.
  - intros img s1. unfold bind, raise. simpl.
    split; [eauto | repeat split].
Qed.

(** ** The web application *)

Lemma str_eqb_length a b : str_eqb a b = true -> List.length a = List.length b.
Proof. intros H. apply str_eqb_eq in H. subst. reflexivity. Qed.

Lemma endswith_app pre s suffix :
  endswith s suffix = true -> endswith (pre ++ s) suffix = true.
Proof.
  unfold endswith. intros H. apply andb_true_iff in H. destruct H as [Hl He].
  apply Nat.leb_le in Hl. apply andb_true_iff. split.
  - apply Nat.leb_le. rewrite length_app. lia.
  - rewrite skipn_app, length_app.
    rewrite (skipn_all2 pre) by lia.
    replace (List.length pre + List.length s - List.length suffix
             - List.length pre)%nat
      with (List.length s - List.length suffix)%nat by lia.
    exact He.
Qed.

Lemma setup_Ok (L : Lib) s qs offered s' :
  setup L s = (Ok (qs, offered), s') ->
  exists listed,
    os_listdir L images_dir = Ok listed
    /\ offered = map (fun f => images_dir ++ py "/" ++ f)
                     (filter (fun f => endswith f (py ".jpg")) listed).
Proof.
  intros H. unfold setup in H.
  inv_bind H as quotes0 s1 E1.
  inv_bind H as listed s2 E2. apply lift_Ok in E2. destruct E2 as [E2 ->].
  apply ret_Ok in H. destruct H as [H _]. injection H as _ ->.
  exists listed. split; [exact E2 | reflexivity].
Qed.

(** X14: every image [setup] offers is a name of the image directory
    that ends in [.jpg], with the directory in front of it (and two
    slashes in between, as the directory is written with one already);
    names with another ending, [.JPG] or [.png] say, are left out. *)
Theorem setup_offers_jpg_only (L : Lib) s qs offered s' :
  setup L s = (Ok (qs, offered), s') ->
  exists listed,
    os_listdir L images_dir = Ok listed
    /\ Forall (fun img =>
                 endswith img (py ".jpg") = true
                 /\ exists f, In f listed
                              /\ img = py "./_data/photos/dog//" ++ f)
              offered
    /\ List.length offered
       = List.length (filter (fun f => endswith f (py ".jpg")) listed).
Proof.
  intros H. apply setup_Ok in H. destruct H as (listed & Hl & ->).
  exists listed. split; [exact Hl|]. split; [|apply length_map].
  apply Forall_forall. intros img Hin. apply in_map_iff in Hin.
  destruct Hin as (f & <- & Hf). apply filter_In in Hf.
  destruct Hf as [Hf He]. split.
  - rewrite app_assoc. apply endswith_app, He.
  - exists f. split; [exact Hf | reflexivity].
Qed.

Lemma setup_offers_jpg_only_witness :
  exists listed,
    os_listdir Sample.lib images_dir = Ok listed
    /\ Forall (fun img =>
                 endswith img (py ".jpg") = true
                 /\ exists f, In f listed
                              /\ img = py "./_data/photos/dog//" ++ f)
              [py "./_data/photos/dog//xander_1.jpg"]
    /\ List.length [py "./_data/photos/dog//xander_1.jpg"]
       = List.length (filter (fun f => endswith f (py ".jpg")) listed).
Proof.
  apply (setup_offers_jpg_only Sample.lib
           (Sample.state
              [(py "./_data/DogQuotes/DogQuotesTXT.txt", py "Bark - Rex");
               (py "./_data/DogQuotes/DogQuotesDOCX.docx", py "Woof - Fido");
               (py "./_data/DogQuotes/DogQuotesCSV.csv", py "body,author");
               (py "./_data/DogQuotes/DogQuotesPDF.pdf", py "Grr - Max")]
              [] 7 (py "abc") (Sample.generator (py "./static")))
           [mkQuoteModel (py "Bark") (py "Rex");
            mkQuoteModel (py "Woof") (py "Fido");
            mkQuoteModel (py "Grr") (py "Max")]
           [py "./_data/photos/dog//xander_1.jpg"]
           (snd (setup Sample.lib
                   (Sample.state
                      [(py "./_data/DogQuotes/DogQuotesTXT.txt",
                        py "Bark - Rex");
                       (py "./_data/DogQuotes/DogQuotesDOCX.docx",
                        py "Woof - Fido");
                       (py "./_data/DogQuotes/DogQuotesCSV.csv",
                        py "body,author");
                       (py "./_data/DogQuotes/DogQuotesPDF.pdf",
                        py "Grr - Max")]
                      [] 7 (py "abc") (Sample.generator (py "./static")))))).
  vm_compute. reflexivity.
Defined.



Lemma parts_eqb_eq a b : parts_eqb a b = true -> a = b.
Proof.
  revert b; induction a as [|x a IH]; intros [|y b]; simpl;
    try discriminate; [reflexivity|].
  intros H. apply andb_true_iff in H. destruct H as [Hx Ha].
  apply str_eqb_eq in Hx. subst. f_equal. apply IH, Ha.
Qed.

Lemma path_eqb_eq a b : path_eqb a b = true -> a = b.
Proof.
  unfold path_eqb. intros H. apply andb_true_iff in H. destruct H as [Ha Hp].
  apply eqb_prop in Ha. apply parts_eqb_eq in Hp.
  destruct a, b. simpl in *. subst. reflexivity.
Qed.

Lemma fresh_name_same_files fuel d prefix suffix :
  frames same_files (fresh_name fuel d prefix suffix).
Proof. apply frames_fresh_name; same_files_side. Qed.

(** What [NamedTemporaryFile(delete=False)] has done when it returns:
    an empty file is at a path that was free. *)
Lemma NamedTemporaryFile_keep_Ok dir prefix suffix s p s1 :
  NamedTemporaryFile_keep dir prefix suffix s = (Ok p, s1) ->
  files s p = None
  /\ files s1 = (fun q => if path_eqb q p then Some [] else files s q).
Proof.
  intros H. unfold NamedTemporaryFile_keep in H.
  inv_bind H as s0 s2 E0. unfold get in E0. injection E0 as <- <-.
  destruct (dir_exists s (Path dir)); [|discriminate].
  inv_bind H as p0 s2 E1. apply fresh_name_Ok in E1.
  destruct E1 as ([n ->] & Hf & _).
  inv_bind H as u s2 E2. unfold write_file, modify in E2.
  injection E2 as _ <-. apply ret_Ok in H. destruct H as [-> ->].
  split; [exact Hf | reflexivity].
Qed.

Lemma NamedTemporaryFile_keep_spares dir prefix suffix :
  spares (NamedTemporaryFile_keep dir prefix suffix).
Proof.
  intros s. unfold NamedTemporaryFile_keep.
  cbv beta iota delta [bind get].
  destruct (dir_exists s (Path dir)); [|reflexivity].
  pose proof (fresh_name_same_files TMP_MAX (Path dir) prefix suffix s) as F.
  destruct (fresh_name TMP_MAX (Path dir) prefix suffix s) as [[p|e] s1];
    simpl in F |- *; [|exact F].
  exact I.
Qed.

(** X16: after a [POST] that renders the meme, the disk differs from
    what it was by the meme alone: the image is at a path that was free,
    every other path holds what it held, and the downloaded copy is
    gone. *)
Theorem meme_post_leaves_only_the_meme (L : Lib) form s template out s' :
  meme_post L form s = (Ok (Rendered template (Some out)), s') ->
  exists saved encoded,
    files s saved = None
    /\ forall q, files s' q = if path_eqb q saved then Some encoded
                              else files s q.
Proof.
  intros H. unfold meme_post in H.
  destruct (falsy _ || falsy _ || falsy _);
    [apply ret_Ok in H; destruct H; discriminate|].
  inv_bind H as response s1 E1. apply lift_Ok in E1. destruct E1 as [_ ->].
  destruct (negb _); [apply ret_Ok in H; destruct H; discriminate|].
  inv_bind H as p s1 E2. apply NamedTemporaryFile_keep_Ok in E2.
  destruct E2 as [Hfree F1].
  inv_bind H as u1 s2 E3. unfold write_file, modify in E3.
  injection E3 as _ <-.
  inv_bind H as path s2 E4. apply make_meme_Ok_full in E4.
  destruct E4 as (h & x & y & r & g & b & k & enc & E4). cbv zeta in E4.
  destruct E4 as (_ & _ & _ & _ & _ & _ & _ & _ & Hnew & F2 & _).
  match type of Hnew with files _ ?sv = None => set (saved := sv) in * end.
  cbn [files set_files] in Hnew, F2. rewrite F1 in Hnew, F2.
  cbv beta in Hnew, F2.
  inv_bind H as u2 s3 E5. unfold write_file, modify in E5.
  injection E5 as _ <-.
  inv_bind H as u3 s3 E6. unfold remove_file in E6.
  inv_bind E6 as s0 s4 E7. unfold get in E7. injection E7 as <- <-.
  cbn [files set_files] in E6. rewrite path_eqb_refl in E6.
  unfold modify in E6. injection E6 as _ <-.
  apply ret_Ok in H. destruct H as [_ ->]. cbn [files set_files].
  rewrite F2.
  assert (path_eqb saved p = false) as Hsp.
  { destruct (path_eqb saved p); [discriminate | reflexivity]. }
  rewrite Hsp in Hnew.
  exists saved, enc. split; [exact Hnew|].
  intros q. destruct (path_eqb q p) eqn:Eq.
  - apply path_eqb_eq in Eq. subst q.
    destruct (path_eqb p saved) eqn:Ep.
    + apply path_eqb_eq in Ep. rewrite <- Ep, path_eqb_refl in Hsp.
      discriminate.
    + symmetry. exact Hfree.
  - reflexivity.
Qed.

Lemma meme_post_leaves_only_the_meme_witness :
  exists saved encoded,
    files (Sample.state [] [py "/tmp"] 7 (py "abc")
             (Sample.generator (py "./static"))) saved = None
    /\ forall q,
         files (snd (meme_post Sample.lib sample_form
                       (Sample.state [] [py "/tmp"] 7 (py "abc")
                          (Sample.generator (py "./static"))))) q
         = if path_eqb q saved then Some encoded
           else files (Sample.state [] [py "/tmp"] 7 (py "abc")
                         (Sample.generator (py "./static"))) q.
Proof.
  apply (meme_post_leaves_only_the_meme Sample.lib sample_form
           (Sample.state [] [py "/tmp"] 7 (py "abc")
              (Sample.generator (py "./static")))
           (py "meme.html") (py "static/meme_abc.jpg")
           (snd (meme_post Sample.lib sample_form
                   (Sample.state [] [py "/tmp"] 7 (py "abc")
                      (Sample.generator (py "./static")))))).
  vm_compute. reflexivity.
Defined.

(** X17: when [meme_post] raises, no file that existed is changed or
    removed, and at most one is new: the downloaded copy, which stays on
    disk with what had been flushed to it, because the removal comes
    after [make_meme] and is not in a [finally]. *)
Theorem meme_post_failure_keeps_the_upload (L : Lib) form s e s' :
  meme_post L form s = (Raise e, s') ->
  (forall q, files s' q = files s q)
  \/ exists p content,
       requests_get L (or_empty (form (py "image_url"))) = Ok (200, content)
       /\ files s p = None
       /\ forall q, files s' q = if path_eqb q p
                                 then Some (flushed L content)
                                 else files s q.
Proof.
  intros H. unfold meme_post in H.
  destruct (falsy _ || falsy _ || falsy _); [discriminate|].
  unfold bind at 1 in H.
  destruct (requests_get L (or_empty (form (py "image_url"))))
    as [[st content]|e0] eqn:Er; simpl in H;
    [|injection H as _ <-; left; reflexivity].
  destruct (negb (st =? 200)) eqn:Est; [discriminate|].
  apply negb_false_iff, Z.eqb_eq in Est. subst st.
  unfold bind at 1 in H.
  pose proof (NamedTemporaryFile_keep_spares (gettempdir L) (py "tmp")
                (py ".jpg") s) as Sp.
  destruct (NamedTemporaryFile_keep (gettempdir L) (py "tmp") (py ".jpg") s)
    as [[p|e1] s1] eqn:E2; simpl in Sp;
    [|injection H as _ <-; left; intros q; rewrite Sp; reflexivity].
  apply NamedTemporaryFile_keep_Ok in E2. destruct E2 as [Hfree F1].
  unfold bind at 1, write_file at 1, modify at 1 in H.
  unfold bind at 1 in H.
  match type of H with
  | context [make_meme L ?a ?b ?c ?d ?st] =>
      pose proof (spares_make_meme L a b c d st) as Sm;
      destruct (make_meme L a b c d st) as [[path|e2] s2] eqn:E4
  end; simpl in Sm.
  - exfalso. apply make_meme_Ok_full in E4.
    destruct E4 as (h & x & y & r & g & b & k & enc & E4). cbv zeta in E4.
    destruct E4 as (_ & _ & _ & _ & _ & _ & _ & _ & _ & F2 & _).
    unfold bind at 1, write_file at 1, modify at 1 in H.
    unfold bind at 1, remove_file, bind at 1, get in H.
    simpl in H. rewrite path_eqb_refl in H. discriminate.
  - injection H as _ <-. right. exists p, content.
    split; [reflexivity|]. split; [exact Hfree|].
    intros q. rewrite Sm. simpl. rewrite F1.
    destruct (path_eqb q p); reflexivity.
Qed.

Lemma meme_post_failure_keeps_the_upload_witness :
  exists p,
    files (Sample.state [] [py "/tmp"] 7 (py "abc")
             (Sample.generator (py "static/memes"))) p = None
    /\ files (snd (meme_post Sample.lib sample_form
                     (Sample.state [] [py "/tmp"] 7 (py "abc")
                        (Sample.generator (py "static/memes"))))) p
       = Some [640; 480]%N.
Proof.
  destruct (meme_post_failure_keeps_the_upload Sample.lib sample_form
              (Sample.state [] [py "/tmp"] 7 (py "abc")
                 (Sample.generator (py "static/memes")))
              FileNotFoundError
              (snd (meme_post Sample.lib sample_form
                      (Sample.state [] [py "/tmp"] 7 (py "abc")
                         (Sample.generator (py "static/memes"))))))
    as [H | (p & content & Hr & Hfree & H)].
  - vm_compute. reflexivity.
  - specialize (H (Path (py "/tmp/tmpabc.jpg"))). vm_compute in H.
    discriminate.
  - exists p. split; [exact Hfree|].
    rewrite H, path_eqb_refl. vm_compute in Hr. injection Hr as <-.
    reflexivity.
Defined.

(** ** Images [make_meme] cannot use *)

Lemma make_meme_load_fails (L : Lib) p text author w s e s1 :
  load_and_resize_image L p w s = (Raise e, s1) ->
  make_meme L p text author w s = (Raise e, s1).
Proof.
  intros H. unfold make_meme. rewrite try_reraise.
  unfold bind at 1. rewrite H. reflexivity.
Qed.

(** X18: when there is no file at the image path, [make_meme] raises
    [FileNotFoundError] before it does anything else: the generator
    keeps the image and the texts it had, no directory is made and no
    random number is drawn. *)
Theorem make_meme_without_image_file (L : Lib) p text author w s :
  files s (Path p) = None ->
  make_meme L p text author w s
  = (Raise FileNotFoundError,
     set_trace (trace s ++ [EvRaise FileNotFoundError]) s).
Proof.
  intros Ef. apply make_meme_load_fails.
  cbv beta iota zeta
      delta [load_and_resize_image try_catch bind read_file get ret].
  rewrite Ef. reflexivity.
Qed.

Lemma make_meme_without_image_file_witness :
  make_meme Sample.lib (py "cat.jpg") (py "Bark") (py "Rex") 500
            (Sample.state [Sample.photo] [] 7 (py "abc")
               (Sample.generator (py "./output")))
  = (Raise FileNotFoundError,
     set_trace (trace (Sample.state [Sample.photo] [] 7 (py "abc")
                         (Sample.generator (py "./output")))
                ++ [EvRaise FileNotFoundError])
               (Sample.state [Sample.photo] [] 7 (py "abc")
                  (Sample.generator (py "./output")))).
Proof.
  apply (make_meme_without_image_file Sample.lib (py "cat.jpg")).
  vm_compute. reflexivity.
Defined.

(** X19: a picture that is too flat cannot be used.  When the original
    width is more than the new width times the original height, the new
    height comes out as 0, the resize refuses it, and [make_meme] raises
    [ValueError]; the generator is left holding the picture as it was
    opened, not resized, and nothing is written. *)
Theorem make_meme_rejects_flat_image
  (L : Lib) p text author w s b ow oh :
  files s (Path p) = Some b ->
  Image_open L b = Ok (ow, oh) ->
  1 <= oh < 2 ^ 31 ->
  ow < 2 ^ 31 ->
  clamp_width w * oh < ow ->
  make_meme L p text author w s
  = (Raise ValueError,
     set_trace (trace s ++ [EvRaise ValueError])
       (set_meme (set_image (mkImage (ow, oh) []) (meme s)) s)).
Proof.
  intros Ef Eo Hoh How Hflat. pose proof (clamp_width_pos w) as Hw.
  destruct ow as [|ow|ow]; try lia. destruct oh as [|oh|oh]; try lia.
  destruct (new_height_of_spec (clamp_width w) ow oh) as (h & Eh & Hl & _);
    [exact Hw | lia | lia |].
  apply make_meme_load_fails.
  rewrite (load_and_resize_image_run L p w s b _ _ h Ef Eo Eh).
  assert (h < 1) as Hh.
  { destruct (Z_lt_le_dec h 1) as [?|Hge]; [assumption|].
    assert (1 * Zpos ow <= h * Zpos ow)
      by (apply Z.mul_le_mono_nonneg_r; lia).
    lia. }
  apply Z.ltb_lt in Hh. rewrite Hh. reflexivity.
Qed.

Lemma make_meme_rejects_flat_image_witness :
  fst (make_meme Sample.lib (py "banner.jpg") (py "Bark") (py "Rex") 500
         (Sample.state [(py "banner.jpg", [1000; 1]%N)] [] 7 (py "abc")
            (Sample.generator (py "./output"))))
  = Raise ValueError.
Proof.
  rewrite (make_meme_rejects_flat_image Sample.lib (py "banner.jpg")
             (py "Bark") (py "Rex") 500
             (Sample.state [(py "banner.jpg", [1000; 1]%N)] [] 7 (py "abc")
                (Sample.generator (py "./output")))
             [1000; 1]%N 1000 1).
  - reflexivity.
  - reflexivity.
  - reflexivity.
  - lia.
  - lia.
  - vm_compute. reflexivity.
Defined.

(** The property of [make_meme_file_exists] at the output directory
    [./output]. *)
Lemma make_meme_file_exists_witness :
  exists h x y fill encoded,
    let s' := snd (make_meme Sample.lib (py "dog.jpg") (py "Bark")
                     (py "Rex") 500
                     (Sample.state [Sample.photo] [] 7 (py "abc")
                        (Sample.generator (py "./output")))) in
    let im := mkImage (clamp_width 500, h)
                      [quote_overlay x y (py "Bark");
                       author_overlay x y (py "Rex") fill] in
    image (meme s') = Some im
    /\ jpeg_encode Sample.lib im = Ok encoded
    /\ files s' (Path (py "output/meme_abc.jpg")) = Some encoded.
Proof.
  apply (make_meme_file_exists Sample.lib (py "dog.jpg") (py "Bark")
           (py "Rex") 500
           (Sample.state [Sample.photo] [] 7 (py "abc")
              (Sample.generator (py "./output")))
           (py "output/meme_abc.jpg")
           (snd (make_meme Sample.lib (py "dog.jpg") (py "Bark")
                   (py "Rex") 500
                   (Sample.state [Sample.photo] [] 7 (py "abc")
                      (Sample.generator (py "./output")))))).
  - reflexivity.
  - intros n. reflexivity.
  - vm_compute. reflexivity.
Defined.

(** ** The CSV parser and the loop over the quote files *)

Lemma csv_rows_spec rows s :
  csv_rows rows s
  = if forallb complete rows
    then (Ok (map (fun x => mkQuoteModel (or_empty (row_body x))
                                         (or_empty (row_author x))) rows), s)
    else (Raise AttributeError,
          set_trace (trace s ++ [EvRaise AttributeError]) s).
Proof.
  induction rows as [|x rows IH]; simpl; [reflexivity|].
  unfold bind, csv_row. unfold complete at 1.
  destruct (row_body x) as [b|]; [|reflexivity].
  destruct (row_author x) as [a|]; [|reflexivity].
  simpl. rewrite IH. destruct (forallb complete rows); reflexivity.
Qed.



(** *** What a parse depends on *)

Lemma disk_function_const {A} (m : M A) r :
  (forall s, fst (m s) = r) -> disk_function m.
Proof. intros H s1 s2 _. rewrite !H. reflexivity. Qed.

Lemma disk_function_bind {A B} (m : M A) (f : A -> M B) :
  disk_function m -> frames same_files m ->
  (forall a, disk_function (f a)) -> disk_function (bind m f).
Proof.
  intros Hm Fm Hf s1 s2 E. unfold bind.
  pose proof (Hm s1 s2 E) as H. pose proof (Fm s1) as F1.
  pose proof (Fm s2) as F2. unfold same_files in F1, F2.
  destruct (m s1) as [r1 t1], (m s2) as [r2 t2]. simpl in *. subst r2.
  destruct r1 as [a|e]; [|reflexivity].
  apply Hf. congruence.
Qed.

Lemma disk_function_try_catch {A} (m : M A) (h : exn -> M A) :
  disk_function m -> frames same_files m ->
  (forall e, disk_function (h e)) -> disk_function (try_catch m h).
Proof.
  intros Hm Fm Hh s1 s2 E. unfold try_catch.
  pose proof (Hm s1 s2 E) as H. pose proof (Fm s1) as F1.
  pose proof (Fm s2) as F2. unfold same_files in F1, F2.
  destruct (m s1) as [r1 t1], (m s2) as [r2 t2]. simpl in *. subst r2.
  destruct r1 as [a|e]; [reflexivity|].
  apply Hh. congruence.
Qed.

Lemma disk_function_ret {A} (a : A) : disk_function (ret a).
Proof. apply (disk_function_const _ (Ok a)). reflexivity. Qed.

Lemma disk_function_raise {A} e : disk_function (@raise A e).
Proof. apply (disk_function_const _ (Raise e)). reflexivity. Qed.

Lemma disk_function_lift {A} (r : Result A) : disk_function (lift r).
Proof.
  destruct r; [apply disk_function_ret | apply disk_function_raise].
Qed.

Lemma disk_function_index {A} (l : list A) i : disk_function (index l i).
Proof.
  unfold index. destruct (nth_error l i);
    [apply disk_function_ret | apply disk_function_raise].
Qed.

Lemma disk_function_read_file p : disk_function (read_file p).
Proof.
  intros s1 s2 E. unfold read_file, bind, get. rewrite E.
  destruct (files s2 (Path p)); reflexivity.
Qed.

Ltac disk_leaf :=
  first [ apply disk_function_ret | apply disk_function_raise
        | apply disk_function_lift | apply disk_function_index
        | apply disk_function_read_file ].

Ltac same_files_leaf :=
  first [ apply frames_ret | apply frames_raise | apply frames_lift
        | apply frames_index | apply frames_read_file
        | apply frames_emit ]; same_files_side.

Section DiskFunctions.
Context (L : Lib).

Lemma disk_function_csv_rows rows : disk_function (csv_rows rows).
Proof.
  intros s1 s2 _. rewrite !csv_rows_spec.
  destruct (forallb complete rows); reflexivity.
Qed.

Lemma disk_function_pdf_loop lines acc :
  disk_function (pdf_loop L lines acc).
Proof. intros s1 s2 _. rewrite !pdf_loop_spec. reflexivity. Qed.

Lemma disk_function_run_pdftotext source :
  disk_function (run_pdftotext L source).
Proof.
  intros s1 s2 E. unfold run_pdftotext, bind, get. rewrite E.
  destruct (files s2 (Path source)); [|reflexivity].
  destruct (pdftotext L b); reflexivity.
Qed.

Lemma same_files_run_pdftotext source :
  frames same_files (run_pdftotext L source).
Proof.
  unfold run_pdftotext.
  apply frames_bind; [same_files_side | apply frames_get; same_files_side|].
  intros s0. destruct (files s0 _); same_files_leaf.
Qed.

Lemma disk_function_ingestor_parse c p :
  disk_function (ingestor_parse L c p).
Proof.
  destruct c; simpl.
  - unfold IngestorCSV_parse. destruct (negb _); [disk_leaf|].
    apply disk_function_bind; [disk_leaf | same_files_leaf | intros b].
    apply disk_function_bind; [disk_leaf | same_files_leaf | intros rows].
    apply disk_function_csv_rows.
  - unfold IngestorDOCX_parse. destruct (negb _); [disk_leaf|].
    apply disk_function_bind; [disk_leaf | same_files_leaf | intros b].
    apply disk_function_bind; [disk_leaf | same_files_leaf | intros ps].
    disk_leaf.
  - unfold IngestorTXT_parse. destruct (negb _); [disk_leaf|].
    apply disk_function_bind; [disk_leaf | same_files_leaf | intros b].
    apply disk_function_bind; [disk_leaf | same_files_leaf | intros ls].
    disk_leaf.
  - unfold IngestorPDF_parse. destruct (negb _); [disk_leaf|].
    apply disk_function_try_catch; [| |intros e; disk_leaf].
    + apply disk_function_bind;
        [apply disk_function_run_pdftotext | apply same_files_run_pdftotext
        | intros text; apply disk_function_pdf_loop].
    + apply frames_bind;
        [same_files_side | apply same_files_run_pdftotext
        | intros text; apply frames_pdf_loop; same_files_side].
Qed.

Lemma disk_function_Ingestor_parse p : disk_function (Ingestor_parse L p).
Proof.
  unfold Ingestor_parse.
  apply disk_function_bind;
    [apply (disk_function_const _ (Ok tt)); reflexivity
    | same_files_leaf | intros _].
  destruct (select_ingestor _);
    [apply disk_function_ingestor_parse | disk_leaf].
Qed.

Lemma parse_each_disk s1 s2 quote_files :
  files s1 = files s2 -> parse_each L s1 quote_files = parse_each L s2 quote_files.
Proof.
  intros E. induction quote_files as [|f rest IH]; simpl; [reflexivity|].
  rewrite (disk_function_Ingestor_parse f s1 s2 E), IH. reflexivity.
Qed.

Lemma parse_all_spec quote_files acc s :
  fst (parse_all L quote_files acc s)
  = match parse_each L s quote_files with
    | Ok parsed => Ok (acc ++ parsed)
    | Raise e => Raise e
    end.
Proof.
  revert acc s; induction quote_files as [|f rest IH]; intros acc s; simpl;
    [rewrite app_nil_r; reflexivity|].
  unfold bind.
  pose proof (frames_Ingestor_parse same_files same_files_refl
                same_files_trans ltac:(intros; reflexivity) L f s) as F.
  destruct (Ingestor_parse L f s) as [[parsed|e] s1]; simpl in F |- *;
    [|reflexivity].
  rewrite IH. rewrite (parse_each_disk s1 s rest F).
  destruct (parse_each L s rest); [rewrite app_assoc|]; reflexivity.
Qed.

End DiskFunctions.

(** ** Where the records come from *)

(** X22: [setup] needs every one of its four quote files.  Its records
    are those of the TXT, the DOCX, the CSV and the PDF file, in this
    order, each file parsed as if it were the only one; when one of them
    fails, [setup] raises that file's exception, so the application does
    not start. *)
Theorem setup_needs_every_quote_file (L : Lib) (s : State) :
  match parse_each L s app_quote_files with
  | Ok parsed =>
      forall qs offered, fst (setup L s) = Ok (qs, offered) -> qs = parsed
  | Raise e => fst (setup L s) = Raise e
  end.
Proof.
  pose proof (parse_all_spec L app_quote_files [] s) as P.
  unfold setup, bind.
  destruct (parse_each L s app_quote_files) as [parsed|e];
    destruct (parse_all L app_quote_files [] s) as [[qs0|e0] s1];
    cbn [fst] in P; try discriminate.
  - injection P as ->. intros qs offered H.
    destruct (os_listdir L _) as [listed|e1]; simpl in H; [|discriminate].
    injection H as <- _. reflexivity.
  - injection P as ->. reflexivity.
Qed.

(** X23: without [--body], the texts of the meme [generate_meme] makes
    are the two fields of one record of the TXT, the DOCX or the CSV
    file, as parsed from the disk the call started with; the call
    returns only if all three parse and give a record between them.
    The PDF file is not among the sources of the command line. *)
Theorem generate_meme_random_quote (L : Lib) path name s out s' :
  generate_meme L path None name s = (Ok out, s') ->
  exists parsed picked,
    parse_each L s main_quote_files = Ok parsed
    /\ In picked parsed
    /\ self_quote (meme s') = quote picked
    /\ self_author (meme s') = author picked.
Proof.
  intros H. apply generate_meme_inv in H.
  destruct H as (img & picked & s1 & s2 & F1 & _ & _ & Hq & Hm).
  destruct Hq as (parsed & Hp & Hin).
  rewrite parse_all_spec, (parse_each_disk L s1 s _ F1) in Hp.
  destruct (parse_each L s main_quote_files) as [l|e]; [|discriminate].
  injection Hp as <-. apply make_meme_texts in Hm.
  exists l, picked. tauto.
Qed.

Lemma generate_meme_random_quote_witness :
  exists parsed picked,
    parse_each Sample.lib
      (Sample.state
         [(py "d", [500; 300]%N);
          (py "./_data/DogQuotes/DogQuotesTXT.txt", py "Bark - Rex");
          (py "./_data/DogQuotes/DogQuotesDOCX.docx", py "Woof - Fido");
          (py "./_data/DogQuotes/DogQuotesCSV.csv", py "body,author")]
         [] 7 (py "abc") (Sample.generator (py "./tmp")))
      main_quote_files = Ok parsed
    /\ In picked parsed
    /\ self_quote
         (meme (snd (generate_meme Sample.lib (Some (py "d")) None None
                       (Sample.state
                          [(py "d", [500; 300]%N);
                           (py "./_data/DogQuotes/DogQuotesTXT.txt",
                            py "Bark - Rex");
                           (py "./_data/DogQuotes/DogQuotesDOCX.docx",
                            py "Woof - Fido");
                           (py "./_data/DogQuotes/DogQuotesCSV.csv",
                            py "body,author")]
                          [] 7 (py "abc") (Sample.generator (py "./tmp"))))))
       = quote picked
    /\ self_author
         (meme (snd (generate_meme Sample.lib (Some (py "d")) None None
                       (Sample.state
                          [(py "d", [500; 300]%N);
                           (py "./_data/DogQuotes/DogQuotesTXT.txt",
                            py "Bark - Rex");
                           (py "./_data/DogQuotes/DogQuotesDOCX.docx",
                            py "Woof - Fido");
                           (py "./_data/DogQuotes/DogQuotesCSV.csv",
                            py "body,author")]
                          [] 7 (py "abc") (Sample.generator (py "./tmp"))))))
       = author picked.
Proof.
  apply (generate_meme_random_quote Sample.lib (Some (py "d")) None
           (Sample.state
              [(py "d", [500; 300]%N);
               (py "./_data/DogQuotes/DogQuotesTXT.txt", py "Bark - Rex");
               (py "./_data/DogQuotes/DogQuotesDOCX.docx", py "Woof - Fido");
               (py "./_data/DogQuotes/DogQuotesCSV.csv", py "body,author")]
              [] 7 (py "abc") (Sample.generator (py "./tmp")))
           (py "tmp/meme_abc.jpg")).
  vm_compute. reflexivity.
Defined.

(** X24: with [--body] and [--author], the meme carries exactly the two
    texts given, as they are: they do not go through [clean_data]. *)
Theorem generate_meme_given_quote (L : Lib) path body name s out s' :
  generate_meme L path (Some body) (Some name) s = (Ok out, s') ->
  self_quote (meme s') = body /\ self_author (meme s') = name.
Proof.
  intros H. apply generate_meme_inv in H.
  destruct H as (img & picked & s1 & s2 & _ & _ & _ & Hq & Hm).
  destruct Hq as (a & Ha & ->). injection Ha as <-.
  apply make_meme_texts in Hm. exact Hm.
Qed.

Lemma generate_meme_given_quote_witness :
  self_quote
    (meme (snd (generate_meme Sample.lib (Some (py "d"))
                  (Some (py "Bark!")) (Some (py "Rex."))
                  (Sample.state [(py "d", [500; 300]%N)] [] 7 (py "abc")
                     (Sample.generator (py "./tmp"))))))
  = py "Bark!"
  /\ self_author
       (meme (snd (generate_meme Sample.lib (Some (py "d"))
                     (Some (py "Bark!")) (Some (py "Rex."))
                     (Sample.state [(py "d", [500; 300]%N)] [] 7 (py "abc")
                        (Sample.generator (py "./tmp"))))))
     = py "Rex.".
Proof.
  apply (generate_meme_given_quote Sample.lib (Some (py "d")) (py "Bark!")
           (py "Rex.")
           (Sample.state [(py "d", [500; 300]%N)] [] 7 (py "abc")
              (Sample.generator (py "./tmp")))
           (py "tmp/meme_abc.jpg")).
  vm_compute. reflexivity.
Defined.

(** The property of [meme_rand_reads_a_record] once the application has
    been set up on a disk with the four quote files and one picture. *)
Lemma meme_rand_reads_a_record_witness :
  exists q,
    In q (quotes (snd (app_import Sample.lib sample_disk_state)))
    /\ self_quote
         (meme (snd (meme_rand Sample.lib
                       (snd (app_import Sample.lib sample_disk_state)))))
       = quote q
    /\ self_author
         (meme (snd (meme_rand Sample.lib
                       (snd (app_import Sample.lib sample_disk_state)))))
       = author q
    /\ quotes (snd (meme_rand Sample.lib
                      (snd (app_import Sample.lib sample_disk_state))))
       = quotes (snd (app_import Sample.lib sample_disk_state)).
Proof.
  apply (meme_rand_reads_a_record Sample.lib
           (snd (app_import Sample.lib sample_disk_state))
           (Rendered (py "meme.html") (Some (py "static/meme_abc.jpg")))).
  vm_compute. reflexivity.
Defined.

(** ** The directories [make_meme] makes *)

Lemma prefixes_whole (l : list str) : l <> [] -> In l (prefixes l).
Proof.
  induction l as [|x l IH]; [congruence|]. intros _.
  destruct l as [|y l]; [left; reflexivity|].
  right. apply in_map, IH. congruence.
Qed.

Lemma mark_dirs_made ps s u s1 :
  mark_dirs ps s = (Ok u, s1) ->
  (forall q, dirs s q = true -> dirs s1 q = true)
  /\ Forall (fun p => dirs s1 p = true) ps.
Proof.
  revert s; induction ps as [|p ps IH]; intros s; simpl.
  - unfold ret. intros [= _ <-]. split; [auto | constructor].
  - intros H. inv_bind H as u1 s2 E1.
    apply IH in H. destruct H as [Mono All].
    unfold mark_dir, bind, get in E1.
    destruct (files s p); [discriminate|].
    unfold modify in E1. injection E1 as _ <-.
    split.
    + intros q Hq. apply Mono. simpl. rewrite Hq.
      destruct (path_eqb q p); reflexivity.
    + constructor; [|exact All].
      apply Mono. simpl. rewrite path_eqb_refl. reflexivity.
Qed.

Lemma make_meme_Ok_dirs (L : Lib) p text author w s out s' :
  make_meme L p text author w s = (Ok out, s') ->
  let folder := Path (output_dir (meme s)) in
  (forall q, dirs s q = true -> dirs s' q = true)
  /\ Forall (fun d => dirs s' d = true)
            (map (mkPath (anchored folder)) (prefixes (parts folder))).
Proof.
  intros H. unfold make_meme in H. rewrite try_reraise in H.
  inv_bind H as u1 s1 E1.
  apply load_and_resize_image_Ok in E1.
  destruct E1 as (b0 & ow & oh & h & Ef & Eo & Eh & Hh & ->).
  inv_bind H as u2 s2 E2. apply prepare_fonts_Ok in E2. subst s2.
  inv_bind H as g0 s2 E3. rewrite self_run in E3. injection E3 as <- <-.
  inv_bind H as im0 s2 E4. apply attr_Ok in E4. destruct E4 as [E4 ->].
  inv_bind H as fq s2 E5. apply attr_Ok in E5. destruct E5 as [E5 ->].
  inv_bind H as fa s2 E6. apply attr_Ok in E6. destruct E6 as [E6 ->].
  inv_bind H as fs s2 E7. apply attr_Ok in E7. destruct E7 as [E7 ->].
  simpl in E4, E5, E6, E7.
  injection E4 as <-. injection E5 as <-. injection E6 as <-.
  injection E7 as <-.
  cbv beta iota delta [size] in H.
  destruct (textbbox L 30 text) as [tw th] eqn:Etw.
  destruct (textbbox L 24 (py "- " ++ author)) as [aw ah] eqn:Eaw.
  inv_bind H as x s2 Ex. apply choose_x_Ok in Ex.
  destruct Ex as [Hx [n1 ->]].
  inv_bind H as y s3 Ey. apply choose_y_Ok in Ey.
  destruct Ey as [Hy [n2 ->]].
  inv_bind H as u3 s4 Ed1. apply draw_text_Ok in Ed1.
  destruct Ed1 as (im1 & Ei1 & ->). simpl in Ei1. injection Ei1 as <-.
  inv_bind H as r s5 Er. apply randint_Ok in Er; [|lia].
  destruct Er as [Hr ->].
  inv_bind H as gr s6 Eg. apply randint_Ok in Eg; [|lia].
  destruct Eg as [Hg ->].
  inv_bind H as bl s7 Eb. apply randint_Ok in Eb; [|lia].
  destruct Eb as [Hb ->].
  inv_bind H as u4 s8 Ed2. apply draw_text_Ok in Ed2.
  destruct Ed2 as (im2 & Ei2 & ->). simpl in Ei2. injection Ei2 as <-.
  inv_bind H as g2 s9 Eg2. rewrite self_run in Eg2. injection Eg2 as <- <-.
  inv_bind H as u5 s10 Em.
  pose proof (mark_dirs_made _ _ _ _ Em) as [Mono All].
  apply mark_dirs_Ok in Em. destruct Em as [d ->].
  inv_bind H as saved s11 Et.
  apply NamedTemporaryFile_name_Ok in Et.
  destruct Et as ([n3 ->] & _ & _ & k & ->).
  inv_bind H as u6 s12 Es. apply Image_save_Ok in Es.
  destruct Es as (im3 & encoded & Ei3 & Eenc & ->).
  apply ret_Ok in H. destruct H as [_ ->].
  cbn [dirs meme set_dirs set_meme set_trace set_tick set_files output_dir]
    in Mono, All |- *.
  split; [exact Mono | exact All].
Qed.

(** X26: a successful [make_meme] has made the output directory and
    every directory above it, and has removed none: the configured
    directory exists afterwards, also when the picture itself went
    elsewhere. *)
Theorem make_meme_makes_output_dir (L : Lib) p text author w s out s' :
  make_meme L p text author w s = (Ok out, s') ->
  let folder := Path (output_dir (meme s)) in
  dir_exists s' folder = true
  /\ Forall (fun d => dirs s' d = true)
            (map (mkPath (anchored folder)) (prefixes (parts folder)))
  /\ forall q, dirs s q = true -> dirs s' q = true.
Proof.
  intros H folder. apply make_meme_Ok_dirs in H.
  destruct H as [Mono All]. fold folder in All.
  split; [|split; [exact All | exact Mono]].
  unfold dir_exists. destruct (parts folder) as [|c cs] eqn:Ep;
    [reflexivity|].
  rewrite Forall_forall in All.
  replace folder with (mkPath (anchored folder) (c :: cs))
    by (rewrite <- Ep; destruct folder; reflexivity).
  apply All, in_map, prefixes_whole. congruence.
Qed.

Lemma make_meme_makes_output_dir_witness :
  dirs (snd (make_meme Sample.lib (py "dog.jpg") (py "Bark") (py "Rex") 500
               (Sample.state [Sample.photo] [py "memes"] 7 (py "abc")
                  (Sample.generator (py "out/memes")))))
       (Path (py "out/memes")) = true.
Proof.
  destruct (make_meme_makes_output_dir Sample.lib (py "dog.jpg") (py "Bark")
              (py "Rex") 500
              (Sample.state [Sample.photo] [py "memes"] 7 (py "abc")
                 (Sample.generator (py "out/memes")))
              (py "out/memes/meme_abc.jpg")
              (snd (make_meme Sample.lib (py "dog.jpg") (py "Bark")
                      (py "Rex") 500
                      (Sample.state [Sample.photo] [py "memes"] 7 (py "abc")
                         (Sample.generator (py "out/memes"))))))
    as [H _].
  - vm_compute. reflexivity.
  - exact H.
Defined.

(** ** [QuoteModel.__repr__] *)

Lemma mem_app c a b : mem c (a ++ b) = mem c a || mem c b.
Proof. unfold mem. apply existsb_app. Qed.

(** Two strings cut at their first occurrence of a character. *)
Lemma first_occurrence c a1 a2 b1 b2 :
  mem c a1 = false -> mem c a2 = false ->
  a1 ++ c :: b1 = a2 ++ c :: b2 -> a1 = a2 /\ b1 = b2.
Proof.
  revert a2; induction a1 as [|x a1 IH]; intros [|y a2] H1 H2 E;
    simpl in *.
  - injection E as <-. auto.
  - injection E as <- _. unfold mem in H2. simpl in H2.
    unfold char_eqb in H2. rewrite N.eqb_refl in H2. discriminate.
  - injection E as -> _. unfold mem in H1. simpl in H1.
    unfold char_eqb in H1. rewrite N.eqb_refl in H1. discriminate.
  - injection E as <- E. unfold mem in H1, H2. simpl in H1, H2.
    apply orb_false_iff in H1, H2.
    destruct (IH a2) as [-> ->]; [apply H1 | apply H2 | exact E | auto].
Qed.

Lemma wanted_no_dquote (t : str) :
  forallb (fun c => negb (unwanted c)) t = true -> mem dquote t = false.
Proof.
  induction t as [|c t IH]; [reflexivity|]. intros H. simpl in H.
  apply andb_true_iff in H. destruct H as [Hc Ht].
  assert (char_eqb dquote c = false) as E.
  { destruct (char_eqb dquote c) eqn:E; [|reflexivity].
    apply char_eqb_eq in E. subst c. discriminate. }
  change (mem dquote (c :: t)) with (char_eqb dquote c || mem dquote t).
  rewrite (IH Ht), E. reflexivity.
Qed.

Lemma clean_data_no_dquote (L : Lib) s : mem dquote (clean_data L s) = false.
Proof. apply wanted_no_dquote, clean_data_wanted. Qed.

(** X27: the text [__repr__] gives tells the records of the cleaning
    parsers apart: two records whose quotes went through [clean_data]
    (which leaves no double quote in them) and which print alike have
    the same quote and the same author. *)
Theorem QuoteModel_repr_tells_cleaned_records_apart
  (L : Lib) (raw1 raw2 author1 author2 : str) :
  QuoteModel_repr (mkQuoteModel (clean_data L raw1) author1)
  = QuoteModel_repr (mkQuoteModel (clean_data L raw2) author2) ->
  clean_data L raw1 = clean_data L raw2 /\ author1 = author2.
Proof.
  unfold QuoteModel_repr. cbn [quote author]. intros H.
  apply app_inv_head in H. apply app_inv_head in H.
  change ([dquote] ++ py " - " ++ author1)
    with (dquote :: (py " - " ++ author1)) in H.
  change ([dquote] ++ py " - " ++ author2)
    with (dquote :: (py " - " ++ author2)) in H.
  apply first_occurrence in H; try apply clean_data_no_dquote.
  destruct H as [Hq Ha]. apply app_inv_head in Ha. auto.
Qed.

Lemma QuoteModel_repr_tells_cleaned_records_apart_witness :
  clean_data Sample.lib (py "Bark!") = clean_data Sample.lib (py " Bark")
  /\ py "Rex" = py "Rex".
Proof.
  apply (QuoteModel_repr_tells_cleaned_records_apart Sample.lib).
  vm_compute. reflexivity.
Defined.

(** Without the cleaning the text does not determine the record: a
    double quote in the quote can pass for the end of it. *)
Lemma QuoteModel_repr_ambiguous :
  QuoteModel_repr (mkQuoteModel (py "a" ++ [dquote] ++ py " - b") (py "c"))
  = QuoteModel_repr (mkQuoteModel (py "a") (py "b" ++ [dquote] ++ py " - c")).
Proof. reflexivity. Qed.
